(** * ArkTS bad-case pipeline: sampling, judging, consensus and resume

    A shallow embedding of
    [analysis/llm_bad_case_analysis/arkts_badcase_pipeline.py] and
    [analysis/llm_bad_case_analysis/full_data_processing/arkts_full_data_processor.py],
    and the properties of the pipeline proved over it.

    Conventions of the embedding.
    - A Python [str] is a [string]; [strip] and [upper] act on the ASCII
      range, every other character is left as it is.
    - A Python [float] is a [pyfloat]: an exact rational, an infinity or
      NaN.  Rounding is not modelled; comparisons, [min] and [max] follow
      the interpreter, NaN included.
    - A Python [dict] whose iteration order the code relies on is an
      association list in insertion order with pairwise distinct keys.
    - A function that can raise returns an [option] (or a dedicated
      outcome type); [None] stands for the exception.
    - What the interpreter and its libraries provide ([repr], the parser
      of [float], [json.loads], [json.dumps], SHA-1, the random generator,
      the judge behind the HTTP client) is a section variable; reference
      instances are given at the end for running the model. *)

From Stdlib Require Import List String Ascii ZArith QArith Qround Bool Lia.
From Stdlib Require Import Permutation Sorted Arith PeanoNat DecimalString.
Import ListNotations.

Set Warnings "-register-all".

Local Open Scope string_scope.
Local Open Scope list_scope.
Local Open Scope nat_scope.

(* ================================================================== *)
(** * Python values *)
(* ================================================================== *)

(** ** Strings *)

Definition is_space (c : ascii) : bool :=
  let n := nat_of_ascii c in
  ((9 <=? n) && (n <=? 13)) || ((28 <=? n) && (n <=? 32)).

Fixpoint lstrip (s : string) : string :=
  match s with
  | EmptyString => EmptyString
  | String c r => if is_space c then lstrip r else s
  end.

Fixpoint rstrip (s : string) : string :=
  match s with
  | EmptyString => EmptyString
  | String c r =>
      match rstrip r with
      | EmptyString => if is_space c then EmptyString else String c EmptyString
      | r' => String c r'
      end
  end.

(** [s.strip()] *)
Definition strip (s : string) : string := rstrip (lstrip s).

Definition upper_char (c : ascii) : ascii :=
  let n := nat_of_ascii c in
  if (97 <=? n) && (n <=? 122) then ascii_of_nat (n - 32) else c.

(** [s.upper()] *)
Fixpoint upper (s : string) : string :=
  match s with
  | EmptyString => EmptyString
  | String c r => String (upper_char c) (upper r)
  end.

(** [s[:k]] for [k >= 0] *)
Fixpoint str_take (k : nat) (s : string) : string :=
  match k, s with
  | S k', String c r => String c (str_take k' r)
  | _, _ => EmptyString
  end.

(** [s.startswith(p)] *)
Definition startswith (p s : string) : bool := String.prefix p s.

(** [sep.join(parts)] *)
Fixpoint join (sep : string) (parts : list string) : string :=
  match parts with
  | [] => EmptyString
  | [p] => p
  | p :: rest => p ++ sep ++ join sep rest
  end.

(** [needle in s] for strings *)
Fixpoint contains (needle s : string) : bool :=
  String.prefix needle s ||
  match s with
  | EmptyString => false
  | String _ r => contains needle r
  end.

Definition str_in (s : string) (l : list string) : bool :=
  existsb (String.eqb s) l.

(** ** Floats *)

Inductive pyfloat : Type :=
| Fin (q : Q)
| PosInf
| NegInf
| NaN.

(** [a < b] on floats; any comparison with NaN is false. *)
Definition flt_lt (a b : pyfloat) : bool :=
  match a, b with
  | NaN, _ | _, NaN => false
  | Fin x, Fin y => if Qlt_le_dec x y then true else false
  | NegInf, NegInf => false
  | NegInf, _ => true
  | _, NegInf => false
  | PosInf, _ => false
  | Fin _, PosInf => true
  end.

(** [min(a, b)]: the first argument unless the second is smaller. *)
Definition py_min (a b : pyfloat) : pyfloat := if flt_lt b a then b else a.

(** [max(a, b)]: the first argument unless the second is larger. *)
Definition py_max (a b : pyfloat) : pyfloat := if flt_lt a b then b else a.

Definition flt_add (a b : pyfloat) : pyfloat :=
  match a, b with
  | NaN, _ | _, NaN => NaN
  | PosInf, NegInf | NegInf, PosInf => NaN
  | PosInf, _ | _, PosInf => PosInf
  | NegInf, _ | _, NegInf => NegInf
  | Fin x, Fin y => Fin (x + y)
  end.

(** [a / k] for a positive integer [k] *)
Definition flt_div_pos (a : pyfloat) (k : nat) : pyfloat :=
  match a with
  | Fin x => Fin (x / inject_Z (Z.of_nat k))
  | other => other
  end.

(** Equality of floats as numbers (rationals up to [Qeq]). *)
Definition flt_eq (a b : pyfloat) : Prop :=
  match a, b with
  | Fin x, Fin y => (x == y)%Q
  | PosInf, PosInf | NegInf, NegInf | NaN, NaN => True
  | _, _ => False
  end.

(** [lo <= f <= hi] for a finite float [f] *)
Definition flt_between (lo hi : Q) (f : pyfloat) : Prop :=
  match f with
  | Fin q => (lo <= q)%Q /\ (q <= hi)%Q
  | _ => False
  end.

(** ** Dictionaries in insertion order *)

Section Dict.
Context {V : Type}.

Fixpoint dict_get (k : string) (d : list (string * V)) : option V :=
  match d with
  | [] => None
  | (k', v) :: rest => if String.eqb k k' then Some v else dict_get k rest
  end.

(** [d[k] = v]: overwrite in place, or append a new key. *)
Fixpoint dict_set (k : string) (v : V) (d : list (string * V)) : list (string * V) :=
  match d with
  | [] => [(k, v)]
  | (k', v') :: rest =>
      if String.eqb k k' then (k', v) :: rest else (k', v') :: dict_set k v rest
  end.

Definition dict_has (k : string) (d : list (string * V)) : bool :=
  match dict_get k d with Some _ => true | None => false end.

(** [{**a, **b}] *)
Definition dict_merge (a b : list (string * V)) : list (string * V) :=
  fold_left (fun acc kv => dict_set (fst kv) (snd kv) acc) b a.
End Dict.

(** ** JSON values, as [json.loads] builds them *)

Inductive json : Type :=
| JNull
| JBool (b : bool)
| JInt (z : Z)
| JFloat (f : pyfloat)
| JStr (s : string)
| JList (l : list json)
| JDict (d : list (string * json)).

(** [bool(v)] *)
Definition truthy (v : json) : bool :=
  match v with
  | JNull => false
  | JBool b => b
  | JInt z => negb (Z.eqb z 0)
  | JFloat (Fin q) => negb (Qeq_bool q 0)
  | JFloat _ => true
  | JStr s => negb (String.eqb s "")
  | JList l => match l with [] => false | _ => true end
  | JDict d => match d with [] => false | _ => true end
  end.

(** Lists and dicts cannot be put into a [set]. *)
Definition hashable (v : json) : bool :=
  match v with
  | JList _ | JDict _ => false
  | _ => true
  end.

Definition string_of_Z (z : Z) : string := NilZero.string_of_int (Z.to_int z).

(** Integers at or beyond this bound do not convert to a float. *)
Definition float_overflow : Z := (2 ^ 1024 - 2 ^ 970)%Z.

Section Builtins.
(** [repr(v)] of a float, a list or a dict *)
Variable repr_value : json -> string.
(** [float(s)] of a string; [None] is [ValueError] *)
Variable float_of_str : string -> option pyfloat.

(** [str(v)] *)
Definition py_str (v : json) : string :=
  match v with
  | JStr s => s
  | JNull => "None"
  | JBool true => "True"
  | JBool false => "False"
  | JInt z => string_of_Z z
  | other => repr_value other
  end.

(** [float(v)]; [None] is [TypeError], [ValueError] or [OverflowError] *)
Definition py_float (v : json) : option pyfloat :=
  match v with
  | JInt z =>
      if (Z.abs z <? float_overflow)%Z then Some (Fin (inject_Z z)) else None
  | JFloat f => Some f
  | JBool b => Some (Fin (if b then 1 else 0)%Q)
  | JStr s => float_of_str s
  | JNull | JList _ | JDict _ => None
  end.
End Builtins.

(* ================================================================== *)
(** * Judgements: data, validation and extraction *)
(* ================================================================== *)

Record Judgement : Type := mkJudgement {
  decision : string;
  labels : list string;
  arkts_score : pyfloat;
  quality_score : pyfloat;
  confidence : pyfloat;
  rationale : string
}.

Definition DECISIONS : list string := ["KEEP"; "KEEP_WITH_TAG"; "REMOVE"].

(** [max(0.0, min(hi, x))] *)
Definition clamp (hi : Q) (x : pyfloat) : pyfloat :=
  py_max (Fin 0) (py_min (Fin hi) x).

Definition brace_open : ascii := "{"%char.
Definition brace_close : ascii := "}"%char.
Definition fence : string := "```".
Definition newline : string := String (ascii_of_nat 10) EmptyString.

Definition is_tick (c : ascii) : bool := Ascii.eqb c "`"%char.

(** [s.split(fence)] *)
Fixpoint split_fence (s : string) : list string :=
  match s with
  | EmptyString => [EmptyString]
  | String c r =>
      let continue :=
        match split_fence r with
        | p :: ps => String c p :: ps
        | [] => [String c EmptyString]
        end in
      match r with
      | String c2 (String c3 r3) =>
          if is_tick c && is_tick c2 && is_tick c3
          then EmptyString :: split_fence r3
          else continue
      | _ => continue
      end
  end.

(** [parts[1:-1]] *)
Definition inner_parts (parts : list string) : list string :=
  removelast (tl parts).

(** The suffix of [s] that starts at its first opening brace. *)
Fixpoint from_first_open (s : string) : option string :=
  match s with
  | EmptyString => None
  | String c r => if Ascii.eqb c brace_open then Some s else from_first_open r
  end.

(** The prefix of [s] that ends at its last closing brace. *)
Fixpoint upto_last_close (s : string) : option string :=
  match s with
  | EmptyString => None
  | String c r =>
      match upto_last_close r with
      | Some p => Some (String c p)
      | None => if Ascii.eqb c brace_close then Some (String c EmptyString) else None
      end
  end.

(** [JSON_LINE_RE.search(s)]: the pattern [\{.*\}] with DOTALL matches
    from the first opening brace to the last closing brace after it. *)
Definition JSON_LINE_RE_search (s : string) : option string :=
  match from_first_open s with
  | Some t => upto_last_close t
  | None => None
  end.

(** The inner [for] loop of the brace matching: scan from an opening
    brace with the running [depth]; the chunk ends at the brace that
    brings the depth back to zero. *)
Fixpoint balanced_chunk (depth : Z) (s : string) : option string :=
  match s with
  | EmptyString => None
  | String c r =>
      if Ascii.eqb c brace_open then
        option_map (String c) (balanced_chunk (depth + 1) r)
      else if Ascii.eqb c brace_close then
        if (depth - 1 =? 0)%Z then Some (String c EmptyString)
        else option_map (String c) (balanced_chunk (depth - 1) r)
      else option_map (String c) (balanced_chunk depth r)
  end.

Section Extraction.
Variable repr_value : json -> string.
Variable float_of_str : string -> option pyfloat.
(** [json.loads]; [None] is any exception it raises *)
Variable json_loads : string -> option json.

(** The [while start_idx != -1] loop: [s] is the text from the current
    search position on. *)
Fixpoint brace_matching (s : string) : option json :=
  match s with
  | EmptyString => None
  | String c r =>
      if Ascii.eqb c brace_open then
        match balanced_chunk 0 s with
        | Some chunk =>
            match json_loads chunk with
            | Some v => Some v
            | None => brace_matching r
            end
        | None => brace_matching r
        end
      else brace_matching r
  end.

Definition extract_json_object (text : string) : option json :=
  let s := strip text in
  let s :=
    if startswith fence s then
      let parts := split_fence s in
      if 3 <=? List.length parts then strip (join newline (inner_parts parts)) else s
    else s in
  let quick :=
    match JSON_LINE_RE_search s with
    | Some m => json_loads m
    | None => None
    end in
  match quick with
  | Some v => Some v
  | None => brace_matching s
  end.

Definition validate_judgement (obj : json) : option Judgement :=
  match obj with
  | JDict d =>
      match dict_get "decision" d with
      | None => None
      | Some dv =>
          let decision := upper (strip (py_str repr_value dv)) in
          if str_in decision DECISIONS then
            let labels := match dict_get "labels" d with Some v => v | None => JList [] end in
            let labels := match labels with JNull => JList [] | other => other end in
            match labels with
            | JList ls =>
                let num k := py_float float_of_str
                               (match dict_get k d with Some v => v | None => JInt 0 end) in
                match num "arkts_score", num "quality_score", num "confidence" with
                | Some a, Some q, Some c =>
                    let rationale :=
                      str_take 400
                        (py_str repr_value
                           (match dict_get "rationale" d with Some v => v | None => JStr "" end)) in
                    Some (mkJudgement decision (map (py_str repr_value) ls)
                            (clamp 5 a) (clamp 5 q) (clamp 1 c) rationale)
                | _, _, _ => None
                end
            | _ => None
            end
          else None
      end
  | _ => None
  end.

Definition PARSE_ERROR_judgement : Judgement :=
  mkJudgement "KEEP_WITH_TAG" ["PARSE_ERROR"] (Fin 3) (Fin 3) (Fin (3 # 10))
    "Failed to parse model JSON".

Definition API_ERROR_judgement (err : json) : Judgement :=
  mkJudgement "KEEP_WITH_TAG" ["API_ERROR"] (Fin 3) (Fin 3) (Fin (1 # 5))
    (str_take 200 (py_str repr_value err)).

(** Lines 453-456 of [run_one_judgement]: from the raw text to the
    judgement attached to the result. *)
Definition judge_text (raw_text : string) : Judgement :=
  let obj := extract_json_object raw_text in
  let j :=
    match obj with
    | Some o => if truthy o then validate_judgement o else None
    | None => None
    end in
  match j with
  | Some j => j
  | None => PARSE_ERROR_judgement
  end.
End Extraction.

(* ================================================================== *)
(** * Consensus over the replicas of an item *)
(* ================================================================== *)

Definition SEVERITY : list (string * Z) :=
  [("KEEP", 0%Z); ("KEEP_WITH_TAG", 1%Z); ("REMOVE", 2%Z)].

(** [sorted(l)] under the strict order [lt]: a stable insertion sort,
    elements that [lt] does not separate keep their order. *)
Fixpoint insert_sorted {A : Type} (lt : A -> A -> bool) (x : A) (l : list A) : list A :=
  match l with
  | [] => [x]
  | y :: r => if lt y x then y :: insert_sorted lt x r else x :: l
  end.

Definition sort_by {A : Type} (lt : A -> A -> bool) (l : list A) : list A :=
  fold_right (insert_sorted lt) [] l.

(** [sorted(l, key=key, reverse=True)] *)
Definition sort_desc {A : Type} (key : A -> Z) (l : list A) : list A :=
  sort_by (fun a b => (key b <? key a)%Z) l.

(** [sorted(l)] on strings *)
Definition sorted_str (l : list string) : list string := sort_by String.ltb l.

(** [sorted({x for x in l})] *)
Definition sorted_set (l : list string) : list string :=
  sorted_str (nodup string_dec l).

(** [sum(xs) / len(xs)] *)
Definition mean (xs : list pyfloat) : pyfloat :=
  flt_div_pos (fold_left flt_add xs (Fin 0)) (List.length xs).

Section Consensus.
(** The table the tie-break reads; [SEVERITY] in the source. *)
Variable severity : list (string * Z).

(** [vote[d] = vote.get(d, 0) + 1] *)
Definition bump (d : string) (vote : list (string * nat)) : list (string * nat) :=
  dict_set d (match dict_get d vote with Some c => c | None => 0 end + 1) vote.

Definition count_votes (judgements : list Judgement) : list (string * nat) :=
  fold_left (fun vote j => bump (decision j) vote) judgements [].

(** [max(vote.values())] *)
Definition max_votes (vote : list (string * nat)) : nat :=
  fold_right Nat.max 0 (map snd vote).

(** [[d for d, c in vote.items() if c == max_votes]] *)
Definition top_decisions (vote : list (string * nat)) : list string :=
  map fst (filter (fun dc => snd dc =? max_votes vote) vote).

(** [[(d, SEVERITY[d]) for d in top]]; [None] is [KeyError] *)
Fixpoint with_severity (top : list string) : option (list (string * Z)) :=
  match top with
  | [] => Some []
  | d :: rest =>
      match dict_get d severity, with_severity rest with
      | Some r, Some keyed => Some ((d, r) :: keyed)
      | _, _ => None
      end
  end.

(** The [else] branch of the vote: the most severe of the tied
    decisions, unless the first and the last of them have one rank. *)
Definition tie_break (top : list string) : option string :=
  match with_severity top with
  | None => None
  | Some keyed =>
      match sort_desc snd keyed with
      | [] => None
      | (final_decision, _) :: _ =>
          let first_rank := option_map snd (hd_error keyed) in
          let last_rank := option_map snd (hd_error (rev keyed)) in
          match first_rank, last_rank with
          | Some a, Some b =>
              if (1 <? List.length top) && (a =? b)%Z
              then Some "KEEP_WITH_TAG" else Some final_decision
          | _, _ => None
          end
      end
  end.

Definition final_decision (top : list string) : option string :=
  match top with
  | [d] => Some d
  | _ => tie_break top
  end.

Definition consensus_with (judgements : list Judgement) : option Judgement :=
  match judgements with
  | [] =>
      Some (mkJudgement "KEEP_WITH_TAG" [] (Fin 3) (Fin 3) (Fin (3 # 10))
              "empty-judgements")
  | _ =>
      match final_decision (top_decisions (count_votes judgements)) with
      | None => None
      | Some d =>
          Some (mkJudgement d
                  (sorted_set (flat_map labels judgements))
                  (mean (map arkts_score judgements))
                  (mean (map quality_score judgements))
                  (mean (map confidence judgements))
                  (str_take 400 (join "; " (map rationale judgements))))
      end
  end.
End Consensus.

(** [consensus(judgements)]; [None] is the [KeyError] of a decision
    outside [SEVERITY] met in a tie. *)
Definition consensus : list Judgement -> option Judgement :=
  consensus_with SEVERITY.

(* ================================================================== *)
(** * One judge request *)
(* ================================================================== *)

Record ItemResult : Type := mkItemResult {
  item_id : string;
  replica : Z;
  judgement : Judgement;   (* decision, labels, scores, confidence, rationale *)
  model : string;
  temperature : pyfloat;
  prompt_tokens : json;
  completion_tokens : json;
  total_tokens : json;
  raw_response : json
}.

Inductive outcome (A : Type) : Type :=
| Returns (a : A)
| Raises.
Arguments Returns {A} a.
Arguments Raises {A}.

(** [s.replace(old, new)]; [skip] characters of a match are still to be
    passed over. *)
Fixpoint replace_from (skip : nat) (old new s : string) : string :=
  match s with
  | EmptyString => EmptyString
  | String c r =>
      match skip with
      | S k => replace_from k old new r
      | O =>
          if String.prefix old s && negb (String.eqb old "")
          then new ++ replace_from (String.length old - 1) old new r
          else String c (replace_from 0 old new r)
      end
  end.

Definition replace (old new s : string) : string := replace_from 0 old new s.

(** ["error" in resp]; [None] is the [TypeError] of a value that is not
    a container. *)
Definition has_error (resp : json) : option bool :=
  match resp with
  | JDict d => Some (dict_has "error" d)
  | JList l => Some (existsb (fun v => match v with JStr s => String.eqb s "error" | _ => false end) l)
  | JStr s => Some (contains "error" s)
  | _ => None
  end.

(** [resp["choices"][0]["message"]["content"]]; [None] is any exception
    on the way. *)
Definition response_content (resp : json) : option json :=
  match resp with
  | JDict d =>
      match dict_get "choices" d with
      | Some (JList (JDict c0 :: _)) =>
          match dict_get "message" c0 with
          | Some (JDict m) => dict_get "content" m
          | _ => None
          end
      | _ => None
      end
  | _ => None
  end.

(** [d.get(k)] with [None] as JSON null *)
Definition get_or_null (k : string) (d : list (string * json)) : json :=
  match dict_get k d with Some v => v | None => JNull end.

Section Judge.
Variable repr_value : json -> string.
Variable float_of_str : string -> option pyfloat.
Variable json_loads : string -> option json.
Variable json_dumps : json -> string.
Variable PROMPT_TEMPLATE : string.
(** The judge: prompt, model and temperature to the decoded reply of
    the chat-completion endpoint (or its [{"error": ...}] stand-in). *)
Variable call_chat_completion : string -> string -> pyfloat -> json.

Definition build_prompt (code : string) : string :=
  replace "{code}" code PROMPT_TEMPLATE.

Definition run_one_judgement (item_id code model : string)
    (temperature : pyfloat) (replica : Z) : outcome ItemResult :=
  let prompt := build_prompt code in
  let resp := call_chat_completion prompt model temperature in
  match has_error resp with
  | None => Raises
  | Some true =>
      match resp with
      | JDict d =>
          match dict_get "error" d with
          | Some err =>
              Returns (mkItemResult item_id replica
                         (API_ERROR_judgement repr_value err)
                         model temperature JNull JNull JNull JNull)
          | None => Raises
          end
      | _ => Raises
      end
  | Some false =>
      let raw_text :=
        match response_content resp with
        | Some choice => choice
        | None => JStr (str_take 2000 (json_dumps resp))
        end in
      match (if truthy raw_text then raw_text else JStr "") with
      | JStr text =>
          let j := judge_text repr_value float_of_str json_loads text in
          let usage :=
            match resp with
            | JDict d => match dict_get "usage" d with Some u => u | None => JDict [] end
            | _ => JDict []
            end in
          match usage with
          | JDict u =>
              Returns (mkItemResult item_id replica j model temperature
                         (get_or_null "prompt_tokens" u)
                         (get_or_null "completion_tokens" u)
                         (get_or_null "total_tokens" u)
                         raw_text)
          | _ => Raises
          end
      | _ => Raises
      end
  end.
End Judge.

(* ================================================================== *)
(** * Stratified sampling *)
(* ================================================================== *)

(** A corpus record: a JSON object whose fields hold text.  A field set
    to null is modelled as an absent one. *)
Definition row : Type := list (string * string).

Definition row_dec (a b : row) : {a = b} + {a <> b} :=
  list_eq_dec (fun x y : string * string =>
                 match string_dec (fst x) (fst y), string_dec (snd x) (snd y) with
                 | left e1, left e2 =>
                     left (eq_trans (surjective_pairing x)
                             (eq_trans (f_equal2 pair e1 e2)
                                (eq_sym (surjective_pairing y))))
                 | right n, _ => right (fun e => n (f_equal fst e))
                 | _, right n => right (fun e => n (f_equal snd e))
                 end) a b.

(** [a is b]: the record itself *)
Definition row_is (a b : row) : bool := if row_dec a b then true else false.

(** [a == b] on two records *)
Definition row_eqb (a b : row) : bool :=
  (List.length a =? List.length b) &&
  forallb (fun kv =>
             match dict_get (fst kv) b with
             | Some v => String.eqb v (snd kv)
             | None => false
             end) a.

(** [r in l]: some element is [r] itself or equals it *)
Definition row_in (r : row) (l : list row) : bool :=
  existsb (fun x => row_is x r || row_eqb x r) l.

(** [row.get(field) or ""] *)
Definition field_or_empty (field : string) (r : row) : string :=
  match dict_get field r with Some s => s | None => "" end.

Definition length_bucket_by_chars (s : string) : string :=
  let n := Z.of_nat (String.length s) in
  if (n <? 200)%Z then "len_<200"
  else if (n <? 800)%Z then "len_200_800"
  else if (n <? 2000)%Z then "len_800_2k"
  else if (n <? 6000)%Z then "len_2k_6k"
  else "len_6k_plus".

Definition stratum : Type := (string * string * string)%type.

Definition stratum_eqb (a b : stratum) : bool :=
  let '(a1, a2, a3) := a in
  let '(b1, b2, b3) := b in
  String.eqb a1 b1 && String.eqb a2 b2 && String.eqb a3 b3.

(** [str(row.get(f)) if (f and row.get(f) is not None) else default] *)
Definition optional_field (f : option string) (default : string) (r : row) : string :=
  match f with
  | Some name =>
      if String.eqb name "" then default
      else match dict_get name r with Some v => v | None => default end
  | None => default
  end.

Definition default_strata (r : row) (code_field : string)
    (source_field lang_field : option string) : stratum :=
  let code := field_or_empty code_field r in
  let L := length_bucket_by_chars code in
  let source := optional_field source_field "src_unknown" r in
  let lang := optional_field lang_field "lang_unknown" r in
  (L, source, lang).

(** Dictionaries keyed by a stratum, in insertion order. *)
Section Assoc.
Context {V : Type}.

Fixpoint assoc_get (k : stratum) (d : list (stratum * V)) : option V :=
  match d with
  | [] => None
  | (k', v) :: rest => if stratum_eqb k k' then Some v else assoc_get k rest
  end.

Fixpoint assoc_set (k : stratum) (v : V) (d : list (stratum * V)) : list (stratum * V) :=
  match d with
  | [] => [(k, v)]
  | (k', v') :: rest =>
      if stratum_eqb k k' then (k', v) :: rest else (k', v') :: assoc_set k v rest
  end.
End Assoc.

(** [l[i] = x] for [i] in range *)
Fixpoint set_nth {A : Type} (i : nat) (x : A) (l : list A) : list A :=
  match l, i with
  | [], _ => []
  | _ :: r, O => x :: r
  | y :: r, S i' => y :: set_nth i' x r
  end.

(** [l[:n]] *)
Definition slice_to {A : Type} (n : Z) (l : list A) : list A :=
  if (0 <=? n)%Z then firstn (Z.to_nat n) l
  else firstn (List.length l - Z.to_nat (- n)) l.

(** ** The random generator *)

(** The generator of the [random] module: a state, [random.seed] and the
    draw of an integer below a bound.  A draw is reduced modulo the bound,
    so that every [rng_below] is admissible. *)
Record generator : Type := mkGenerator {
  rng_state : Type;
  rng_seed : Z -> rng_state;
  rng_below : rng_state -> nat -> nat * rng_state
}.

Section Random.
Variable G : generator.
Context {A : Type}.

(** The selection loop of [random.sample]: [result[i] = pool[j]], then
    [pool[j] = pool[n-i-1]]; the pool shrinks by its last slot. *)
Fixpoint sample_loop (k : nat) (pool : list A) (st : rng_state G)
    : list A * rng_state G :=
  match k with
  | O => ([], st)
  | S k' =>
      let n := List.length pool in
      let (j0, st1) := rng_below G st n in
      let j := j0 mod n in
      match nth_error pool j, nth_error pool (n - 1) with
      | Some x, Some z =>
          let (rest, st2) := sample_loop k' (removelast (set_nth j z pool)) st1 in
          (x :: rest, st2)
      | _, _ => ([], st1)
      end
  end.

(** [random.sample(population, k)]; [None] is the [ValueError] of a
    sample larger than the population. *)
Definition random_sample (population : list A) (k : nat) (st : rng_state G)
    : option (list A * rng_state G) :=
  if k <=? List.length population then Some (sample_loop k population st)
  else None.

Definition swap (i j : nat) (x : list A) : list A :=
  match nth_error x i, nth_error x j with
  | Some a, Some b => set_nth i b (set_nth j a x)
  | _, _ => x
  end.

(** [for i in reversed(range(1, len(x))): j = randbelow(i + 1); swap] *)
Fixpoint shuffle_loop (i : nat) (x : list A) (st : rng_state G)
    : list A * rng_state G :=
  match i with
  | O => (x, st)
  | S i' =>
      let (j0, st1) := rng_below G st (S i) in
      shuffle_loop i' (swap i (j0 mod S i) x) st1
  end.

(** [random.shuffle(x)] *)
Definition random_shuffle (x : list A) (st : rng_state G) : list A * rng_state G :=
  shuffle_loop (List.length x - 1) x st.
End Random.

(** ** The sampler *)

(** [strata.setdefault(key, []).append(r)] *)
Definition strata_add (key : stratum) (r : row)
    (strata : list (stratum * list row)) : list (stratum * list row) :=
  match assoc_get key strata with
  | Some items => assoc_set key (items ++ [r]) strata
  | None => strata ++ [(key, [r])]
  end.

Definition build_strata (rows : list row) (code_field : string)
    (source_field lang_field : option string) : list (stratum * list row) :=
  fold_left (fun strata r =>
               strata_add (default_strata r code_field source_field lang_field) r strata)
            rows [].

Definition Zlen {A : Type} (l : list A) : Z := Z.of_nat (List.length l).

(** [max(1, math.floor(len(items) / total * n))] *)
Definition proportional_floor (size total n : Z) : Z :=
  Z.max 1 (Qfloor ((inject_Z size / inject_Z total) * inject_Z n)).

(** First pass: the proportional floor, at least one, at most the
    stratum; [remaining] is what is left of the quota. *)
Fixpoint first_pass (strata : list (stratum * list row)) (total n : Z)
    (allocation : list (stratum * Z)) (remaining : Z)
    : list (stratum * Z) * Z :=
  match strata with
  | [] => (allocation, remaining)
  | (key, items) :: rest =>
      let k := proportional_floor (Zlen items) total n in
      let a := Z.min k (Zlen items) in
      first_pass rest total n (assoc_set key a allocation) (remaining - a)
  end.

(** The strata with room left,
    [(key, len(items) - allocation[key])], largest room first. *)
Fixpoint spare_of (strata : list (stratum * list row))
    (allocation : list (stratum * Z)) : option (list (stratum * Z)) :=
  match strata with
  | [] => Some []
  | (key, items) :: rest =>
      match assoc_get key allocation, spare_of rest allocation with
      | Some a, Some sp =>
          if (a <? Zlen items)%Z then Some ((key, Zlen items - a)%Z :: sp) else Some sp
      | _, _ => None
      end
  end.

(** The [while remaining > 0 and spare] loop; [None] when [fuel] rounds
    do not finish it (or on the [KeyError] of an unknown stratum). *)
Fixpoint redistribute (fuel : nat) (allocation : list (stratum * Z))
    (remaining : Z) (spare : list (stratum * Z)) (idx : nat)
    : option (list (stratum * Z) * Z) :=
  match fuel with
  | O => None
  | S fuel' =>
      if (0 <? remaining)%Z && negb (List.length spare =? 0) then
        let i := idx mod List.length spare in
        match nth_error spare i with
        | Some (key, avail) =>
            if (0 <? avail)%Z then
              match assoc_get key allocation with
              | Some a =>
                  redistribute fuel' (assoc_set key (a + 1)%Z allocation)
                    (remaining - 1) (set_nth i (key, (avail - 1)%Z) spare) (S idx)
              | None => None
              end
            else redistribute fuel' allocation remaining spare (S idx)
        | None => None
        end
      else Some (allocation, remaining)
  end.

(** The allocation of the quota [n] over the strata, after both passes. *)
Definition allocate (fuel : nat) (strata : list (stratum * list row))
    (total n : Z) : option (list (stratum * Z)) :=
  let (allocation, remaining) := first_pass strata total n [] n in
  if (0 <? remaining)%Z then
    match spare_of strata allocation with
    | Some spare =>
        option_map fst
          (redistribute fuel allocation remaining (sort_desc snd spare) 0)
    | None => None
    end
  else Some allocation.

Section Sampler.
Variable G : generator.

(** The draw of [allocation.get(key, 0)] records from every stratum. *)
Fixpoint draw (strata : list (stratum * list row))
    (allocation : list (stratum * Z)) (sampled : list row) (st : rng_state G)
    : option (list row * rng_state G) :=
  match strata with
  | [] => Some (sampled, st)
  | (key, items) :: rest =>
      let k := match assoc_get key allocation with Some a => a | None => 0%Z end in
      if (k <=? 0)%Z then draw rest allocation sampled st
      else if (k <? Zlen items)%Z then
        match random_sample G items (Z.to_nat k) st with
        | Some (chosen, st1) => draw rest allocation (sampled ++ chosen) st1
        | None => None
        end
      else draw rest allocation (sampled ++ items) st
  end.

(** [stratified_sample(rows, n, seed, code_field, source_field,
    lang_field)]; [None] when the redistribution does not finish
    within [fuel] rounds, or on an exception. *)
Definition stratified_sample (fuel : nat) (rows : list row) (n : Z) (seed : Z)
    (code_field : string) (source_field lang_field : option string)
    : option (list row) :=
  let st := rng_seed G seed in
  let strata := build_strata rows code_field source_field lang_field in
  let total := Zlen rows in
  match allocate fuel strata total n with
  | None => None
  | Some allocation =>
      match draw strata allocation [] st with
      | None => None
      | Some (sampled, st1) =>
          let filled :=
            if (Zlen sampled <? n)%Z then
              let pool := filter (fun r => negb (row_in r sampled)) rows in
              match random_sample G pool
                      (Z.to_nat (Z.min (n - Zlen sampled) (Zlen pool))) st1 with
              | Some (extra, st2) => Some (sampled ++ extra, st2)
              | None => None
              end
            else Some (sampled, st1) in
          match filled with
          | None => None
          | Some (sampled, st2) =>
              Some (slice_to n (fst (random_shuffle G sampled st2)))
          end
      end
  end.
End Sampler.

(* ================================================================== *)
(** * The resumable full sweep *)
(* ================================================================== *)

(** The judgements file: [None] when the path does not exist, else its
    lines.  A Python [set] is a list read up to membership. *)

Section Resume.
Variable json_loads : string -> option json.

(** The body of [for line in f] of
    [load_processed_ids_from_judgements]. *)
Fixpoint scan_lines (lines : list string) (processed_ids : list json) : list json :=
  match lines with
  | [] => processed_ids
  | line :: rest =>
      let line := strip line in
      if String.eqb line "" then scan_lines rest processed_ids
      else
        match json_loads line with
        | Some (JDict data) =>
            let item_id := get_or_null "item_id" data in
            if truthy item_id then
              if hashable item_id
              then scan_lines rest (item_id :: processed_ids)
              else scan_lines rest processed_ids
            else scan_lines rest processed_ids
        | Some _ => scan_lines rest processed_ids
        | None => scan_lines rest processed_ids
        end
  end.

Definition load_processed_ids_from_judgements (path : option (list string))
    : list json :=
  match path with
  | None => []
  | Some lines => scan_lines lines []
  end.
End Resume.

(** [item_id in processed_ids] for a string *)
Definition id_in (item_id : string) (processed_ids : list json) : bool :=
  existsb (fun v => match v with JStr s => String.eqb s item_id | _ => false end)
          processed_ids.

(** A judge request: item id, code, replica index and temperature. *)
Definition job : Type := (string * string * Z * pyfloat)%type.

(** [asdict(r)] *)
Definition asdict (r : ItemResult) : list (string * json) :=
  let j := judgement r in
  [ ("item_id", JStr (item_id r));
    ("replica", JInt (replica r));
    ("decision", JStr (decision j));
    ("labels", JList (map JStr (labels j)));
    ("arkts_score", JFloat (arkts_score j));
    ("quality_score", JFloat (quality_score j));
    ("confidence", JFloat (confidence j));
    ("rationale", JStr (rationale j));
    ("model", JStr (model r));
    ("temperature", JFloat (temperature r));
    ("prompt_tokens", prompt_tokens r);
    ("completion_tokens", completion_tokens r);
    ("total_tokens", total_tokens r);
    ("raw_response", raw_response r) ].

(** The record as the JSON object it was read from. *)
Definition row_json (r : row) : list (string * json) :=
  map (fun kv => (fst kv, JStr (snd kv))) r.

(** [l[i:i + size]] for [i] in [range(0, len(l), size)] *)
Fixpoint batches_of {A : Type} (fuel size : nat) (l : list A) : list (list A) :=
  match fuel, l with
  | _, [] => []
  | O, _ => []
  | S fuel', _ => firstn size l :: batches_of fuel' size (skipn size l)
  end.

(** [(x.item_id, x.replica)] compared as tuples *)
Definition result_key_lt (a b : ItemResult) : bool :=
  String.ltb (item_id a) (item_id b) ||
  (String.eqb (item_id a) (item_id b) && (replica a <? replica b)%Z).

(** The result of a sweep: the judgements file after it, the judge
    requests it submitted, the results it collected and the rows it
    appended to the file, in order. *)
Record sweep : Type := mkSweep {
  judgements_file : option (list string);
  dispatched : list job;
  appended : list ItemResult;
  written : list json
}.

Definition file_lines (f : option (list string)) : list string :=
  match f with Some lines => lines | None => [] end.

Section Orchestrator.
Variable repr_value : json -> string.
Variable float_of_str : string -> option pyfloat.
Variable json_loads : string -> option json.
Variable json_dumps : json -> string.
Variable PROMPT_TEMPLATE : string.
Variable call_chat_completion : string -> string -> pyfloat -> json.
(** [hashlib.sha1(s.encode("utf-8")).hexdigest()] *)
Variable sha1_text : string -> string.
(** [str(e)] of the exception a worker raised *)
Variable exception_text : string.

(** [r.get("id") or sha1_text(code)] *)
Definition item_id_of (code_field : string) (r : row) : string :=
  let code := field_or_empty code_field r in
  match dict_get "id" r with
  | Some i => if String.eqb i "" then sha1_text code else i
  | None => sha1_text code
  end.

(** [temps[min(rep, len(temps)-1)]] *)
Definition temp_for (temps : list pyfloat) (rep : nat) : pyfloat :=
  nth (Nat.min rep (List.length temps - 1)) temps (Fin 0).

(** The jobs of one record: one per replica. *)
Definition jobs_of_row (code_field : string) (replicas : nat)
    (temps : list pyfloat) (r : row) : list job :=
  let code := field_or_empty code_field r in
  let item_id := item_id_of code_field r in
  map (fun rep => (item_id, code, Z.of_nat (rep + 1), temp_for temps rep))
      (seq 0 replicas).

Definition item_map_of (code_field : string) (batch : list row)
    : list (string * row) :=
  fold_left (fun m r => dict_set (item_id_of code_field r) r m) batch [].

(** The result collected for one future. *)
Definition collect (model : string) (j : job) : ItemResult :=
  let '(item_id, code, replica, t) := j in
  match run_one_judgement repr_value float_of_str json_loads json_dumps
          PROMPT_TEMPLATE call_chat_completion item_id code model t replica with
  | Returns res => res
  | Raises =>
      mkItemResult "UNKNOWN" 0
        (mkJudgement "KEEP_WITH_TAG" ["EXEC_ERROR"] (Fin 3) (Fin 3) (Fin (1 # 5))
           (str_take 200 exception_text))
        model (Fin 0) JNull JNull JNull JNull
  end.

(** [{**original_item, **asdict(r)}] *)
Definition merged_row (item_map : list (string * row)) (r : ItemResult) : json :=
  let original_item :=
    match dict_get (item_id r) item_map with Some o => row_json o | None => [] end in
  JDict (dict_merge original_item (asdict r)).

(** One batch: its jobs, its sorted results and the rows it appends.
    The results are collected in the order of submission. *)
Definition process_batch (model code_field : string) (replicas : nat)
    (temps : list pyfloat) (batch : list row)
    : list job * list ItemResult * list json :=
  let jobs := flat_map (jobs_of_row code_field replicas temps) batch in
  let item_map := item_map_of code_field batch in
  let batch_results := sort_by result_key_lt (map (collect model) jobs) in
  (jobs, batch_results, map (merged_row item_map) batch_results).

(** [write_jsonl(path, rows, append=True)] *)
Definition write_jsonl_append (path : option (list string)) (rows : list json)
    : option (list string) :=
  Some (file_lines path ++ map json_dumps rows).

Fixpoint process_batches (model code_field : string) (replicas : nat)
    (temps : list pyfloat) (batches : list (list row)) (acc : sweep) : sweep :=
  match batches with
  | [] => acc
  | batch :: rest =>
      let '(jobs, results, replica_rows) :=
        process_batch model code_field replicas temps batch in
      process_batches model code_field replicas temps rest
        (mkSweep (write_jsonl_append (judgements_file acc) replica_rows)
                 (dispatched acc ++ jobs)
                 (appended acc ++ results)
                 (written acc ++ replica_rows))
  end.

(** [process_full_data]: [rows] is what [read_jsonl(input_path)] gives,
    [path] the judgements file of the output directory.  [Raises] is the
    [SystemExit] of an empty input or the [ValueError] of a zero batch
    size.  The summary written at the end reads the judgements file and
    leaves it as it is; it is not part of the model. *)
Definition process_full_data (rows : list row) (path : option (list string))
    (replicas : nat) (model : string) (temps : list pyfloat)
    (code_field : string) (batch_size : nat) : outcome sweep :=
  let temps := match temps with [] => [Fin (1 # 10); Fin (3 # 10)] | _ => temps end in
  let processed_ids := load_processed_ids_from_judgements json_loads path in
  match rows with
  | [] => Raises
  | _ =>
      let remaining_rows :=
        filter (fun r => negb (id_in (item_id_of code_field r) processed_ids)) rows in
      match remaining_rows with
      | [] => Returns (mkSweep path [] [] [])
      | _ =>
          match batch_size with
          | O => Raises
          | _ =>
              Returns
                (process_batches model code_field replicas temps
                   (batches_of (List.length remaining_rows) batch_size remaining_rows)
                   (mkSweep path [] [] []))
          end
      end
  end.
End Orchestrator.

(* ================================================================== *)
(** * Reference instances of the library functions *)
(* ================================================================== *)

(** What follows stands for the interpreter's own functions when the
    model is run on an example.  The theorems are proved for every
    instance. *)

(** A literal with ['] read as the double quote. *)
Definition dq_char (c : ascii) : ascii :=
  if Ascii.eqb c "'"%char then ascii_of_nat 34 else c.

Fixpoint dq (s : string) : string :=
  match s with
  | EmptyString => EmptyString
  | String c r => String (dq_char c) (dq r)
  end.

Definition quote_char : ascii := ascii_of_nat 34.
Definition backslash : ascii := ascii_of_nat 92.

Definition is_digit (c : ascii) : bool :=
  let n := nat_of_ascii c in (48 <=? n) && (n <=? 57).

Definition digit_val (c : ascii) : Z := Z.of_nat (nat_of_ascii c - 48).

Fixpoint read_digits (acc : Z) (count : nat) (s : string) : Z * nat * string :=
  match s with
  | EmptyString => (acc, count, s)
  | String c r =>
      if is_digit c then read_digits (acc * 10 + digit_val c)%Z (S count) r
      else (acc, count, s)
  end.

(** [m * 10 ^ e] as a reduced rational *)
Definition scale10 (m e : Z) : Q :=
  if (0 <=? e)%Z then Qred (inject_Z (m * 10 ^ e))
  else Qred (Qmake m (Z.to_pos (10 ^ (- e)))).

(** [e] or [E], a sign, digits: the exponent and what follows it. *)
Definition read_exponent (s : string) : option (Z * string) :=
  match s with
  | String c r =>
      if Ascii.eqb c "e"%char || Ascii.eqb c "E"%char then
        let '(neg, r1) :=
          match r with
          | String "-"%char r' => (true, r')
          | String "+"%char r' => (false, r')
          | _ => (false, r)
          end in
        let '(e, n, r2) := read_digits 0 0 r1 in
        if n =? 0 then None else Some (if neg then (- e)%Z else e, r2)
      else None
  | EmptyString => None
  end.

(** ** [float(s)] *)

Definition float_of_str_ref (s : string) : option pyfloat :=
  let s := strip s in
  let '(neg, body) :=
    match s with
    | String "-"%char r => (true, r)
    | String "+"%char r => (false, r)
    | _ => (false, s)
    end in
  let word := upper body in
  if String.eqb word "NAN" then Some NaN
  else if String.eqb word "INF" || String.eqb word "INFINITY"
  then Some (if neg then NegInf else PosInf)
  else
    let '(ip, ni, r1) := read_digits 0 0 body in
    let '(m, nf, r2) :=
      match r1 with
      | String "."%char r' => let '(m, nf, r'') := read_digits ip 0 r' in (m, nf, r'')
      | _ => (ip, 0, r1)
      end in
    if (ni + nf =? 0) then None
    else
      let '(e, r3) :=
        match read_exponent r2 with
        | Some (e, r') => (e, r')
        | None => (0%Z, r2)
        end in
      if String.eqb r3 "" then
        Some (Fin (scale10 (if neg then (- m)%Z else m) (e - Z.of_nat nf)))
      else None.

(** ** [json.loads] *)

Definition is_json_ws (c : ascii) : bool :=
  let n := nat_of_ascii c in (n =? 32) || (n =? 9) || (n =? 10) || (n =? 13).

Fixpoint skip_ws (s : string) : string :=
  match s with
  | EmptyString => EmptyString
  | String c r => if is_json_ws c then skip_ws r else s
  end.

Fixpoint strip_prefix (p s : string) : option string :=
  match p, s with
  | EmptyString, _ => Some s
  | String a p', String b s' => if Ascii.eqb a b then strip_prefix p' s' else None
  | _, _ => None
  end.

Definition hex_val (c : ascii) : option nat :=
  let n := nat_of_ascii c in
  if (48 <=? n) && (n <=? 57) then Some (n - 48)
  else if (97 <=? n) && (n <=? 102) then Some (n - 87)
  else if (65 <=? n) && (n <=? 70) then Some (n - 55)
  else None.

(** The UTF-8 bytes of a code point of the basic plane. *)
Definition utf8 (cp : nat) : string :=
  if cp <? 128 then String (ascii_of_nat cp) EmptyString
  else if cp <? 2048 then
    String (ascii_of_nat (192 + cp / 64))
      (String (ascii_of_nat (128 + cp mod 64)) EmptyString)
  else
    String (ascii_of_nat (224 + cp / 4096))
      (String (ascii_of_nat (128 + (cp / 64) mod 64))
         (String (ascii_of_nat (128 + cp mod 64)) EmptyString)).

(** The text of a string literal after its opening quote, and the rest. *)
Fixpoint read_string (s : string) : option (string * string) :=
  match s with
  | EmptyString => None
  | String c r =>
      if Ascii.eqb c quote_char then Some (EmptyString, r)
      else if Ascii.eqb c backslash then
        match r with
        | String e r2 =>
            let plain (x : nat) :=
              match read_string r2 with
              | Some (t, rest) => Some (String (ascii_of_nat x) t, rest)
              | None => None
              end in
            if Ascii.eqb e quote_char then plain 34
            else if Ascii.eqb e backslash then plain 92
            else if Ascii.eqb e "/"%char then plain 47
            else if Ascii.eqb e "b"%char then plain 8
            else if Ascii.eqb e "f"%char then plain 12
            else if Ascii.eqb e "n"%char then plain 10
            else if Ascii.eqb e "r"%char then plain 13
            else if Ascii.eqb e "t"%char then plain 9
            else if Ascii.eqb e "u"%char then
              match r2 with
              | String h1 (String h2 (String h3 (String h4 r6))) =>
                  match hex_val h1, hex_val h2, hex_val h3, hex_val h4, read_string r6 with
                  | Some a, Some b, Some c', Some d, Some (t, rest) =>
                      Some ((utf8 (((a * 16 + b) * 16 + c') * 16 + d) ++ t)%string, rest)
                  | _, _, _, _, _ => None
                  end
              | _ => None
              end
            else None
        | EmptyString => None
        end
      else if nat_of_ascii c <? 32 then None
      else
        match read_string r with
        | Some (t, rest) => Some (String c t, rest)
        | None => None
        end
  end.

(** A number: a sign, an integer part without leading zero, then a
    fraction and an exponent if there are any. *)
Definition read_number (s : string) : option (json * string) :=
  let '(neg, body) :=
    match s with
    | String "-"%char r => (true, r)
    | _ => (false, s)
    end in
  let int_part :=
    match body with
    | String "0"%char r => Some (0%Z, r)
    | _ => let '(ip, n, r) := read_digits 0 0 body in
           if n =? 0 then None else Some (ip, r)
    end in
  match int_part with
  | None => None
  | Some (ip, r1) =>
      let '(m, nf, r2) :=
        match r1 with
        | String "."%char r' =>
            let '(m, nf, r'') := read_digits ip 0 r' in
            if nf =? 0 then (ip, 0, r1) else (m, nf, r'')
        | _ => (ip, 0, r1)
        end in
      let signed (z : Z) := if neg then (- z)%Z else z in
      match read_exponent r2 with
      | Some (e, r3) => Some (JFloat (Fin (scale10 (signed m) (e - Z.of_nat nf))), r3)
      | None =>
          if nf =? 0 then Some (JInt (signed ip), r2)
          else Some (JFloat (Fin (scale10 (signed m) (- Z.of_nat nf))), r2)
      end
  end.

Definition read_literal (s : string) : option (json * string) :=
  match strip_prefix "true" s with
  | Some r => Some (JBool true, r)
  | None =>
  match strip_prefix "false" s with
  | Some r => Some (JBool false, r)
  | None =>
  match strip_prefix "null" s with
  | Some r => Some (JNull, r)
  | None =>
  match strip_prefix "NaN" s with
  | Some r => Some (JFloat NaN, r)
  | None =>
  match strip_prefix "Infinity" s with
  | Some r => Some (JFloat PosInf, r)
  | None =>
  match strip_prefix "-Infinity" s with
  | Some r => Some (JFloat NegInf, r)
  | None => read_number s
  end end end end end end.

Fixpoint read_value (fuel : nat) (s : string) : option (json * string) :=
  match fuel with
  | O => None
  | S f =>
      match skip_ws s with
      | EmptyString => None
      | String c r as t =>
          if Ascii.eqb c quote_char then
            match read_string r with
            | Some (x, rest) => Some (JStr x, rest)
            | None => None
            end
          else if Ascii.eqb c "["%char then
            match skip_ws r with
            | String "]"%char rest => Some (JList [], rest)
            | _ => read_elements f r []
            end
          else if Ascii.eqb c brace_open then
            match skip_ws r with
            | String "}"%char rest => Some (JDict [], rest)
            | _ => read_members f r []
            end
          else read_literal t
      end
  end
with read_elements (fuel : nat) (s : string) (acc : list json) : option (json * string) :=
  match fuel with
  | O => None
  | S f =>
      match read_value f s with
      | Some (v, r) =>
          match skip_ws r with
          | String ","%char rest => read_elements f rest (acc ++ [v])
          | String "]"%char rest => Some (JList (acc ++ [v]), rest)
          | _ => None
          end
      | None => None
      end
  end
with read_members (fuel : nat) (s : string) (acc : list (string * json))
    : option (json * string) :=
  match fuel with
  | O => None
  | S f =>
      match skip_ws s with
      | String c r =>
          if Ascii.eqb c quote_char then
            match read_string r with
            | Some (k, r1) =>
                match skip_ws r1 with
                | String ":"%char r2 =>
                    match read_value f r2 with
                    | Some (v, r3) =>
                        match skip_ws r3 with
                        | String ","%char rest => read_members f rest (dict_set k v acc)
                        | String "}"%char rest => Some (JDict (dict_set k v acc), rest)
                        | _ => None
                        end
                    | None => None
                    end
                | _ => None
                end
            | None => None
            end
          else None
      | EmptyString => None
      end
  end.

Definition json_loads_ref (s : string) : option json :=
  match read_value (2 * String.length s + 4) s with
  | Some (v, rest) => if String.eqb (skip_ws rest) "" then Some v else None
  | None => None
  end.

(** ** [json.dumps] and [repr] *)

Definition hex_digit (n : nat) : ascii :=
  if n <? 10 then ascii_of_nat (48 + n) else ascii_of_nat (87 + n).

Definition escape_char (c : ascii) : string :=
  let n := nat_of_ascii c in
  if n =? 34 then String backslash (String quote_char EmptyString)
  else if n =? 92 then String backslash (String backslash EmptyString)
  else if n =? 10 then String backslash "n"
  else if n =? 13 then String backslash "r"
  else if n =? 9 then String backslash "t"
  else if n =? 8 then String backslash "b"
  else if n =? 12 then String backslash "f"
  else if n <? 32 then
    String backslash
      ("u00" ++ String (hex_digit (n / 16)) (String (hex_digit (n mod 16)) EmptyString))
  else String c EmptyString.

Fixpoint escape (s : string) : string :=
  match s with
  | EmptyString => EmptyString
  | String c r => escape_char c ++ escape r
  end.

Definition quoted (s : string) : string :=
  String quote_char (escape s ++ String quote_char EmptyString).

(** The digits of [r / d] after the point, at most [k] of them. *)
Fixpoint fraction_digits (k : nat) (r d : Z) : string :=
  match k with
  | O => EmptyString
  | S k' =>
      if (r =? 0)%Z then EmptyString
      else string_of_Z (r * 10 / d) ++ fraction_digits k' ((r * 10) mod d) d
  end.

(** The decimal text of a rational: exact when it has at most 17 digits
    after the point, cut there otherwise. *)
Definition decimal_of_Q (q : Q) : string :=
  let n := Qnum q in
  let d := Zpos (Qden q) in
  let a := Z.abs n in
  let frac := fraction_digits 17 (a mod d) d in
  (if (n <? 0)%Z then "-" else "") ++ string_of_Z (a / d) ++ "." ++
  (if String.eqb frac "" then "0" else frac).

Definition float_text (inf nan : string) (f : pyfloat) : string :=
  match f with
  | Fin q => decimal_of_Q q
  | PosInf => inf
  | NegInf => "-" ++ inf
  | NaN => nan
  end.

Fixpoint json_dumps_ref (v : json) : string :=
  match v with
  | JNull => "null"
  | JBool true => "true"
  | JBool false => "false"
  | JInt z => string_of_Z z
  | JFloat f => float_text "Infinity" "NaN" f
  | JStr s => quoted s
  | JList l => "[" ++ join ", " (map json_dumps_ref l) ++ "]"
  | JDict d =>
      "{" ++ join ", " (map (fun kv => let '(k, x) := kv in
                                      (quoted k ++ ": " ++ json_dumps_ref x)%string) d) ++ "}"
  end.

Fixpoint repr_ref (v : json) : string :=
  match v with
  | JNull => "None"
  | JBool true => "True"
  | JBool false => "False"
  | JInt z => string_of_Z z
  | JFloat f => float_text "inf" "nan" f
  | JStr s => "'" ++ s ++ "'"
  | JList l => "[" ++ join ", " (map repr_ref l) ++ "]"
  | JDict d =>
      "{" ++ join ", " (map (fun kv => let '(k, x) := kv in
                                      ("'" ++ k ++ "': " ++ repr_ref x)%string) d) ++ "}"
  end.

(** ** SHA-1 *)

Definition mask32 (x : N) : N := N.land x 4294967295%N.

Definition rotl32 (k : N) (x : N) : N :=
  mask32 (N.lor (N.shiftl x k) (N.shiftr x (32 - k))).

Definition bytes_of_string (s : string) : list N :=
  map N_of_ascii (list_ascii_of_string s).

(** The big-endian bytes of [x], [k] of them. *)
Fixpoint be_bytes (k : nat) (x : N) : list N :=
  match k with
  | O => []
  | S k' => N.land (N.shiftr x (8 * N.of_nat k')) 255%N :: be_bytes k' x
  end.

Definition sha1_pad (msg : list N) : list N :=
  let len := List.length msg in
  let zeros := (64 - (len + 9) mod 64) mod 64 in
  msg ++ [128%N] ++ repeat 0%N zeros ++ be_bytes 8 (8 * N.of_nat len).

Fixpoint be_words (fuel : nat) (bytes : list N) : list N :=
  match fuel, bytes with
  | S f, a :: b :: c :: d :: rest =>
      (N.shiftl a 24 + N.shiftl b 16 + N.shiftl c 8 + d)%N :: be_words f rest
  | _, _ => []
  end.

(** The schedule, latest word first: [w] holds [w[i-1], w[i-2], ...]. *)
Fixpoint sha1_schedule (k : nat) (w : list N) : list N :=
  match k with
  | O => w
  | S k' =>
      let x := N.lxor (N.lxor (nth 2 w 0%N) (nth 7 w 0%N))
                      (N.lxor (nth 13 w 0%N) (nth 15 w 0%N)) in
      sha1_schedule k' (rotl32 1 x :: w)
  end.

Definition sha1_round (i : nat) (st : N * N * N * N * N) (wi : N) : N * N * N * N * N :=
  let '(a, b, c, d, e) := st in
  let '(f, k) :=
    if i <? 20 then
      (N.lor (N.land b c) (N.land (N.lxor b 4294967295%N) d), 1518500249%N)
    else if i <? 40 then (N.lxor (N.lxor b c) d, 1859775393%N)
    else if i <? 60 then
      (N.lor (N.lor (N.land b c) (N.land b d)) (N.land c d), 2400959708%N)
    else (N.lxor (N.lxor b c) d, 3395469782%N) in
  let temp := mask32 (rotl32 5 a + f + e + k + wi)%N in
  (temp, a, rotl32 30 b, c, d).

Fixpoint sha1_rounds (i : nat) (ws : list N) (st : N * N * N * N * N)
    : N * N * N * N * N :=
  match ws with
  | [] => st
  | wi :: rest => sha1_rounds (S i) rest (sha1_round i st wi)
  end.

Definition sha1_chunk (h : N * N * N * N * N) (chunk : list N) : N * N * N * N * N :=
  let w := rev (sha1_schedule 64 (rev (be_words 16 chunk))) in
  let '(a, b, c, d, e) := sha1_rounds 0 w h in
  let '(h0, h1, h2, h3, h4) := h in
  (mask32 (h0 + a), mask32 (h1 + b), mask32 (h2 + c), mask32 (h3 + d), mask32 (h4 + e))%N.

Fixpoint sha1_chunks (fuel : nat) (h : N * N * N * N * N) (bytes : list N)
    : N * N * N * N * N :=
  match fuel, bytes with
  | S f, _ :: _ => sha1_chunks f (sha1_chunk h (firstn 64 bytes)) (skipn 64 bytes)
  | _, _ => h
  end.

Fixpoint hex_of (k : nat) (x : N) : string :=
  match k with
  | O => EmptyString
  | S k' =>
      String (hex_digit (N.to_nat (N.land (N.shiftr x (4 * N.of_nat k')) 15%N)))
             (hex_of k' x)
  end.

(** [hashlib.sha1(s.encode("utf-8")).hexdigest()] *)
Definition sha1_text_ref (s : string) : string :=
  let bytes := sha1_pad (bytes_of_string s) in
  let '(h0, h1, h2, h3, h4) :=
    sha1_chunks (List.length bytes)
      (1732584193%N, 4023233417%N, 2562383102%N, 271733878%N, 3285377520%N) bytes in
  (hex_of 8 h0 ++ hex_of 8 h1 ++ hex_of 8 h2 ++ hex_of 8 h3 ++ hex_of 8 h4)%string.

(** ** A generator *)

(** A linear congruential generator stands for the Mersenne Twister. *)
Definition lcg_next (st : Z) : Z := ((st * 1103515245 + 12345) mod 2147483648)%Z.

Definition lcg : generator :=
  mkGenerator Z (fun seed => Z.abs seed)
    (fun st n => (Z.to_nat (lcg_next st / 65536) mod n, lcg_next st)).

(** ** Judges *)

(** The template, with the instructions to the judge cut. *)
Definition PROMPT_TEMPLATE_ref : string :=
  "Judge the code. ---CODE-BEGIN--- {code} ---CODE-END---".

Definition reply_with (content usage : json) : json :=
  JDict [("choices", JList [JDict [("message", JDict [("content", content)])]]);
         ("usage", usage)].

Definition usage_ref : json :=
  JDict [("prompt_tokens", JInt 120); ("completion_tokens", JInt 40);
         ("total_tokens", JInt 160)].

(** A judge that keeps everything. *)
Definition judge_keep (prompt model : string) (temperature : pyfloat) : json :=
  reply_with
    (JStr (dq "{'decision': 'KEEP', 'labels': [], 'arkts_score': 4, 'quality_score': 4, 'confidence': 0.9, 'rationale': 'idiomatic'}"))
    usage_ref.



(** ** A sweep with the reference instances *)

Definition corpus_two : list row :=
  [ [("text", "let x = 1"); ("repo", "alpha")];
    [("id", "b"); ("text", "let y = 2"); ("repo", "beta")] ].


Definition sweep_ref (judge : string -> string -> pyfloat -> json)
    (rows : list row) (path : option (list string)) (replicas : nat)
    : outcome sweep :=
  process_full_data repr_ref float_of_str_ref json_loads_ref json_dumps_ref
    PROMPT_TEMPLATE_ref judge sha1_text_ref "worker failed"
    rows path replicas "judge-model" [] "text" 1.

Definition sweep_or_empty (o : outcome sweep) : sweep :=
  match o with
  | Returns sw => sw
  | Raises => mkSweep None [] [] []
  end.

(** The first sweep of [corpus_two], two replicas, on a fresh directory. *)
Definition first_sweep : sweep := sweep_or_empty (sweep_ref judge_keep corpus_two None 2).

(* ================================================================== *)
(** * Predicates and examples of the properties *)
(* ================================================================== *)

(** The [labels] entry of an object is a list, null or not there. *)
Definition labels_listlike (d : list (string * json)) : Prop :=
  match dict_get "labels" d with
  | None | Some JNull | Some (JList _) => True
  | Some _ => False
  end.

Section ValidationSpec.
Variable repr_value : json -> string.
Variable float_of_str : string -> option pyfloat.

(** The decision of [obj] canonicalizes to one of the three values and
    its labels are list-like. *)
Definition acceptable (obj : json) : Prop :=
  exists d dv,
    obj = JDict d /\ dict_get "decision" d = Some dv /\
    In (upper (strip (py_str repr_value dv))) DECISIONS /\
    labels_listlike d.

(** What a validated judgement owes to the object it comes from. *)
Definition validated_from (obj : json) (j : Judgement) : Prop :=
  exists d dv,
    obj = JDict d /\ dict_get "decision" d = Some dv /\
    decision j = upper (strip (py_str repr_value dv)) /\
    (exists a, py_float float_of_str
                 (match dict_get "arkts_score" d with Some v => v | None => JInt 0 end)
               = Some a /\ arkts_score j = clamp 5 a) /\
    (exists q, py_float float_of_str
                 (match dict_get "quality_score" d with Some v => v | None => JInt 0 end)
               = Some q /\ quality_score j = clamp 5 q) /\
    (exists c, py_float float_of_str
                 (match dict_get "confidence" d with Some v => v | None => JInt 0 end)
               = Some c /\ confidence j = clamp 1 c) /\
    rationale j =
      str_take 400
        (py_str repr_value
           (match dict_get "rationale" d with Some v => v | None => JStr "" end)).

End ValidationSpec.

Definition votes_from (ds : list string) (acc : list (string * nat)) : list (string * nat) :=
  fold_left (fun vote d => bump d vote) ds acc.

Definition rank (severity : list (string * Z)) (d : string) : Z :=
  match dict_get d severity with Some r => r | None => 0%Z end.

(** A decision is tied for the most votes among the replicas. *)
Definition tied (js : list Judgement) (d : string) : Prop :=
  In d (map decision js) /\
  forall d', count_occ string_dec (map decision js) d'
             <= count_occ string_dec (map decision js) d.

(** Agreement of two judgements in everything but the rationale. *)
Definition same_verdict (a b : Judgement) : Prop :=
  decision a = decision b /\ labels a = labels b /\
  flt_eq (arkts_score a) (arkts_score b) /\
  flt_eq (quality_score a) (quality_score b) /\
  flt_eq (confidence a) (confidence b).


Definition replica_clear : Judgement :=
  mkJudgement "KEEP" [] (Fin 4) (Fin 3) (Fin 1) "clear".


Section FallbackSpec.
Variable repr_value : json -> string.
Variable float_of_str : string -> option pyfloat.
Variable json_loads : string -> option json.


End FallbackSpec.



Definition zsum (l : list Z) : Z := fold_right Z.add 0%Z l.

Definition alloc_sum (allocation : list (stratum * Z)) : Z := zsum (map snd allocation).

Definition sizes (strata : list (stratum * list row)) : Z :=
  zsum (map (fun s => Zlen (snd s)) strata).

Definition keys_of {V : Type} (d : list (stratum * V)) : list stratum := map fst d.

(** The room of a stratum. *)
Definition cap (strata : list (stratum * list row)) (k : stratum) : Z :=
  match assoc_get k strata with Some items => Zlen items | None => 0%Z end.

(** What the first pass gives a stratum. *)
Definition alloc0 (total n : Z) (items : list row) : Z :=
  Z.min (proportional_floor (Zlen items) total n) (Zlen items).

Definition first_alloc (total n : Z) (strata : list (stratum * list row))
    : list (stratum * Z) :=
  map (fun s => (fst s, alloc0 total n (snd s))) strata.

(** The spare list the loop starts from, before it is sorted. *)
Definition spare0 (total n : Z) (strata : list (stratum * list row))
    : list (stratum * Z) :=
  flat_map (fun s =>
              if (alloc0 total n (snd s) <? Zlen (snd s))%Z
              then [(fst s, (Zlen (snd s) - alloc0 total n (snd s))%Z)] else [])
           strata.

Section LoopSpec.
Variable room : stratum -> Z.

(** What the loop keeps: the spare of a stratum never exceeds its room,
    and every allocation stays between one and the room. *)
Definition loop_inv (allocation spare : list (stratum * Z)) : Prop :=
  NoDup (map fst spare) /\
  (forall k av, In (k, av) spare ->
                (0 <= av)%Z /\
                exists a, assoc_get k allocation = Some a /\ (a + av <= room k)%Z) /\
  (forall k a, assoc_get k allocation = Some a -> (1 <= a <= room k)%Z).

End LoopSpec.

Definition sample_fuel (rows : list row) (n : Z) : nat :=
  Z.to_nat n * (2 * List.length rows) + 1.

Definition lookup (allocation : list (stratum * Z)) (k : stratum) : Z :=
  match assoc_get k allocation with Some a => a | None => 0%Z end.

Definition corpus_three_sources : list row :=
  [ [("id", "a"); ("text", "let a = 1"); ("repo", "alpha")];
    [("id", "b"); ("text", "let b = 2"); ("repo", "beta")];
    [("id", "c"); ("text", "let c = 3"); ("repo", "gamma")] ].

Definition corpus_two_buckets : list row :=
  [ [("id", "a"); ("text", "let a = 1"); ("repo", "alpha")];
    [("id", "b"); ("text", "let b = 2"); ("repo", "alpha")];
    [("id", "c"); ("text", "let c = 3"); ("repo", "alpha")];
    [("id", "d"); ("text", "let d = 4"); ("repo", "beta")] ].

Section ResumeSpec.
Variable json_loads : string -> option json.


End ResumeSpec.


Definition job_key (j : job) : string * Z :=
  let '(iid, _, rep, _) := j in (iid, rep).

Definition result_key (r : ItemResult) : string * Z := (item_id r, replica r).

Section SweepSpec.
Variable repr_value : json -> string.
Variable float_of_str : string -> option pyfloat.
Variable json_loads : string -> option json.
Variable json_dumps : json -> string.
Variable PROMPT_TEMPLATE : string.
Variable call_chat_completion : string -> string -> pyfloat -> json.

(** No request raises: every reply of the judge is one that
    [run_one_judgement] turns into a result. *)
Definition no_raise : Prop :=
  forall iid code model t rep,
    run_one_judgement repr_value float_of_str json_loads json_dumps
      PROMPT_TEMPLATE call_chat_completion iid code model t rep <> Raises.


End SweepSpec.

(** A written row is the merge of some original record with a result. *)
Definition merged_of (m : json) (r : ItemResult) : Prop :=
  exists orig, m = JDict (dict_merge orig (asdict r)).

(* ================================================================== *)
(** * Files of JSON lines, the HTTP client and the sampled round *)
(* ================================================================== *)

(** ** [read_jsonl], [write_jsonl] and [write_csv] *)

Section JsonLines.
Variable json_loads : string -> option json.
Variable json_dumps : json -> string.



(** [write_jsonl(path, rows, append)]: one line per row, after the lines
    the file has when appending, in place of them otherwise. *)
Definition write_jsonl (path : option (list string)) (rows : list json)
    (append : bool) : option (list string) :=
  Some ((if append then file_lines path else []) ++ map json_dumps rows).
End JsonLines.

(** A CSV file as [csv.DictWriter] fills it: the header and one record
    per row, a cell being the value under the column's key. *)
Definition csv_table : Type := (list string * list (list json))%type.

(** [write_csv(path, rows)]: nothing is written for an empty [rows]. *)
Definition write_csv (path : option csv_table) (rows : list (list (string * json)))
    : option csv_table :=
  match rows with
  | [] => path
  | _ =>
      let keys := sorted_set (flat_map (map fst) rows) in
      Some (keys, map (fun r => map (fun k => get_or_null k r) keys) rows)
  end.

(** ** [call_chat_completion] *)

Section Client.
Variable json_loads : string -> option json.
(** [_http_post(url, headers, payload, timeout)] for the payload built
    from the prompt, the model and the temperature: the status and the
    body of the reply. *)
Variable http_post : string -> string -> pyfloat -> Z * string.

Definition call_chat_completion (prompt model : string) (temperature : pyfloat)
    : json :=
  let (status, text) := http_post prompt model temperature in
  if negb (status =? 200)%Z then
    JDict [("error", JStr ("HTTP " ++ string_of_Z status)); ("raw", JStr text)]
  else
    match json_loads text with
    | Some data => data
    | None => JDict [("error", JStr "Invalid JSON from API"); ("raw", JStr text)]
    end.
End Client.

(** ** [run_round] *)

(** [by_item.setdefault(r.item_id, []).append(r)] over the results *)
Definition group_by_item (results : list ItemResult)
    : list (string * list ItemResult) :=
  fold_left
    (fun by_item r =>
       dict_set (item_id r)
         (match dict_get (item_id r) by_item with Some lst => lst | None => [] end
          ++ [r])
         by_item)
    results [].

(** [raw.get(f) if f else None] *)
Definition optional_get (f : option string) (raw : row) : json :=
  match f with
  | Some name =>
      if String.eqb name "" then JNull
      else match dict_get name raw with Some v => JStr v | None => JNull end
  | None => JNull
  end.

(** [counts[r["final_decision"]] += 1] over the final rows; [None] is
    the [KeyError] of a decision that [counts] does not hold. *)
Fixpoint count_decisions (final_rows : list (list (string * json)))
    (counts : list (string * Z)) : option (list (string * Z)) :=
  match final_rows with
  | [] => Some counts
  | r :: rest =>
      match dict_get "final_decision" r with
      | Some (JStr d) =>
          match dict_get d counts with
          | Some c => count_decisions rest (dict_set d (c + 1)%Z counts)
          | None => None
          end
      | _ => None
      end
  end.

Section Summary.
(** [round(x, 3)] *)
Variable round_ndigits : pyfloat -> pyfloat.
Variables (code_field : string) (source_field lang_field : option string).
Variable item_map : list (string * row).

(** The row of the summary table for one item and its results; [None]
    is the exception [consensus] raises. *)
Definition final_row (entry : string * list ItemResult)
    : option (list (string * json)) :=
  let (item_id, lst) := entry in
  match consensus (map judgement lst) with
  | None => None
  | Some J =>
      let raw := match dict_get item_id item_map with Some r => r | None => [] end in
      Some [ ("item_id", JStr item_id);
             ("final_decision", JStr (decision J));
             ("final_labels", JList (map JStr (labels J)));
             ("final_arkts_score", JFloat (round_ndigits (arkts_score J)));
             ("final_quality_score", JFloat (round_ndigits (quality_score J)));
             ("final_confidence", JFloat (round_ndigits (confidence J)));
             ("rationale_sample", JStr (rationale J));
             ("replicas", JInt (Zlen lst));
             ("source", optional_get source_field raw);
             ("lang", optional_get lang_field raw);
             ("len_chars",
              JInt (Z.of_nat (String.length (field_or_empty code_field raw)))) ]
  end.

(** [for item_id, lst in by_item.items(): final_rows.append(...)] *)
Fixpoint final_rows_of (by_item : list (string * list ItemResult))
    : option (list (list (string * json))) :=
  match by_item with
  | [] => Some []
  | entry :: rest =>
      match final_row entry with
      | None => None
      | Some r =>
          match final_rows_of rest with
          | Some rs => Some (r :: rs)
          | None => None
          end
      end
  end.
End Summary.

(** What a round leaves: the sample and its file, the judge requests,
    the results in the order of completion, the judgements file, the
    summary table with its rows, and the counts printed at the end. *)
Record round : Type := mkRound {
  round_sampled : list row;
  round_sampled_file : option (list string);
  round_dispatched : list job;
  round_results : list ItemResult;
  round_judgements_file : option (list string);
  round_final_rows : list (list (string * json));
  round_summary : option csv_table;
  round_counts : list (string * Z)
}.

Section Round.
Variable repr_value : json -> string.
Variable float_of_str : string -> option pyfloat.
Variable json_loads : string -> option json.
Variable json_dumps : json -> string.
Variable PROMPT_TEMPLATE : string.
Variable judge : string -> string -> pyfloat -> json.
Variable sha1_text : string -> string.
Variable exception_text : string.
Variable round_ndigits : pyfloat -> pyfloat.
Variable G : generator.
(** [as_completed(futs)]: the submitted requests in the order in which
    they complete. *)
Variable as_completed : list job -> list job.

(** [run_round]: [rows] is what [read_jsonl(input_path)] gives; the
    files are those of the fresh round directory.  [None] is the
    [SystemExit] of an empty input, an exception of the sampler, of
    [consensus] or of the final count, or a sampler out of [fuel]. *)
Definition run_round (fuel : nat) (rows : list row) (n : Z) (replicas : nat)
    (model : string) (temps : list pyfloat) (code_field : string)
    (source_field lang_field : option string) (seed : Z) : option round :=
  let temps := match temps with [] => [Fin (1 # 10); Fin (3 # 10)] | _ => temps end in
  match rows with
  | [] => None
  | _ =>
      match stratified_sample G fuel rows n seed code_field source_field lang_field with
      | None => None
      | Some sampled =>
          let sampled_file :=
            write_jsonl json_dumps None (map (fun r => JDict (row_json r)) sampled) false in
          let jobs := flat_map (jobs_of_row sha1_text code_field replicas temps) sampled in
          let item_map := item_map_of sha1_text code_field sampled in
          let results :=
            map (collect repr_value float_of_str json_loads json_dumps
                   PROMPT_TEMPLATE judge exception_text model)
                (as_completed jobs) in
          let by_item := group_by_item results in
          match final_rows_of round_ndigits code_field source_field lang_field
                  item_map by_item with
          | None => None
          | Some final_rows =>
              let replica_rows := map (merged_row item_map) results in
              let judgements_file := write_jsonl json_dumps None replica_rows false in
              let summary := write_csv None final_rows in
              match count_decisions final_rows
                      [("KEEP", 0%Z); ("KEEP_WITH_TAG", 0%Z); ("REMOVE", 0%Z)] with
              | None => None
              | Some counts =>
                  Some (mkRound sampled sampled_file jobs results judgements_file
                          final_rows summary counts)
              end
          end
      end
  end.
End Round.

(* ================================================================== *)
(** * Predicates and examples of the further properties *)
(* ================================================================== *)

Section CodecSpec.
Variable json_loads : string -> option json.
Variable json_dumps : json -> string.

End CodecSpec.



(** The text holds no backtick. *)
Fixpoint tick_free (s : string) : bool :=
  match s with
  | EmptyString => true
  | String c r => negb (is_tick c) && tick_free r
  end.

(** A judgement that validation leaves as it is: a decision of the three,
    scores and confidence that the clamps do not move, a rationale of at
    most 400 characters. *)
Definition canonical (j : Judgement) : Prop :=
  In (decision j) DECISIONS /\
  clamp 5 (arkts_score j) = arkts_score j /\
  clamp 5 (quality_score j) = quality_score j /\
  clamp 1 (confidence j) = confidence j /\
  str_take 400 (rationale j) = rationale j.

Definition fenced_reply : string :=
  dq "json {'decision': 'remove', 'labels': ['SYNTAX_ERROR'], 'arkts_score': 1} ".

(** An endpoint that is down: every request gets the status 503. *)
Definition http_unavailable (prompt model : string) (temperature : pyfloat)
    : Z * string :=
  (503%Z, "Service Unavailable").

(** The results recorded for one item. *)
Definition results_of (id : string) (results : list ItemResult) : list ItemResult :=
  filter (fun r => String.eqb (item_id r) id) results.

(** A round with the reference instances: requests complete in the
    order given by [order], scores are left unrounded. *)
Definition round_ref (judge : string -> string -> pyfloat -> json)
    (order : list job -> list job) (rows : list row) (n : Z) (replicas : nat)
    : option round :=
  run_round repr_ref float_of_str_ref json_loads_ref json_dumps_ref
    PROMPT_TEMPLATE_ref judge sha1_text_ref "worker failed" (fun x => x) lcg order
    25 rows n replicas "judge-model" [] "text" (Some "repo") None 42.

Definition round_or_empty (o : option round) : round :=
  match o with
  | Some rd => rd
  | None => mkRound [] None [] [] None [] None []
  end.

(** A round of three records out of [corpus_two_buckets], two replicas,
    requests completing in the order of submission. *)
Definition keep_round : round :=
  round_or_empty (round_ref judge_keep (fun l => l) corpus_two_buckets 3 2).

(** [s.find(needle)]: the index of the first occurrence. *)
Fixpoint str_find (needle s : string) : option nat :=
  if String.prefix needle s then Some 0
  else match s with
       | EmptyString => None
       | String _ r => option_map S (str_find needle r)
       end.

(** [s[k:]] *)
Fixpoint str_drop (k : nat) (s : string) : string :=
  match k, s with
  | S k', String _ r => str_drop k' r
  | _, _ => s
  end.

(* ================================================================== *)
(** * Facts about the Python values *)
(* ================================================================== *)

Lemma str_take_length (k : nat) (s : string) : String.length (str_take k s) <= k.
Proof.
  revert s; induction k as [|k IH]; intros [|c r]; simpl; try lia.
  specialize (IH r); lia.
Qed.

Arguments str_take : simpl never.

Lemma str_in_In (s : string) (l : list string) : str_in s l = true <-> In s l.
Proof.
  unfold str_in; rewrite existsb_exists; split.
  - intros [x [Hx He]]. apply String.eqb_eq in He. now subst.
  - intros H. exists s. split; [assumption | apply String.eqb_refl].
Qed.

Lemma flt_lt_Fin (x y : Q) :
  flt_lt (Fin x) (Fin y) = true <-> (x < y)%Q.
Proof.
  simpl. destruct (Qlt_le_dec x y) as [H|H]; split; intro K; auto; try discriminate.
  exfalso. apply (Qlt_not_le _ _ K H).
Qed.

Lemma flt_lt_Fin_false (x y : Q) :
  flt_lt (Fin x) (Fin y) = false <-> (y <= x)%Q.
Proof.
  simpl. destruct (Qlt_le_dec x y) as [H|H]; split; intro K; auto; try discriminate.
  exfalso. apply (Qlt_not_le _ _ H K).
Qed.

(** Whatever [float] yields, NaN and the infinities included, the clamp
    lands in the range. *)
Lemma clamp_between (hi : Q) (x : pyfloat) :
  (0 <= hi)%Q -> flt_between 0 hi (clamp hi x).
Proof.
  intros Hhi. unfold clamp, py_min.
  assert (Hcase : forall y, (y = Fin hi \/ exists q, y = Fin q /\ (q < hi)%Q) \/ y = NegInf ->
                            flt_between 0 hi (py_max (Fin 0) y)).
  { intros y [[->|[q [-> Hq]]]| ->]; unfold py_max.
    - destruct (flt_lt (Fin 0) (Fin hi)) eqn:E; simpl; split;
        auto using Qle_refl.
    - destruct (flt_lt (Fin 0) (Fin q)) eqn:E.
      + apply flt_lt_Fin in E. simpl; split; auto using Qlt_le_weak.
      + simpl; split; auto using Qle_refl.
    - simpl; split; auto using Qle_refl. }
  destruct x as [q| | |].
  - destruct (flt_lt (Fin q) (Fin hi)) eqn:E.
    + apply flt_lt_Fin in E. apply Hcase. left; right; eauto.
    + apply Hcase. left; left; reflexivity.
  - apply Hcase. left; left; reflexivity.
  - apply Hcase. right; reflexivity.
  - apply Hcase. left; left; reflexivity.
Qed.

(** A value already in range passes the clamp unchanged. *)
Lemma clamp_in_range (hi q : Q) :
  (0 <= q)%Q -> (q <= hi)%Q -> flt_eq (clamp hi (Fin q)) (Fin q).
Proof.
  intros H0 Hhi. unfold clamp, py_min, py_max.
  destruct (flt_lt (Fin q) (Fin hi)) eqn:E1.
  - destruct (flt_lt (Fin 0) (Fin q)) eqn:E2; simpl.
    + reflexivity.
    + apply flt_lt_Fin_false in E2. apply Qle_antisym; assumption.
  - apply flt_lt_Fin_false in E1.
    assert (Hq : (q == hi)%Q) by (apply Qle_antisym; assumption).
    destruct (flt_lt (Fin 0) (Fin hi)) eqn:E2; simpl.
    + symmetry; assumption.
    + apply flt_lt_Fin_false in E2.
      apply Qle_antisym; [assumption | apply Qle_trans with hi; assumption].
Qed.

(* ================================================================== *)
(** * Validation *)
(* ================================================================== *)

Section ValidationFacts.
Variable repr_value : json -> string.
Variable float_of_str : string -> option pyfloat.

Lemma validate_judgement_inv (obj : json) (j : Judgement) :
  validate_judgement repr_value float_of_str obj = Some j ->
  acceptable repr_value obj /\ validated_from repr_value float_of_str obj j.
Proof.
  unfold validate_judgement.
  destruct obj as [| | | | |l|d]; try discriminate.
  destruct (dict_get "decision" d) as [dv|] eqn:Hdec; [|discriminate].
  destruct (str_in _ DECISIONS) eqn:Hin; [|discriminate].
  apply str_in_In in Hin.
  intros H.
  assert (Hlab : labels_listlike d /\
                 exists a q c,
                   py_float float_of_str
                     (match dict_get "arkts_score" d with Some v => v | None => JInt 0 end) = Some a /\
                   py_float float_of_str
                     (match dict_get "quality_score" d with Some v => v | None => JInt 0 end) = Some q /\
                   py_float float_of_str
                     (match dict_get "confidence" d with Some v => v | None => JInt 0 end) = Some c /\
                   decision j = upper (strip (py_str repr_value dv)) /\
                   arkts_score j = clamp 5 a /\ quality_score j = clamp 5 q /\
                   confidence j = clamp 1 c /\
                   rationale j = str_take 400
                     (py_str repr_value
                        (match dict_get "rationale" d with Some v => v | None => JStr "" end))).
  { unfold labels_listlike.
    destruct (dict_get "labels" d) as [[| | | | |ls|dd]|]; try discriminate;
      (destruct (py_float float_of_str
                   (match dict_get "arkts_score" d with Some v => v | None => JInt 0 end))
         as [a|]; [|discriminate]);
      (destruct (py_float float_of_str
                   (match dict_get "quality_score" d with Some v => v | None => JInt 0 end))
         as [q|]; [|discriminate]);
      (destruct (py_float float_of_str
                   (match dict_get "confidence" d with Some v => v | None => JInt 0 end))
         as [c|]; [|discriminate]);
      injection H as <-; simpl; (split; [exact I|]);
      exists a, q, c; repeat split; reflexivity. }
  destruct Hlab as [Hl [a [q [c [Ha [Hq [Hc [Hd [Ea [Eq' [Ec Er]]]]]]]]]]].
  split.
  - exists d, dv. repeat split; auto.
  - exists d, dv. repeat split; eauto.
Qed.

Lemma validate_judgement_bounds (obj : json) (j : Judgement) :
  validate_judgement repr_value float_of_str obj = Some j ->
  In (decision j) DECISIONS /\
  flt_between 0 5 (arkts_score j) /\ flt_between 0 5 (quality_score j) /\
  flt_between 0 1 (confidence j) /\ String.length (rationale j) <= 400.
Proof.
  intros H. apply validate_judgement_inv in H.
  destruct H as [[d [dv [-> [Hd [Hin _]]]]] [d' [dv' [E [Hd' [Hdec [[a [_ Ha]] [[q [_ Hq]] [[c [_ Hc]] Hr]]]]]]]]].
  injection E as <-. rewrite Hd in Hd'. injection Hd' as <-.
  rewrite Hdec, Ha, Hq, Hc, Hr.
  split; [assumption|].
  split; [apply clamp_between; discriminate|].
  split; [apply clamp_between; discriminate|].
  split; [apply clamp_between; discriminate|].
  apply str_take_length.
Qed.
End ValidationFacts.

(* ================================================================== *)
(** * Dictionaries and sorting *)
(* ================================================================== *)

Section DictFacts.
Context {V : Type}.
Implicit Types (d : list (string * V)) (k : string) (v : V).

Lemma dict_get_set_eq k v d : dict_get k (dict_set k v d) = Some v.
Proof.
  induction d as [|[k' v'] d IH]; simpl.
  - now rewrite String.eqb_refl.
  - destruct (String.eqb k k') eqn:E; simpl; rewrite E; auto.
Qed.

Lemma dict_get_set_neq k k' v d :
  k <> k' -> dict_get k (dict_set k' v d) = dict_get k d.
Proof.
  intros Hne. induction d as [|[k0 v0] d IH]; simpl.
  - apply String.eqb_neq in Hne. now rewrite Hne.
  - destruct (String.eqb k' k0) eqn:E; simpl.
    + apply String.eqb_eq in E. subst k0.
      apply String.eqb_neq in Hne. now rewrite Hne.
    + rewrite IH. reflexivity.
Qed.

Lemma dict_get_In k v d : dict_get k d = Some v -> In (k, v) d.
Proof.
  induction d as [|[k' v'] d IH]; simpl; [discriminate|].
  destruct (String.eqb k k') eqn:E.
  - apply String.eqb_eq in E. intros [= ->]. subst. now left.
  - intros H. right. auto.
Qed.

Lemma dict_get_None k d : dict_get k d = None <-> ~ In k (map fst d).
Proof.
  induction d as [|[k' v'] d IH]; simpl.
  - tauto.
  - destruct (String.eqb k k') eqn:E.
    + apply String.eqb_eq in E. subst. split; [discriminate | tauto].
    + apply String.eqb_neq in E. rewrite IH. split; intros H; [intros [K|K]|];
        try tauto. congruence.
Qed.

Lemma In_dict_get k v d : NoDup (map fst d) -> In (k, v) d -> dict_get k d = Some v.
Proof.
  induction d as [|[k' v'] d IH]; simpl; [tauto|].
  intros Hnd [H|H].
  - injection H as -> ->. now rewrite String.eqb_refl.
  - inversion Hnd as [|? ? Hnin Hnd']; subst.
    destruct (String.eqb k k') eqn:E.
    + apply String.eqb_eq in E. subst. exfalso. apply Hnin.
      apply (in_map fst) in H. exact H.
    + auto.
Qed.

Lemma dict_set_keys k v d :
  map fst (dict_set k v d) =
  if dict_has k d then map fst d else map fst d ++ [k].
Proof.
  unfold dict_has. induction d as [|[k' v'] d IH]; simpl; [reflexivity|].
  destruct (String.eqb k k') eqn:E; simpl; [reflexivity|].
  rewrite IH. destruct (dict_get k d); reflexivity.
Qed.

Lemma dict_set_NoDup k v d : NoDup (map fst d) -> NoDup (map fst (dict_set k v d)).
Proof.
  intros H. rewrite dict_set_keys. unfold dict_has.
  destruct (dict_get k d) eqn:E; [assumption|].
  apply dict_get_None in E.
  apply NoDup_rev in H. rewrite <- (rev_involutive (map fst d ++ [k])).
  apply NoDup_rev. rewrite rev_app_distr. simpl. constructor; [|assumption].
  now rewrite <- in_rev.
Qed.

Lemma NoDup_keys_NoDup d : NoDup (map fst d) -> NoDup d.
Proof. apply NoDup_map_inv. Qed.
End DictFacts.

(** ** The insertion sort *)

Section SortFacts.
Context {A : Type}.
Variable lt : A -> A -> bool.

Lemma insert_sorted_perm (x : A) (l : list A) :
  Permutation (x :: l) (insert_sorted lt x l).
Proof.
  induction l as [|y r IH]; simpl; [reflexivity|].
  destruct (lt y x); [|reflexivity].
  rewrite perm_swap. now constructor.
Qed.

Lemma sort_by_perm (l : list A) : Permutation l (sort_by lt l).
Proof.
  induction l as [|x l IH]; simpl; [reflexivity|].
  rewrite <- insert_sorted_perm. now constructor.
Qed.

Lemma sort_by_length (l : list A) : List.length (sort_by lt l) = List.length l.
Proof. symmetry. apply Permutation_length, sort_by_perm. Qed.

Lemma sort_by_In (x : A) (l : list A) : In x (sort_by lt l) <-> In x l.
Proof.
  split; apply Permutation_in; [symmetry|]; apply sort_by_perm.
Qed.

Hypothesis lt_trans : forall a b c, lt a b = true -> lt b c = true -> lt a c = true.

Lemma insert_sorted_sorted (x : A) (l : list A) :
  (forall y, In y l -> lt y x = false -> lt x y = true) ->
  StronglySorted (fun a b => lt a b = true) l ->
  StronglySorted (fun a b => lt a b = true) (insert_sorted lt x l).
Proof.
  intros Htot Hs. induction Hs as [|y r Hs IH Hall]; simpl.
  - constructor; constructor.
  - destruct (lt y x) eqn:E.
    + constructor.
      * apply IH. intros z Hz. apply Htot. now right.
      * rewrite Forall_forall in *. intros z Hz.
        apply (Permutation_in _ (Permutation_sym (insert_sorted_perm x r))) in Hz.
        destruct Hz as [<-|Hz]; auto.
    + assert (Hxy : lt x y = true) by (apply Htot; [now left | assumption]).
      constructor; [constructor; assumption|].
      constructor; [assumption|].
      rewrite Forall_forall in *. intros z Hz. apply lt_trans with y; auto.
Qed.

(** On pairwise comparable elements the sort yields a strictly sorted
    list. *)
Lemma sort_by_sorted (l : list A) :
  NoDup l ->
  (forall a b, In a l -> In b l -> a <> b -> lt a b = true \/ lt b a = true) ->
  StronglySorted (fun a b => lt a b = true) (sort_by lt l).
Proof.
  induction l as [|x l IH]; intros Hnd Htot; simpl; [constructor|].
  inversion Hnd as [|? ? Hnin Hnd']; subst.
  apply insert_sorted_sorted.
  - intros y Hy Hf. apply (proj1 (sort_by_In _ _)) in Hy.
    assert (Hne : x <> y) by (intros ->; contradiction).
    destruct (Htot x y (or_introl eq_refl) (or_intror Hy) Hne) as [H|H];
      [assumption | congruence].
  - apply IH; [assumption|]. intros a b Ha Hb. apply Htot; now right.
Qed.

Hypothesis lt_irrefl : forall a, lt a a = false.

(** Two strictly sorted lists with the same elements are the same. *)
Lemma sorted_perm_eq (l1 l2 : list A) :
  StronglySorted (fun a b => lt a b = true) l1 ->
  StronglySorted (fun a b => lt a b = true) l2 ->
  Permutation l1 l2 -> l1 = l2.
Proof.
  intros H1. revert l2. induction H1 as [|x r Hs IH Hall]; intros l2 H2 Hp.
  - apply Permutation_nil in Hp. now subst.
  - destruct H2 as [|y r2 Hs2 Hall2].
    + symmetry in Hp. apply Permutation_nil in Hp. discriminate.
    + assert (Hxy : x = y).
      { rewrite Forall_forall in Hall, Hall2.
        assert (Hx : In x (y :: r2)) by (apply (Permutation_in _ Hp); now left).
        assert (Hy : In y (x :: r))
          by (apply (Permutation_in _ (Permutation_sym Hp)); now left).
        destruct Hx as [->|Hx]; [reflexivity|].
        destruct Hy as [->|Hy]; [reflexivity|].
        pose proof (lt_trans _ _ _ (Hall _ Hy) (Hall2 _ Hx)) as K.
        rewrite lt_irrefl in K. discriminate. }
      subst y. f_equal. apply IH; [assumption|].
      now apply Permutation_cons_inv in Hp.
Qed.

(** The sort depends on the elements only, not on their order. *)
Lemma sort_by_perm_eq (l l' : list A) :
  NoDup l ->
  (forall a b, In a l -> In b l -> a <> b -> lt a b = true \/ lt b a = true) ->
  Permutation l l' -> sort_by lt l = sort_by lt l'.
Proof.
  intros Hnd Htot Hp. apply sorted_perm_eq.
  - now apply sort_by_sorted.
  - apply sort_by_sorted.
    + now apply (Permutation_NoDup Hp).
    + intros a b Ha Hb. apply Htot; apply (Permutation_in _ (Permutation_sym Hp));
        assumption.
  - rewrite <- !sort_by_perm. assumption.
Qed.
End SortFacts.

(** ** The order of strings *)

Lemma ascii_compare_trans (a b c : ascii) :
  Ascii.compare a b = Lt -> Ascii.compare b c = Lt -> Ascii.compare a c = Lt.
Proof.
  unfold Ascii.compare. rewrite !N.compare_lt_iff. apply N.lt_trans.
Qed.

Lemma string_compare_trans (a b c : string) :
  String.compare a b = Lt -> String.compare b c = Lt -> String.compare a c = Lt.
Proof.
  revert b c. induction a as [|x a IH]; intros [|y b] [|z c]; simpl;
    try discriminate; auto.
  destruct (Ascii.compare x y) eqn:Exy; try discriminate;
    destruct (Ascii.compare y z) eqn:Eyz; try discriminate; intros H1 H2.
  - apply Ascii.compare_eq_iff in Exy, Eyz. subst.
    assert (E : Ascii.compare z z = Eq)
      by (unfold Ascii.compare; apply N.compare_refl).
    rewrite E. eauto.
  - apply Ascii.compare_eq_iff in Exy. subst. now rewrite Eyz.
  - apply Ascii.compare_eq_iff in Eyz. subst. now rewrite Exy.
  - now rewrite (ascii_compare_trans _ _ _ Exy Eyz).
Qed.

Lemma ltb_trans (a b c : string) :
  String.ltb a b = true -> String.ltb b c = true -> String.ltb a c = true.
Proof.
  unfold String.ltb.
  destruct (String.compare a b) eqn:E1; try discriminate.
  destruct (String.compare b c) eqn:E2; try discriminate.
  now rewrite (string_compare_trans _ _ _ E1 E2).
Qed.

Lemma ltb_irrefl (a : string) : String.ltb a a = false.
Proof.
  unfold String.ltb.
  pose proof (String.compare_antisym a a) as H.
  destruct (String.compare a a); simpl in H; try discriminate; reflexivity.
Qed.

Lemma ltb_total (a b : string) :
  a <> b -> String.ltb a b = true \/ String.ltb b a = true.
Proof.
  intros Hne. unfold String.ltb. rewrite (String.compare_antisym b a).
  destruct (String.compare a b) eqn:E; simpl; auto.
  apply String.compare_eq_iff in E. contradiction.
Qed.

(** The sorted set of labels depends on the labels only, not on the
    order in which the replicas bring them. *)
Lemma sorted_set_perm (l l' : list string) :
  Permutation l l' -> sorted_set l = sorted_set l'.
Proof.
  intros Hp. unfold sorted_set, sorted_str.
  apply sort_by_perm_eq.
  - apply ltb_trans.
  - apply ltb_irrefl.
  - apply NoDup_nodup.
  - intros a b _ _. apply ltb_total.
  - apply NoDup_Permutation; try apply NoDup_nodup.
    intros x. rewrite !nodup_In. split; apply Permutation_in; [|symmetry]; assumption.
Qed.

Lemma sorted_set_In (x : string) (l : list string) : In x (sorted_set l) <-> In x l.
Proof.
  unfold sorted_set, sorted_str. rewrite sort_by_In. apply nodup_In.
Qed.

Lemma sorted_set_sorted (l : list string) :
  StronglySorted (fun a b => String.ltb a b = true) (sorted_set l).
Proof.
  unfold sorted_set, sorted_str. apply sort_by_sorted.
  - apply ltb_trans.
  - apply NoDup_nodup.
  - intros a b _ _. apply ltb_total.
Qed.

(* ================================================================== *)
(** * The vote *)
(* ================================================================== *)

Lemma count_votes_votes_from (js : list Judgement) :
  count_votes js = votes_from (map decision js) [].
Proof.
  unfold count_votes, votes_from. generalize (@nil (string * nat)).
  induction js as [|j js IH]; intros acc; simpl; auto.
Qed.

Lemma bump_get (d d' : string) (vote : list (string * nat)) :
  dict_get d (bump d' vote) =
  if String.eqb d d'
  then Some (match dict_get d' vote with Some c => c | None => 0 end + 1)
  else dict_get d vote.
Proof.
  unfold bump. destruct (String.eqb d d') eqn:E.
  - apply String.eqb_eq in E. subst. apply dict_get_set_eq.
  - apply String.eqb_neq in E. now apply dict_get_set_neq.
Qed.

Lemma votes_get (ds : list string) :
  forall acc d,
    dict_get d (votes_from ds acc) =
    match dict_get d acc with
    | Some c => Some (c + count_occ string_dec ds d)
    | None => match count_occ string_dec ds d with O => None | n => Some n end
    end.
Proof.
  unfold votes_from.
  induction ds as [|x ds IH]; intros acc d; simpl.
  - destruct (dict_get d acc); [f_equal; lia | reflexivity].
  - rewrite IH, bump_get.
    destruct (string_dec x d) as [->|Hne].
    + rewrite String.eqb_refl.
      destruct (dict_get d acc); f_equal; lia.
    + assert (E : String.eqb d x = false) by (apply String.eqb_neq; congruence).
      rewrite E. reflexivity.
Qed.

Lemma votes_NoDup (ds : list string) :
  forall acc, NoDup (map fst acc) -> NoDup (map fst (votes_from ds acc)).
Proof.
  induction ds as [|x ds IH]; intros acc H; simpl; [assumption|].
  apply IH. unfold bump. now apply dict_set_NoDup.
Qed.

Lemma votes_In (ds : list string) (d : string) (c : nat) :
  In (d, c) (votes_from ds []) <-> c = count_occ string_dec ds d /\ c <> 0.
Proof.
  assert (Hnd : NoDup (map fst (votes_from ds []))) by (apply votes_NoDup; constructor).
  split.
  - intros H. apply (In_dict_get _ _ _ Hnd) in H. rewrite votes_get in H. simpl in H.
    destruct (count_occ string_dec ds d); [discriminate|]. injection H as <-. split; lia.
  - intros [-> Hc]. apply dict_get_In. rewrite votes_get. simpl.
    destruct (count_occ string_dec ds d); [contradiction | reflexivity].
Qed.

Lemma votes_perm (ds ds' : list string) :
  Permutation ds ds' -> Permutation (votes_from ds []) (votes_from ds' []).
Proof.
  intros Hp. apply NoDup_Permutation.
  - apply NoDup_keys_NoDup, votes_NoDup. constructor.
  - apply NoDup_keys_NoDup, votes_NoDup. constructor.
  - intros [d c]. rewrite !votes_In.
    rewrite (Permutation_count_occ string_dec ds ds') in Hp. now rewrite Hp.
Qed.

Lemma fold_max_perm (l l' : list nat) :
  Permutation l l' -> fold_right Nat.max 0 l = fold_right Nat.max 0 l'.
Proof.
  induction 1; simpl; lia.
Qed.

Lemma fold_max_In (l : list nat) : l <> [] -> In (fold_right Nat.max 0 l) l.
Proof.
  induction l as [|x l IH]; [congruence|]. intros _. simpl.
  destruct l as [|y l].
  - left. simpl. lia.
  - destruct (Nat.max_spec x (fold_right Nat.max 0 (y :: l))) as [[_ E]|[_ E]];
      rewrite E; [right; apply IH; discriminate | now left].
Qed.

Lemma max_votes_perm (v v' : list (string * nat)) :
  Permutation v v' -> max_votes v = max_votes v'.
Proof.
  intros Hp. unfold max_votes. apply fold_max_perm. now apply Permutation_map.
Qed.

Lemma filter_perm {A : Type} (f : A -> bool) (l l' : list A) :
  Permutation l l' -> Permutation (filter f l) (filter f l').
Proof.
  induction 1 as [|x l l' Hp IH|x y l|l1 l2 l3 H1 IH1 H2 IH2]; simpl.
  - constructor.
  - destruct (f x); [now constructor | assumption].
  - destruct (f x), (f y); try reflexivity. apply perm_swap.
  - now transitivity (filter f l2).
Qed.

Lemma top_decisions_perm (v v' : list (string * nat)) :
  Permutation v v' -> Permutation (top_decisions v) (top_decisions v').
Proof.
  intros Hp. unfold top_decisions. rewrite (max_votes_perm _ _ Hp).
  apply Permutation_map. now apply filter_perm.
Qed.

Lemma NoDup_map_filter {A B : Type} (g : A -> B) (f : A -> bool) (l : list A) :
  NoDup (map g l) -> NoDup (map g (filter f l)).
Proof.
  induction l as [|x l IH]; simpl; [auto|]. intros H.
  inversion H as [|? ? Hnin Hnd]; subst.
  destruct (f x); simpl; auto. constructor; auto.
  intros K. apply Hnin. apply in_map_iff in K. destruct K as [y [E Hy]].
  apply filter_In in Hy. apply in_map_iff. exists y. tauto.
Qed.

Lemma top_decisions_NoDup (ds : list string) :
  NoDup (top_decisions (votes_from ds [])).
Proof.
  unfold top_decisions. apply NoDup_map_filter, votes_NoDup. constructor.
Qed.

Lemma top_decisions_In (ds : list string) (d : string) :
  In d (top_decisions (votes_from ds [])) -> In d ds.
Proof.
  unfold top_decisions. intros H. apply in_map_iff in H.
  destruct H as [[d' c] [E H]]. simpl in E. subst d'.
  apply filter_In in H. destruct H as [H _]. apply votes_In in H.
  destruct H as [-> Hc]. apply (count_occ_In string_dec). lia.
Qed.

Lemma top_decisions_nonempty (ds : list string) :
  ds <> [] -> top_decisions (votes_from ds []) <> [].
Proof.
  intros Hne.
  assert (Hv : votes_from ds [] <> []).
  { destruct ds as [|d ds]; [congruence|].
    intros E. pose proof (votes_get (d :: ds) [] d) as H. rewrite E in H.
    simpl in H. destruct (string_dec d d); [discriminate | congruence]. }
  assert (Hm : In (max_votes (votes_from ds [])) (map snd (votes_from ds []))).
  { apply fold_max_In. intros E. apply map_eq_nil in E. contradiction. }
  apply in_map_iff in Hm. destruct Hm as [[d c] [E Hin]]. simpl in E.
  unfold top_decisions. intros K.
  assert (Hf : In (d, c) (filter (fun dc => snd dc =? max_votes (votes_from ds []))
                            (votes_from ds []))).
  { apply filter_In. split; [assumption|]. simpl. apply Nat.eqb_eq. assumption. }
  apply (in_map fst) in Hf. rewrite K in Hf. destruct Hf.
Qed.

(** A decision is in the top exactly when no decision has more votes. *)
Lemma top_decisions_spec (ds : list string) (d : string) :
  In d (top_decisions (votes_from ds [])) <->
  In d ds /\ forall d', count_occ string_dec ds d' <= count_occ string_dec ds d.
Proof.
  assert (Hmax : forall d' c, In (d', c) (votes_from ds []) ->
                              c <= max_votes (votes_from ds [])).
  { unfold max_votes. intros d' c H. apply (in_map snd) in H. simpl in H.
    revert H. generalize (map snd (votes_from ds [])). intros l.
    induction l as [|x l IH]; simpl; [tauto|]. intros [->|H]; [lia|].
    specialize (IH H). lia. }
  split.
  - intros H. split; [now apply top_decisions_In|].
    unfold top_decisions in H. apply in_map_iff in H.
    destruct H as [[d0 c] [E H]]. simpl in E. subst d0.
    apply filter_In in H. destruct H as [Hin Hc]. simpl in Hc.
    apply Nat.eqb_eq in Hc. pose proof Hin as Hin'.
    apply votes_In in Hin. destruct Hin as [Ec _].
    intros d'. destruct (count_occ string_dec ds d') eqn:E'; [lia|].
    assert (K : In (d', S n) (votes_from ds [])) by (apply votes_In; split; lia).
    apply Hmax in K. lia.
  - intros [Hin Hall].
    assert (Hc : count_occ string_dec ds d <> 0)
      by (apply (count_occ_In string_dec) in Hin; lia).
    assert (Hv : In (d, count_occ string_dec ds d) (votes_from ds []))
      by (apply votes_In; split; auto).
    unfold top_decisions. apply in_map_iff. exists (d, count_occ string_dec ds d).
    split; [reflexivity|]. apply filter_In. split; [assumption|]. simpl.
    apply Nat.eqb_eq. apply Nat.le_antisymm; [now apply (Hmax d)|].
    assert (Hne : votes_from ds [] <> []) by (intros E; rewrite E in Hv; destruct Hv).
    assert (Hm : In (max_votes (votes_from ds [])) (map snd (votes_from ds []))).
    { apply fold_max_In. intros E. apply map_eq_nil in E. contradiction. }
    apply in_map_iff in Hm. destruct Hm as [[d' c'] [E Hin']]. simpl in E.
    apply votes_In in Hin'. destruct Hin' as [-> _]. rewrite <- E. apply Hall.
Qed.

(* ================================================================== *)
(** * The tie-break *)
(* ================================================================== *)

Lemma with_severity_map (severity : list (string * Z)) (top : list string) :
  (forall d, In d top -> dict_get d severity <> None) ->
  with_severity severity top = Some (map (fun d => (d, rank severity d)) top).
Proof.
  induction top as [|d top IH]; intros H; simpl; [reflexivity|].
  rewrite IH by (intros; apply H; now right).
  unfold rank. destruct (dict_get d severity) eqn:E; [reflexivity|].
  exfalso. apply (H d); [now left | assumption].
Qed.

Lemma with_severity_none (severity : list (string * Z)) (top : list string) (d : string) :
  In d top -> dict_get d severity = None -> with_severity severity top = None.
Proof.
  induction top as [|x top IH]; simpl; [tauto|].
  intros [->|H] E.
  - now rewrite E.
  - rewrite (IH H E). destruct (dict_get x severity); reflexivity.
Qed.

Lemma SEVERITY_cases (d : string) (r : Z) :
  dict_get d SEVERITY = Some r ->
  (d = "KEEP" /\ r = 0%Z) \/ (d = "KEEP_WITH_TAG" /\ r = 1%Z) \/ (d = "REMOVE" /\ r = 2%Z).
Proof.
  unfold SEVERITY. simpl.
  destruct (String.eqb d "KEEP") eqn:E1.
  { apply String.eqb_eq in E1. intros [= <-]. auto. }
  destruct (String.eqb d "KEEP_WITH_TAG") eqn:E2.
  { apply String.eqb_eq in E2. intros [= <-]. auto. }
  destruct (String.eqb d "REMOVE") eqn:E3.
  { apply String.eqb_eq in E3. intros [= <-]. auto. }
  discriminate.
Qed.

Lemma SEVERITY_inj (a b : string) (r : Z) :
  dict_get a SEVERITY = Some r -> dict_get b SEVERITY = Some r -> a = b.
Proof.
  intros Ha Hb. apply SEVERITY_cases in Ha, Hb.
  destruct Ha as [[-> ->]|[[-> ->]|[-> ->]]];
    destruct Hb as [[-> E]|[[-> E]|[-> E]]]; try reflexivity; discriminate.
Qed.

Lemma SEVERITY_valid (d : string) :
  In d DECISIONS <-> dict_get d SEVERITY <> None.
Proof.
  split.
  - intros [<-|[<-|[<-|[]]]]; discriminate.
  - intros H. destruct (dict_get d SEVERITY) as [r|] eqn:E; [|congruence].
    apply SEVERITY_cases in E. unfold DECISIONS. simpl. intuition.
Qed.

(** The head of a descending sort carries the largest key. *)
Lemma sort_desc_head {A : Type} (key : A -> Z) (l : list A) (h : A) (t : list A) :
  sort_desc key l = h :: t ->
  In h l /\ forall x, In x l -> (key x <= key h)%Z.
Proof.
  unfold sort_desc. revert h t. induction l as [|x l IH]; intros h t; simpl; [discriminate|].
  destruct (sort_by (fun a b => (key b <? key a)%Z) l) as [|y r] eqn:E; simpl.
  - intros [= <- <-].
    assert (l = []) as ->.
    { apply (f_equal (@List.length A)) in E. rewrite sort_by_length in E.
      destruct l; [reflexivity | discriminate]. }
    split; [now left|]. intros z [<-|[]]. lia.
  - destruct (IH y r eq_refl) as [Hy Hmax].
    destruct (key x <? key y)%Z eqn:C.
    + intros [= <- <-]. apply Z.ltb_lt in C. split; [now right|].
      intros z [<-|Hz]; [lia | auto].
    + intros [= <- <-]. apply Z.ltb_ge in C. split; [now left|].
      intros z [<-|Hz]; [lia|]. specialize (Hmax z Hz). lia.
Qed.

Lemma hd_rev_not_hd {A : Type} (l : list A) (a b : A) :
  NoDup l -> 2 <= List.length l ->
  hd_error l = Some a -> hd_error (rev l) = Some b -> a <> b.
Proof.
  destruct l as [|x l]; simpl; [discriminate|].
  intros Hnd Hlen [= ->] Hb.
  inversion Hnd as [|? ? Hnin _]; subst.
  destruct (rev l) as [|y r] eqn:E.
  - apply (f_equal (@List.length A)) in E. rewrite length_rev in E. simpl in *. lia.
  - simpl in Hb. injection Hb as ->.
    assert (In b l) by (apply in_rev; rewrite E; now left).
    congruence.
Qed.

Lemma perm_singleton_length {A : Type} (l l' : list A) :
  Permutation l l' -> List.length l = 1 -> l = l'.
Proof.
  intros Hp Hl. destruct l as [|x [|y l]]; try discriminate.
  now apply Permutation_length_1_inv in Hp.
Qed.

Lemma forallb_false_ex {A : Type} (f : A -> bool) (l : list A) :
  forallb f l = false -> exists x, In x l /\ f x = false.
Proof.
  induction l as [|x l IH]; simpl; [discriminate|].
  intros H. apply andb_false_iff in H. destruct H as [H|H].
  - exists x. auto.
  - destruct (IH H) as [y [Hy Ey]]. exists y. auto.
Qed.

Section TieBreakFacts.
Variable top : list string.
Hypothesis top_NoDup : NoDup top.
Hypothesis top_tied : 2 <= List.length top.

Let keyed := map (fun d => (d, rank SEVERITY d)) top.

Lemma keyed_guard_off (a b : Z) :
  (forall d, In d top -> dict_get d SEVERITY <> None) ->
  option_map snd (hd_error keyed) = Some a ->
  option_map snd (hd_error (rev keyed)) = Some b ->
  (a =? b)%Z = false.
Proof.
  intros Hval Ha Hb. subst keyed.
  rewrite <- map_rev in Hb.
  destruct (hd_error top) as [da|] eqn:Ea;
    [|destruct top; simpl in *; discriminate].
  destruct (hd_error (rev top)) as [db|] eqn:Eb;
    [|destruct (rev top); simpl in *; discriminate].
  assert (Hne : da <> db) by (eapply hd_rev_not_hd; eauto).
  assert (Ia : In da top) by (destruct top; simpl in *; [discriminate | injection Ea as ->; now left]).
  assert (Ib : In db top).
  { apply in_rev. destruct (rev top); simpl in *; [discriminate | injection Eb as ->; now left]. }
  assert (Ha' : a = rank SEVERITY da)
    by (destruct top; simpl in *; [discriminate | injection Ea as <-; congruence]).
  assert (Hb' : b = rank SEVERITY db)
    by (destruct (rev top); simpl in *; [discriminate | injection Eb as <-; congruence]).
  subst a b. apply Z.eqb_neq. intros E. apply Hne.
  unfold rank in E.
  destruct (dict_get da SEVERITY) as [ra|] eqn:Ra; [|exfalso; now apply (Hval da)].
  destruct (dict_get db SEVERITY) as [rb|] eqn:Rb; [|exfalso; now apply (Hval db)].
  subst rb. eapply SEVERITY_inj; eauto.
Qed.

(** With every tied decision in [SEVERITY], the tie-break returns the
    one of largest rank. *)
Lemma tie_break_max :
  (forall d, In d top -> In d DECISIONS) ->
  exists d, tie_break SEVERITY top = Some d /\ In d top /\
            forall d', In d' top -> (rank SEVERITY d' <= rank SEVERITY d)%Z.
Proof.
  intros Hval.
  assert (Hval' : forall d, In d top -> dict_get d SEVERITY <> None)
    by (intros d Hd; apply SEVERITY_valid; auto).
  unfold tie_break. rewrite (with_severity_map _ _ Hval'). fold keyed.
  destruct (sort_desc snd keyed) as [|[d r] t] eqn:Es.
  { apply (f_equal (@List.length _)) in Es. unfold sort_desc in Es.
    rewrite sort_by_length in Es. subst keyed. rewrite length_map in Es.
    simpl in Es. lia. }
  apply sort_desc_head in Es. destruct Es as [Hin Hmax].
  assert (Hd : In d top /\ r = rank SEVERITY d).
  { subst keyed. apply in_map_iff in Hin. destruct Hin as [x [[= <- <-] Hx]]. auto. }
  destruct Hd as [Hd ->].
  destruct (option_map snd (hd_error keyed)) as [a|] eqn:Ea;
    [|subst keyed; destruct top; simpl in *; [lia | discriminate]].
  destruct (option_map snd (hd_error (rev keyed))) as [b|] eqn:Eb.
  2:{ exfalso. destruct (rev keyed) eqn:E; [|discriminate].
      apply (f_equal (@List.length _)) in E. rewrite length_rev in E.
      subst keyed. rewrite length_map in E. simpl in E. lia. }
  rewrite (keyed_guard_off a b Hval' Ea Eb), andb_false_r.
  exists d. split; [reflexivity|]. split; [assumption|].
  intros d' Hd'. apply (Hmax (d', rank SEVERITY d')).
  subst keyed. apply in_map_iff. exists d'. auto.
Qed.

(** The tie-break reads the tied decisions as a set. *)
Lemma tie_break_perm (top' : list string) :
  Permutation top top' -> tie_break SEVERITY top = tie_break SEVERITY top'.
Proof.
  intros Hp.
  assert (Hnd' : NoDup top') by (eapply Permutation_NoDup; eauto).
  assert (Hlen : List.length top' = List.length top)
    by (symmetry; now apply Permutation_length).
  destruct (forallb (fun d => negb (match dict_get d SEVERITY with
                                    | Some _ => false | None => true end)) top) eqn:Hall.
  - assert (Hval : forall d, In d top -> dict_get d SEVERITY <> None).
    { rewrite forallb_forall in Hall. intros d Hd E. specialize (Hall d Hd).
      rewrite E in Hall. discriminate. }
    assert (Hval' : forall d, In d top' -> dict_get d SEVERITY <> None).
    { intros d Hd. apply Hval. eapply Permutation_in; [symmetry|]; eauto. }
    unfold tie_break.
    rewrite (with_severity_map _ _ Hval), (with_severity_map _ _ Hval').
    fold keyed. set (keyed' := map (fun d => (d, rank SEVERITY d)) top').
    assert (Hs : sort_desc snd keyed = sort_desc snd keyed').
    { unfold sort_desc. apply sort_by_perm_eq.
      - intros a b c H1 H2. apply Z.ltb_lt in H1, H2. apply Z.ltb_lt. lia.
      - intros a. apply Z.ltb_irrefl.
      - subst keyed. apply NoDup_keys_NoDup. rewrite map_map. simpl.
        now rewrite map_id.
      - intros [da ra] [db rb] Ha Hb Hne. subst keyed.
        apply in_map_iff in Ha, Hb.
        destruct Ha as [xa [[= <- <-] Ia]]. destruct Hb as [xb [[= <- <-] Ib]].
        simpl. rewrite !Z.ltb_lt.
        assert (K : rank SEVERITY xa <> rank SEVERITY xb).
        { unfold rank. intros E.
          destruct (dict_get xa SEVERITY) as [r1|] eqn:R1; [|exfalso; now apply (Hval xa)].
          destruct (dict_get xb SEVERITY) as [r2|] eqn:R2; [|exfalso; now apply (Hval xb)].
          subst r2. apply Hne.
          assert (xa = xb) as -> by (eapply SEVERITY_inj; eauto). reflexivity. }
        lia.
      - subst keyed keyed'. now apply Permutation_map. }
    rewrite <- Hs.
    destruct (sort_desc snd keyed) as [|[d r] t]; [reflexivity|].
    destruct (option_map snd (hd_error keyed)) as [a|] eqn:Ea;
      [|subst keyed; destruct top; simpl in *; [lia | discriminate]].
    destruct (option_map snd (hd_error (rev keyed))) as [b|] eqn:Eb.
    2:{ exfalso. destruct (rev keyed) eqn:E; [|discriminate].
        apply (f_equal (@List.length _)) in E. rewrite length_rev in E.
        subst keyed. rewrite length_map in E. simpl in E. lia. }
    rewrite (keyed_guard_off a b Hval Ea Eb), andb_false_r.
    destruct (option_map snd (hd_error keyed')) as [a'|] eqn:Ea';
      [|subst keyed'; destruct top'; simpl in *; [lia | discriminate]].
    destruct (option_map snd (hd_error (rev keyed'))) as [b'|] eqn:Eb'.
    2:{ exfalso. destruct (rev keyed') eqn:E; [|discriminate].
        apply (f_equal (@List.length _)) in E. rewrite length_rev in E.
        subst keyed'. rewrite length_map in E. simpl in E. lia. }
    assert (G : (a' =? b')%Z = false).
    { clear - Hnd' Hlen top_tied Hval' Ea' Eb'. subst keyed'.
      rewrite <- map_rev in Eb'.
      destruct (hd_error top') as [da|] eqn:Ua;
        [|destruct top'; simpl in *; discriminate].
      destruct (hd_error (rev top')) as [db|] eqn:Ub;
        [|destruct (rev top'); simpl in *; discriminate].
      assert (Hne : da <> db) by (eapply hd_rev_not_hd; eauto; lia).
      assert (Ia : In da top')
        by (destruct top'; simpl in *; [discriminate | injection Ua as ->; now left]).
      assert (Ib : In db top').
      { apply in_rev. destruct (rev top'); simpl in *;
          [discriminate | injection Ub as ->; now left]. }
      assert (Ha' : a' = rank SEVERITY da)
        by (destruct top'; simpl in *; [discriminate | injection Ua as <-; congruence]).
      assert (Hb' : b' = rank SEVERITY db)
        by (destruct (rev top'); simpl in *; [discriminate | injection Ub as <-; congruence]).
      subst a' b'. apply Z.eqb_neq. intros E. apply Hne. unfold rank in E.
      destruct (dict_get da SEVERITY) as [ra|] eqn:Ra; [|exfalso; now apply (Hval' da)].
      destruct (dict_get db SEVERITY) as [rb|] eqn:Rb; [|exfalso; now apply (Hval' db)].
      subst rb. eapply SEVERITY_inj; eauto. }
    rewrite G, andb_false_r. reflexivity.
  - assert (Hex : exists d, In d top /\ dict_get d SEVERITY = None).
    { apply forallb_false_ex in Hall. destruct Hall as [d [Hd Ed]].
      exists d. split; [assumption|].
      destruct (dict_get d SEVERITY); [discriminate | reflexivity]. }
    destruct Hex as [d [Hd Ed]]. unfold tie_break.
    rewrite (with_severity_none _ _ d Hd Ed).
    rewrite (with_severity_none _ top' d); auto.
    eapply Permutation_in; eauto.
Qed.
End TieBreakFacts.

(** The guard of the tie-break, over any table: tied decisions of one
    rank give KEEP_WITH_TAG. *)
Lemma tie_break_guard (severity : list (string * Z)) (top : list string) (r : Z) :
  2 <= List.length top ->
  (forall d, In d top -> dict_get d severity = Some r) ->
  tie_break severity top = Some "KEEP_WITH_TAG".
Proof.
  intros Hlen Hall. unfold tie_break.
  assert (Hval : forall d, In d top -> dict_get d severity <> None)
    by (intros d Hd; rewrite (Hall d Hd); discriminate).
  rewrite (with_severity_map _ _ Hval).
  assert (Hk : map (fun d => (d, rank severity d)) top = map (fun d => (d, r)) top).
  { apply map_ext_in. intros d Hd. unfold rank. now rewrite (Hall d Hd). }
  rewrite Hk. clear Hk.
  destruct (sort_desc snd (map (fun d => (d, r)) top)) as [|[d0 r0] t] eqn:Es.
  { apply (f_equal (@List.length _)) in Es. unfold sort_desc in Es.
    rewrite sort_by_length, length_map in Es. simpl in Es. lia. }
  rewrite <- map_rev.
  destruct top as [|x top']; [simpl in Hlen; lia|].
  destruct (rev (x :: top')) as [|y l] eqn:Er.
  { apply (f_equal (@List.length _)) in Er. rewrite length_rev in Er. simpl in *. lia. }
  assert (E : (1 <? List.length (x :: top')) = true) by (apply Nat.ltb_lt; simpl in *; lia).
  rewrite E. simpl. rewrite Z.eqb_refl. reflexivity.
Qed.

Lemma final_decision_perm (top top' : list string) :
  NoDup top -> Permutation top top' ->
  final_decision SEVERITY top = final_decision SEVERITY top'.
Proof.
  intros Hnd Hp.
  destruct top as [|x [|y l]].
  - apply Permutation_nil in Hp. now subst.
  - apply Permutation_length_1_inv in Hp. now subst.
  - pose proof (Permutation_length Hp) as Hl.
    destruct top' as [|x' [|y' l']]; try discriminate.
    unfold final_decision. apply tie_break_perm; auto. simpl. lia.
Qed.

(* ================================================================== *)
(** * Means *)
(* ================================================================== *)

Lemma flt_eq_refl (a : pyfloat) : flt_eq a a.
Proof. destruct a; simpl; auto. reflexivity. Qed.

Lemma flt_eq_sym (a b : pyfloat) : flt_eq a b -> flt_eq b a.
Proof. destruct a, b; simpl; auto. intros H. now symmetry. Qed.

Lemma flt_eq_trans (a b c : pyfloat) : flt_eq a b -> flt_eq b c -> flt_eq a c.
Proof.
  destruct a, b, c; simpl; auto; try tauto. intros H1 H2. now rewrite H1.
Qed.

Lemma flt_add_compat (a a' b b' : pyfloat) :
  flt_eq a a' -> flt_eq b b' -> flt_eq (flt_add a b) (flt_add a' b').
Proof.
  destruct a, a', b, b'; simpl; auto; try tauto. intros H1 H2. now rewrite H1, H2.
Qed.

Lemma flt_add_swap (a x y : pyfloat) :
  flt_eq (flt_add (flt_add a x) y) (flt_add (flt_add a y) x).
Proof.
  destruct a, x, y; simpl; auto. ring.
Qed.

Lemma fold_add_compat (xs : list pyfloat) :
  forall a b, flt_eq a b -> flt_eq (fold_left flt_add xs a) (fold_left flt_add xs b).
Proof.
  induction xs as [|x xs IH]; intros a b H; simpl; [assumption|].
  apply IH. apply flt_add_compat; [assumption | apply flt_eq_refl].
Qed.

Lemma fold_add_perm (xs ys : list pyfloat) :
  Permutation xs ys ->
  forall a, flt_eq (fold_left flt_add xs a) (fold_left flt_add ys a).
Proof.
  induction 1 as [|x l l' Hp IH|x y l|l1 l2 l3 H1 IH1 H2 IH2]; intros a; simpl.
  - apply flt_eq_refl.
  - apply IH.
  - apply fold_add_compat, flt_add_swap.
  - eapply flt_eq_trans; [apply IH1 | apply IH2].
Qed.

Lemma flt_div_pos_compat (a b : pyfloat) (k : nat) :
  flt_eq a b -> flt_eq (flt_div_pos a k) (flt_div_pos b k).
Proof.
  destruct a, b; simpl; auto. intros H. now rewrite H.
Qed.

(** The mean of the replicas does not depend on their order. *)
Lemma mean_perm (xs ys : list pyfloat) :
  Permutation xs ys -> flt_eq (mean xs) (mean ys).
Proof.
  intros Hp. unfold mean. rewrite <- (Permutation_length Hp).
  apply flt_div_pos_compat. now apply fold_add_perm.
Qed.



(* ================================================================== *)
(** * Consensus: order, ties and well-formedness *)
(* ================================================================== *)

Lemma tied_top (js : list Judgement) (d : string) :
  In d (top_decisions (count_votes js)) <-> tied js d.
Proof. rewrite count_votes_votes_from. apply top_decisions_spec. Qed.

Lemma consensus_nonempty (js : list Judgement) :
  js <> [] ->
  consensus js =
  match final_decision SEVERITY (top_decisions (count_votes js)) with
  | None => None
  | Some d =>
      Some (mkJudgement d
              (sorted_set (flat_map labels js))
              (mean (map arkts_score js))
              (mean (map quality_score js))
              (mean (map confidence js))
              (str_take 400 (join "; " (map rationale js))))
  end.
Proof. destruct js; [congruence | reflexivity]. Qed.

Lemma top_perm (js js' : list Judgement) :
  Permutation js js' ->
  Permutation (top_decisions (count_votes js)) (top_decisions (count_votes js')).
Proof.
  intros Hp. rewrite !count_votes_votes_from.
  apply top_decisions_perm, votes_perm. now apply Permutation_map.
Qed.

Lemma top_NoDup (js : list Judgement) : NoDup (top_decisions (count_votes js)).
Proof. rewrite count_votes_votes_from. apply top_decisions_NoDup. Qed.

Lemma flat_map_perm {A B : Type} (f : A -> list B) (l l' : list A) :
  Permutation l l' -> Permutation (flat_map f l) (flat_map f l').
Proof.
  induction 1 as [|x l l' Hp IH|x y l|l1 l2 l3 H1 IH1 H2 IH2]; simpl.
  - constructor.
  - now apply Permutation_app_head.
  - rewrite !app_assoc. apply Permutation_app_tail, Permutation_app_comm.
  - now transitivity (flat_map f l2).
Qed.

Lemma consensus_perm (js js' : list Judgement) :
  Permutation js js' ->
  match consensus js, consensus js' with
  | Some a, Some b => same_verdict a b
  | None, None => True
  | _, _ => False
  end.
Proof.
  intros Hp.
  destruct js as [|j0 js0].
  { apply Permutation_nil in Hp. subst. simpl.
    unfold same_verdict; simpl. repeat split; reflexivity. }
  remember (j0 :: js0) as js eqn:Ejs.
  assert (Hne : js <> []) by (subst; discriminate).
  assert (Hne' : js' <> []).
  { intros ->. apply Permutation_sym, Permutation_nil in Hp. contradiction. }
  clear Ejs j0 js0.
  rewrite (consensus_nonempty js Hne), (consensus_nonempty js' Hne').
  rewrite <- (final_decision_perm _ _ (top_NoDup js) (top_perm _ _ Hp)).
  destruct (final_decision SEVERITY (top_decisions (count_votes js))); [|exact I].
  unfold same_verdict; simpl.
  split; [reflexivity|].
  split; [apply sorted_set_perm, flat_map_perm, Hp|].
  repeat split; apply mean_perm, Permutation_map, Hp.
Qed.




Lemma two_tied_length (top : list string) (d1 d2 : string) :
  In d1 top -> In d2 top -> d1 <> d2 -> 2 <= List.length top.
Proof.
  destruct top as [|x [|y l]]; simpl; try tauto; try lia.
  intros [<-|[]] [<-|[]]. congruence.
Qed.

Lemma final_decision_tied (js : list Judgement) (d1 d2 : string) :
  Forall (fun j => In (decision j) DECISIONS) js ->
  tied js d1 -> tied js d2 -> d1 <> d2 ->
  exists d, final_decision SEVERITY (top_decisions (count_votes js)) = Some d /\
            tied js d /\
            forall d', tied js d' -> (rank SEVERITY d' <= rank SEVERITY d)%Z.
Proof.
  intros Hval H1 H2 Hne.
  apply tied_top in H1, H2.
  pose proof (two_tied_length _ _ _ H1 H2 Hne) as Hlen.
  destruct (tie_break_max _ (top_NoDup js) Hlen) as [d [Ed [Hd Hmax]]].
  - intros d Hd. apply tied_top in Hd. destruct Hd as [Hd _].
    apply in_map_iff in Hd. destruct Hd as [j [<- Hj]].
    rewrite Forall_forall in Hval. auto.
  - exists d. split.
    + unfold final_decision.
      destruct (top_decisions (count_votes js)) as [|x [|y l]]; simpl in Hlen; try lia.
      exact Ed.
    + split; [now apply tied_top|]. intros d' Hd'. apply Hmax. now apply tied_top.
Qed.

(** C5.  When two or more decisions tie for the most votes, the consensus
    decision is the tied decision of largest rank in KEEP(0),
    KEEP_WITH_TAG(1), REMOVE(2); the pair KEEP, REMOVE gives REMOVE in
    either order; and, whatever the table of ranks, tied decisions that
    all carry one rank give KEEP_WITH_TAG. *)
Theorem consensus_tie_break :
  (forall js d1 d2,
      Forall (fun j => In (decision j) DECISIONS) js ->
      tied js d1 -> tied js d2 -> d1 <> d2 ->
      exists j, consensus js = Some j /\ tied js (decision j) /\
                forall d, tied js d -> (rank SEVERITY d <= rank SEVERITY (decision j))%Z) /\
  (forall j1 j2,
      decision j1 = "KEEP" -> decision j2 = "REMOVE" ->
      (exists j, consensus [j1; j2] = Some j /\ decision j = "REMOVE") /\
      (exists j, consensus [j2; j1] = Some j /\ decision j = "REMOVE")) /\
  (forall severity js r,
      js <> [] ->
      2 <= List.length (top_decisions (count_votes js)) ->
      (forall d, tied js d -> dict_get d severity = Some r) ->
      exists j, consensus_with severity js = Some j /\ decision j = "KEEP_WITH_TAG").
Proof.
  split; [|split].
  - intros js d1 d2 Hval H1 H2 Hne.
    assert (Hjs : js <> []) by (intros ->; destruct H1 as [[] _]).
    destruct (final_decision_tied js d1 d2 Hval H1 H2 Hne) as [d [Ed [Ht Hmax]]].
    rewrite (consensus_nonempty js Hjs), Ed. eexists. split; [reflexivity|].
    simpl. auto.
  - intros [d1 l1 a1 q1 c1 r1] [d2 l2 a2 q2 c2 r2]. simpl. intros -> ->.
    split; eexists; (split; [reflexivity|reflexivity]).
  - intros severity js r Hjs Hlen Hall.
    assert (E : tie_break severity (top_decisions (count_votes js)) = Some "KEEP_WITH_TAG").
    { apply (tie_break_guard severity _ r Hlen). intros d Hd. apply Hall.
      now apply tied_top. }
    destruct js as [|j0 js0]; [congruence|].
    unfold consensus_with, final_decision.
    destruct (top_decisions (count_votes (j0 :: js0))) as [|x [|y l]] eqn:Et;
      simpl in Hlen; try lia.
    rewrite E. eexists. split; reflexivity.
Qed.

Lemma consensus_tie_break_witness :
  (exists j, consensus [replica_clear;
                        mkJudgement "REMOVE" [] (Fin 1) (Fin 1) (Fin 1) "broken"] = Some j /\
             decision j = "REMOVE") /\
  (exists j, consensus_with [("KEEP", 1%Z); ("REMOVE", 1%Z)]
               [replica_clear;
                mkJudgement "REMOVE" [] (Fin 1) (Fin 1) (Fin 1) "broken"] = Some j /\
             decision j = "KEEP_WITH_TAG").
Proof.
  split.
  - exact (proj1 (proj1 (proj2 consensus_tie_break) replica_clear
                    (mkJudgement "REMOVE" [] (Fin 1) (Fin 1) (Fin 1) "broken")
                    eq_refl eq_refl)).
  - apply (proj2 (proj2 consensus_tie_break) [("KEEP", 1%Z); ("REMOVE", 1%Z)]
             [replica_clear; mkJudgement "REMOVE" [] (Fin 1) (Fin 1) (Fin 1) "broken"]
             1%Z).
    + discriminate.
    + vm_compute. lia.
    + intros d Hd. apply tied_top in Hd. vm_compute in Hd.
      destruct Hd as [<-|[<-|[]]]; reflexivity.
Defined.

(* ================================================================== *)
(** * Validation, fallbacks and well-formed judgements *)
(* ================================================================== *)



(** ** Text without an opening brace *)










(** ** The fallback *)

Section FallbackFacts.
Variable repr_value : json -> string.
Variable float_of_str : string -> option pyfloat.
Variable json_loads : string -> option json.
Variable json_dumps : json -> string.
Variable PROMPT_TEMPLATE : string.
Variable call_chat_completion : string -> string -> pyfloat -> json.


End FallbackFacts.



(** ** Well-formed judgements *)



Lemma Forall_map_prop {A B : Type} (f : A -> B) (P : B -> Prop) (l : list A) :
  Forall (fun x => P (f x)) l -> Forall P (map f l).
Proof. induction 1; simpl; constructor; auto. Qed.




(* ================================================================== *)
(** * Sampling: the strata *)
(* ================================================================== *)

Lemma stratum_eqb_eq (a b : stratum) : stratum_eqb a b = true <-> a = b.
Proof.
  destruct a as [[a1 a2] a3], b as [[b1 b2] b3]. simpl.
  rewrite !andb_true_iff, !String.eqb_eq. split.
  - intros [[-> ->] ->]. reflexivity.
  - intros [= -> -> ->]. auto.
Qed.

Lemma stratum_eqb_refl (a : stratum) : stratum_eqb a a = true.
Proof. now apply stratum_eqb_eq. Qed.

Lemma stratum_eqb_neq (a b : stratum) : stratum_eqb a b = false <-> a <> b.
Proof.
  rewrite <- stratum_eqb_eq. destruct (stratum_eqb a b); split; congruence.
Qed.

Section AssocFacts.
Context {V : Type}.
Implicit Types (d : list (stratum * V)) (k : stratum) (v : V).

Lemma assoc_get_set_eq k v d : assoc_get k (assoc_set k v d) = Some v.
Proof.
  induction d as [|[k' v'] d IH]; simpl.
  - now rewrite stratum_eqb_refl.
  - destruct (stratum_eqb k k') eqn:E; simpl; rewrite E; auto.
Qed.

Lemma assoc_get_set_neq k k' v d :
  k <> k' -> assoc_get k (assoc_set k' v d) = assoc_get k d.
Proof.
  intros Hne. apply stratum_eqb_neq in Hne.
  induction d as [|[k0 v0] d IH]; simpl.
  - now rewrite Hne.
  - destruct (stratum_eqb k' k0) eqn:E; simpl.
    + apply stratum_eqb_eq in E. subst k0. now rewrite Hne.
    + rewrite IH. reflexivity.
Qed.

Lemma assoc_get_None k d : assoc_get k d = None <-> ~ In k (map fst d).
Proof.
  induction d as [|[k' v'] d IH]; simpl; [tauto|].
  destruct (stratum_eqb k k') eqn:E.
  - apply stratum_eqb_eq in E. subst. split; [discriminate | tauto].
  - apply stratum_eqb_neq in E. rewrite IH. split; intros H; [intros [K|K]|];
      try tauto. congruence.
Qed.

Lemma assoc_get_In k v d : assoc_get k d = Some v -> In (k, v) d.
Proof.
  induction d as [|[k' v'] d IH]; simpl; [discriminate|].
  destruct (stratum_eqb k k') eqn:E.
  - apply stratum_eqb_eq in E. intros [= ->]. subst. now left.
  - intros H. right. auto.
Qed.

Lemma In_assoc_get k v d : NoDup (map fst d) -> In (k, v) d -> assoc_get k d = Some v.
Proof.
  induction d as [|[k' v'] d IH]; simpl; [tauto|].
  intros Hnd [H|H].
  - injection H as -> ->. now rewrite stratum_eqb_refl.
  - inversion Hnd as [|? ? Hnin Hnd']; subst.
    destruct (stratum_eqb k k') eqn:E.
    + apply stratum_eqb_eq in E. subst. exfalso. apply Hnin.
      apply (in_map fst) in H. exact H.
    + auto.
Qed.

Lemma assoc_set_absent k v d : assoc_get k d = None -> assoc_set k v d = d ++ [(k, v)].
Proof.
  induction d as [|[k' v'] d IH]; simpl; [reflexivity|].
  destruct (stratum_eqb k k'); [discriminate|]. intros H. now rewrite IH.
Qed.

Lemma assoc_set_present k v v0 d :
  assoc_get k d = Some v0 -> map fst (assoc_set k v d) = map fst d.
Proof.
  induction d as [|[k' v'] d IH]; simpl; [discriminate|].
  destruct (stratum_eqb k k'); simpl; [reflexivity|]. intros H. now rewrite IH.
Qed.
End AssocFacts.

Lemma set_nth_length {A : Type} (i : nat) (x : A) (l : list A) :
  List.length (set_nth i x l) = List.length l.
Proof.
  revert i; induction l as [|y l IH]; intros [|i]; simpl; auto.
Qed.

Lemma set_nth_same {A : Type} (i : nat) (x : A) (l : list A) :
  i < List.length l -> nth_error (set_nth i x l) i = Some x.
Proof.
  revert i; induction l as [|y l IH]; intros [|i]; simpl; try lia; auto.
  intros H. apply IH. lia.
Qed.

Lemma set_nth_other {A : Type} (i j : nat) (x : A) (l : list A) :
  i <> j -> nth_error (set_nth i x l) j = nth_error l j.
Proof.
  revert i j; induction l as [|y l IH]; intros [|i] [|j]; simpl; try congruence; auto.
Qed.

Lemma set_nth_In {A : Type} (i : nat) (x y : A) (l : list A) :
  In y (set_nth i x l) ->
  y = x \/ exists j, j <> i /\ nth_error l j = Some y.
Proof.
  intros H. apply In_nth_error in H. destruct H as [j Hj].
  destruct (Nat.eq_dec i j) as [->|Hne].
  - left. assert (Hlt : j < List.length l).
    { rewrite <- (set_nth_length j x l). apply nth_error_Some. congruence. }
    rewrite set_nth_same in Hj by assumption. congruence.
  - right. exists j. rewrite set_nth_other in Hj by assumption. auto.
Qed.

Lemma NoDup_nth_error_fst {A B : Type} (l : list (A * B)) (i j : nat) (x y : A * B) :
  NoDup (map fst l) -> nth_error l i = Some x -> nth_error l j = Some y ->
  i <> j -> fst x <> fst y.
Proof.
  intros Hnd Hi Hj Hne E.
  apply Hne. apply (proj1 (NoDup_nth_error (map fst l)) Hnd).
  - rewrite length_map. apply nth_error_Some. congruence.
  - rewrite !nth_error_map, Hi, Hj. simpl. now rewrite E.
Qed.

(** ** Sums *)

Lemma zsum_app (a b : list Z) : zsum (a ++ b) = (zsum a + zsum b)%Z.
Proof. unfold zsum. induction a; simpl; lia. Qed.

Lemma zsum_perm (a b : list Z) : Permutation a b -> zsum a = zsum b.
Proof. unfold zsum. induction 1; simpl; lia. Qed.

Lemma zsum_nonneg_pos (l : list Z) :
  Forall (fun x => 0 <= x)%Z l -> (0 < zsum l)%Z -> exists x, In x l /\ (0 < x)%Z.
Proof.
  induction 1 as [|x l Hx Hl IH]; simpl; [lia|]. intros H.
  destruct (Z_lt_dec 0 x) as [Hp|Hp].
  - exists x. auto.
  - destruct IH as [y [Hy Hpos]]; [lia|]. exists y. auto.
Qed.

Lemma alloc_sum_set (k : stratum) (a v : Z) (allocation : list (stratum * Z)) :
  assoc_get k allocation = Some a ->
  alloc_sum (assoc_set k v allocation) = (alloc_sum allocation - a + v)%Z.
Proof.
  unfold alloc_sum, zsum.
  induction allocation as [|[k' v'] d IH]; simpl; [discriminate|].
  destruct (stratum_eqb k k'); simpl.
  - intros [= ->]. lia.
  - intros H. rewrite (IH H). lia.
Qed.

Lemma zsum_set_nth (i : nat) (k : stratum) (av v : Z) (spare : list (stratum * Z)) :
  nth_error spare i = Some (k, av) ->
  zsum (map snd (set_nth i (k, v) spare)) = (zsum (map snd spare) - av + v)%Z.
Proof.
  unfold zsum. revert i. induction spare as [|[k' v'] l IH]; intros [|i]; simpl;
    try discriminate.
  - intros [= -> ->]. lia.
  - intros H. rewrite (IH _ H). lia.
Qed.

Lemma map_fst_set_nth (i : nat) (k : stratum) (av v : Z) (spare : list (stratum * Z)) :
  nth_error spare i = Some (k, av) ->
  map fst (set_nth i (k, v) spare) = map fst spare.
Proof.
  revert i. induction spare as [|[k' v'] l IH]; intros [|i]; simpl; try discriminate.
  - intros [= -> ->]. reflexivity.
  - intros H. now rewrite (IH _ H).
Qed.

Lemma Zlen_app {A : Type} (a b : list A) : Zlen (a ++ b) = (Zlen a + Zlen b)%Z.
Proof. unfold Zlen. rewrite length_app. lia. Qed.

Lemma Zlen_nonneg {A : Type} (a : list A) : (0 <= Zlen a)%Z.
Proof. unfold Zlen. lia. Qed.

Lemma Zlen_concat {A : Type} (ls : list (list A)) :
  Zlen (List.concat ls) = zsum (map (@Zlen A) ls).
Proof.
  induction ls as [|l ls IH]; simpl; [reflexivity|].
  rewrite Zlen_app, IH. reflexivity.
Qed.

(** ** The strata partition the corpus *)

Lemma strata_add_keys (key : stratum) (r : row) (strata : list (stratum * list row)) :
  NoDup (keys_of strata) -> NoDup (keys_of (strata_add key r strata)).
Proof.
  unfold strata_add, keys_of. intros H.
  destruct (assoc_get key strata) as [items|] eqn:E.
  - now rewrite (assoc_set_present _ _ _ _ E).
  - rewrite map_app. simpl. apply assoc_get_None in E.
    apply NoDup_rev in H. rewrite <- (rev_involutive (map fst strata ++ [key])).
    apply NoDup_rev. rewrite rev_app_distr. simpl. constructor; [|assumption].
    now rewrite <- in_rev.
Qed.

Lemma assoc_set_concat (key : stratum) (items : list row) (r : row)
    (strata : list (stratum * list row)) :
  assoc_get key strata = Some items ->
  Permutation (List.concat (map snd (assoc_set key (items ++ [r]) strata)))
              (r :: List.concat (map snd strata)).
Proof.
  induction strata as [|[k its] d IH]; simpl; [discriminate|].
  destruct (stratum_eqb key k); simpl.
  - intros [= ->]. rewrite <- app_assoc. simpl.
    symmetry. apply Permutation_middle.
  - intros H. rewrite (IH H). symmetry.
    apply (Permutation_middle its (List.concat (map snd d)) r).
Qed.

Lemma strata_add_concat (key : stratum) (r : row) (strata : list (stratum * list row)) :
  Permutation (List.concat (map snd (strata_add key r strata)))
              (r :: List.concat (map snd strata)).
Proof.
  unfold strata_add. destruct (assoc_get key strata) as [items|] eqn:E.
  - now apply assoc_set_concat.
  - rewrite map_app, concat_app. simpl.
    symmetry. apply Permutation_cons_append.
Qed.

Lemma strata_add_nonempty (key : stratum) (r : row) (strata : list (stratum * list row)) :
  Forall (fun s => snd s <> []) strata ->
  Forall (fun s => snd s <> []) (strata_add key r strata).
Proof.
  unfold strata_add. intros H. destruct (assoc_get key strata) as [items|] eqn:E.
  - clear E. induction H as [|[k its] d Hx Hd IH]; simpl.
    + constructor; [|constructor]. simpl. destruct items; discriminate.
    + destruct (stratum_eqb key k); constructor; simpl; auto.
      destruct items; discriminate.
  - apply Forall_app. split; [assumption|]. constructor; [discriminate | constructor].
Qed.

Section BuildStrata.
Variables (code_field : string) (source_field lang_field : option string).

Let build (rows : list row) (acc : list (stratum * list row)) :=
  fold_left (fun strata r =>
               strata_add (default_strata r code_field source_field lang_field) r strata)
            rows acc.

Lemma build_strata_gen (rows : list row) :
  forall acc,
    NoDup (keys_of acc) -> Forall (fun s => snd s <> []) acc ->
    NoDup (keys_of (build rows acc)) /\
    Forall (fun s => snd s <> []) (build rows acc) /\
    Permutation (List.concat (map snd (build rows acc))) (rows ++ List.concat (map snd acc)).
Proof.
  induction rows as [|r rows IH]; intros acc Hnd Hne; simpl.
  - auto.
  - destruct (IH (strata_add (default_strata r code_field source_field lang_field) r acc))
      as [H1 [H2 H3]].
    + now apply strata_add_keys.
    + now apply strata_add_nonempty.
    + split; [exact H1|]. split; [exact H2|].
      eapply Permutation_trans; [exact H3|].
      apply Permutation_trans with (rows ++ r :: List.concat (map snd acc)).
      * apply Permutation_app_head, strata_add_concat.
      * symmetry. apply Permutation_middle.
Qed.

Lemma build_strata_spec (rows : list row) :
  let strata := build_strata rows code_field source_field lang_field in
  NoDup (keys_of strata) /\
  Forall (fun s => snd s <> []) strata /\
  Permutation (List.concat (map snd strata)) rows.
Proof.
  pose proof (build_strata_gen rows [] (NoDup_nil _) (Forall_nil _)) as [H1 [H2 H3]].
  simpl in H3. rewrite app_nil_r in H3.
  intros strata. exact (conj H1 (conj H2 H3)).
Qed.
End BuildStrata.

Lemma sizes_concat (strata : list (stratum * list row)) :
  sizes strata = Zlen (List.concat (map snd strata)).
Proof.
  unfold sizes. rewrite Zlen_concat, map_map. reflexivity.
Qed.

Lemma sizes_build (rows : list row) (code_field : string)
    (source_field lang_field : option string) :
  sizes (build_strata rows code_field source_field lang_field) = Zlen rows.
Proof.
  rewrite sizes_concat. unfold Zlen. f_equal. apply Permutation_length.
  apply build_strata_spec.
Qed.

(* ================================================================== *)
(** * Sampling: the allocation *)
(* ================================================================== *)

Lemma proportional_floor_div (size total n : Z) :
  (0 < total)%Z -> proportional_floor size total n = Z.max 1 (size * n / total).
Proof.
  intros Ht. destruct total as [|p|p]; try lia.
  unfold proportional_floor, Qfloor, Qdiv, Qmult, Qinv, inject_Z. simpl.
  rewrite Z.mul_1_r, Pos.mul_1_r. reflexivity.
Qed.

Lemma alloc0_bounds (total n : Z) (items : list row) :
  items <> [] -> (1 <= alloc0 total n items <= Zlen items)%Z.
Proof.
  intros Hne. unfold alloc0, proportional_floor.
  assert (1 <= Zlen items)%Z by (destruct items; [congruence | unfold Zlen; simpl; lia]).
  lia.
Qed.

Lemma alloc0_full (total n : Z) (items : list row) :
  items <> [] -> (0 < total)%Z -> (total <= n)%Z -> alloc0 total n items = Zlen items.
Proof.
  intros Hne Ht Hn. unfold alloc0. rewrite proportional_floor_div by assumption.
  pose proof (Zlen_nonneg items).
  assert (Zlen items <= Zlen items * n / total)%Z.
  { apply Z.div_le_lower_bound; [assumption|]. nia. }
  lia.
Qed.

Lemma first_pass_spec (total n : Z) (strata : list (stratum * list row)) :
  forall acc rem,
    NoDup (keys_of acc ++ keys_of strata) ->
    first_pass strata total n acc rem =
    (acc ++ first_alloc total n strata,
     (rem - alloc_sum (first_alloc total n strata))%Z).
Proof.
  induction strata as [|[k items] strata IH]; intros acc rem Hnd; simpl.
  - rewrite app_nil_r. f_equal. unfold alloc_sum, zsum. simpl. lia.
  - assert (Hk : assoc_get k acc = None).
    { apply assoc_get_None. apply NoDup_remove_2 in Hnd. intros K. apply Hnd.
      apply in_or_app. now left. }
    rewrite (assoc_set_absent _ _ _ Hk).
    rewrite IH.
    + rewrite <- app_assoc. simpl. f_equal.
      unfold alloc_sum, zsum, alloc0. simpl. fold zsum. lia.
    + unfold keys_of in *. rewrite map_app. simpl. rewrite <- app_assoc. exact Hnd.
Qed.

Lemma first_alloc_keys (total n : Z) (strata : list (stratum * list row)) :
  keys_of (first_alloc total n strata) = keys_of strata.
Proof. unfold keys_of, first_alloc. rewrite map_map. reflexivity. Qed.

Lemma first_alloc_get (total n : Z) (strata : list (stratum * list row))
    (k : stratum) (items : list row) :
  NoDup (keys_of strata) -> In (k, items) strata ->
  assoc_get k (first_alloc total n strata) = Some (alloc0 total n items).
Proof.
  intros Hnd Hin. apply In_assoc_get.
  - fold (keys_of (first_alloc total n strata)). now rewrite first_alloc_keys.
  - unfold first_alloc. apply in_map_iff. exists (k, items). auto.
Qed.

Lemma first_alloc_get_inv (total n : Z) (strata : list (stratum * list row))
    (k : stratum) (a : Z) :
  assoc_get k (first_alloc total n strata) = Some a ->
  exists items, In (k, items) strata /\ a = alloc0 total n items.
Proof.
  intros H. apply assoc_get_In in H. unfold first_alloc in H.
  apply in_map_iff in H. destruct H as [[k' items] [[= <- <-] Hin]]. eauto.
Qed.

Lemma cap_In (strata : list (stratum * list row)) (k : stratum) (items : list row) :
  NoDup (keys_of strata) -> In (k, items) strata -> cap strata k = Zlen items.
Proof.
  intros Hnd Hin. unfold cap. now rewrite (In_assoc_get _ _ _ Hnd Hin).
Qed.

Lemma spare_of_spec (total n : Z) (allocation : list (stratum * Z))
    (strata : list (stratum * list row)) :
  (forall k items, In (k, items) strata ->
                   assoc_get k allocation = Some (alloc0 total n items)) ->
  spare_of strata allocation = Some (spare0 total n strata).
Proof.
  induction strata as [|[k items] strata IH]; intros H; simpl; [reflexivity|].
  rewrite (H k items) by now left.
  rewrite IH by (intros; apply H; now right).
  destruct (alloc0 total n items <? Zlen items)%Z; reflexivity.
Qed.

Lemma spare0_In (total n : Z) (strata : list (stratum * list row)) (k : stratum) (av : Z) :
  In (k, av) (spare0 total n strata) ->
  exists items, In (k, items) strata /\
                av = (Zlen items - alloc0 total n items)%Z /\ (0 < av)%Z.
Proof.
  unfold spare0. rewrite in_flat_map. intros [[k' items] [Hin H]]. simpl in H.
  destruct (alloc0 total n items <? Zlen items)%Z eqn:E; [|destruct H].
  destruct H as [[= <- <-]|[]]. apply Z.ltb_lt in E. exists items. split; [assumption|].
  split; lia.
Qed.

Lemma spare0_keys (total n : Z) (strata : list (stratum * list row)) :
  NoDup (keys_of strata) -> NoDup (map fst (spare0 total n strata)).
Proof.
  unfold keys_of, spare0. induction strata as [|[k items] strata IH]; simpl; intros H.
  - constructor.
  - inversion H as [|? ? Hnin Hnd]; subst.
    destruct (alloc0 total n items <? Zlen items)%Z; simpl; [|auto].
    constructor; [|auto]. intros K. apply Hnin.
    apply in_map_iff in K. destruct K as [[k' av] [E K]]. simpl in E. subst k'.
    apply in_flat_map in K. destruct K as [[k2 it2] [Hin K]]. simpl in K.
    destruct (alloc0 total n it2 <? Zlen it2)%Z; [|destruct K].
    destruct K as [[= <- _]|[]]. apply in_map_iff. exists (k2, it2). auto.
Qed.

Lemma spare0_sum (total n : Z) (strata : list (stratum * list row)) :
  Forall (fun s => snd s <> []) strata ->
  zsum (map snd (spare0 total n strata)) =
  (sizes strata - alloc_sum (first_alloc total n strata))%Z.
Proof.
  unfold spare0, sizes, alloc_sum, first_alloc, zsum.
  induction 1 as [|[k items] strata Hne Hall IH]; simpl; [reflexivity|].
  pose proof (alloc0_bounds total n items Hne) as Hb.
  rewrite map_app, fold_right_app.
  destruct (alloc0 total n items <? Zlen items)%Z eqn:E; simpl; rewrite IH.
  - lia.
  - apply Z.ltb_ge in E. lia.
Qed.

Lemma spare0_nil_full (total n : Z) (strata : list (stratum * list row)) :
  Forall (fun s => snd s <> []) strata ->
  spare0 total n strata = [] ->
  forall k items, In (k, items) strata -> alloc0 total n items = Zlen items.
Proof.
  intros Hall Hnil k items Hin.
  rewrite Forall_forall in Hall. pose proof (alloc0_bounds total n items (Hall _ Hin)) as Hb.
  destruct (Z.eq_dec (alloc0 total n items) (Zlen items)) as [E|E]; [assumption|].
  exfalso.
  assert (K : In (k, (Zlen items - alloc0 total n items)%Z) (spare0 total n strata)).
  { unfold spare0. apply in_flat_map. exists (k, items). split; [assumption|]. simpl.
    assert (Hlt : (alloc0 total n items <? Zlen items)%Z = true) by (apply Z.ltb_lt; lia).
    rewrite Hlt. now left. }
  rewrite Hnil in K. destruct K.
Qed.

(** ** The redistribution loop *)

Section Loop.
Variable room : stratum -> Z.

Lemma redistribute_exit (fuel : nat) (allocation spare : list (stratum * Z))
    (remaining : Z) (idx : nat) :
  (remaining <= 0)%Z \/ spare = [] ->
  redistribute (S fuel) allocation remaining spare idx = Some (allocation, remaining).
Proof.
  intros H. simpl.
  assert (E : (0 <? remaining)%Z && negb (List.length spare =? 0) = false).
  { destruct H as [H| ->]; [|apply andb_false_r].
    apply andb_false_iff. left. apply Z.ltb_ge. assumption. }
  rewrite E. reflexivity.
Qed.

Lemma loop_guard (spare : list (stratum * Z)) (remaining : Z) (i : nat) (x : stratum * Z) :
  (0 < remaining)%Z -> nth_error spare i = Some x ->
  (0 <? remaining)%Z && negb (List.length spare =? 0) = true.
Proof.
  intros Hr Hn. apply andb_true_iff. split; [now apply Z.ltb_lt|].
  destruct spare; [destruct i; discriminate | reflexivity].
Qed.

Lemma redistribute_skip (fuel : nat) (allocation spare : list (stratum * Z))
    (remaining : Z) (idx : nat) (k : stratum) (av : Z) :
  (0 < remaining)%Z ->
  nth_error spare (idx mod List.length spare) = Some (k, av) -> (av <= 0)%Z ->
  redistribute (S fuel) allocation remaining spare idx =
  redistribute fuel allocation remaining spare (S idx).
Proof.
  intros Hr Hn Hav. simpl. rewrite (loop_guard _ _ _ _ Hr Hn), Hn.
  assert (E : (0 <? av)%Z = false) by (apply Z.ltb_ge; assumption).
  rewrite E. reflexivity.
Qed.

Lemma redistribute_take (fuel : nat) (allocation spare : list (stratum * Z))
    (remaining : Z) (idx : nat) (k : stratum) (av a : Z) :
  (0 < remaining)%Z ->
  nth_error spare (idx mod List.length spare) = Some (k, av) -> (0 < av)%Z ->
  assoc_get k allocation = Some a ->
  redistribute (S fuel) allocation remaining spare idx =
  redistribute fuel (assoc_set k (a + 1)%Z allocation) (remaining - 1)%Z
    (set_nth (idx mod List.length spare) (k, (av - 1)%Z) spare) (S idx).
Proof.
  intros Hr Hn Hav Ha. simpl. rewrite (loop_guard _ _ _ _ Hr Hn), Hn.
  assert (E : (0 <? av)%Z = true) by (apply Z.ltb_lt; assumption).
  rewrite E, Ha. reflexivity.
Qed.

Lemma loop_inv_take (allocation spare : list (stratum * Z)) (i : nat)
    (k : stratum) (av : Z) :
  loop_inv room allocation spare ->
  nth_error spare i = Some (k, av) -> (0 < av)%Z ->
  exists a,
    assoc_get k allocation = Some a /\
    loop_inv room (assoc_set k (a + 1)%Z allocation) (set_nth i (k, (av - 1)%Z) spare).
Proof.
  intros [Hnd [Hsp Hal]] Hn Hav.
  destruct (Hsp k av (nth_error_In _ _ Hn)) as [_ [a [Ha Hroom]]].
  exists a. split; [assumption|]. split; [|split].
  - now rewrite (map_fst_set_nth _ _ _ _ _ Hn).
  - intros k' av' Hin. apply set_nth_In in Hin.
    destruct Hin as [[= -> ->]|[j [Hj Hnj]]].
    + split; [lia|]. exists (a + 1)%Z. rewrite assoc_get_set_eq. split; [reflexivity | lia].
    + assert (Hne : k' <> k).
      { apply (NoDup_nth_error_fst spare j i (k', av') (k, av)); auto. }
      destruct (Hsp k' av' (nth_error_In _ _ Hnj)) as [H0 [a' [Ha' Hr']]].
      split; [assumption|]. exists a'. rewrite assoc_get_set_neq by assumption. auto.
  - intros k' a'. destruct (stratum_eqb k' k) eqn:E.
    + apply stratum_eqb_eq in E. subst k'. rewrite assoc_get_set_eq.
      intros [= <-]. pose proof (Hal k a Ha). lia.
    + apply stratum_eqb_neq in E. rewrite assoc_get_set_neq by assumption. apply Hal.
Qed.

(** From any position, the scan reaches a stratum with room within one
    turn of the list, and gives it one more slot. *)
Lemma redistribute_progress (d : nat) :
  forall (allocation spare : list (stratum * Z)) (remaining : Z) (idx : nat),
    loop_inv room allocation spare -> (0 < remaining)%Z ->
    (exists k av, nth_error spare ((idx + d) mod List.length spare) = Some (k, av)
                  /\ (0 < av)%Z) ->
    exists steps allocation1 spare1 idx1,
      steps <= S d /\
      (forall fuel, redistribute (steps + fuel) allocation remaining spare idx =
                    redistribute fuel allocation1 (remaining - 1)%Z spare1 idx1) /\
      loop_inv room allocation1 spare1 /\
      zsum (map snd spare1) = (zsum (map snd spare) - 1)%Z /\
      alloc_sum allocation1 = (alloc_sum allocation + 1)%Z /\
      map fst allocation1 = map fst allocation /\
      List.length spare1 = List.length spare.
Proof.
  induction d as [|d IH]; intros allocation spare remaining idx Hinv Hr [k [av [Hn Hav]]].
  - rewrite Nat.add_0_r in Hn.
    destruct (loop_inv_take _ _ _ _ _ Hinv Hn Hav) as [a [Ha Hinv']].
    exists 1, (assoc_set k (a + 1)%Z allocation),
      (set_nth (idx mod List.length spare) (k, (av - 1)%Z) spare), (S idx).
    split; [lia|]. split; [intros fuel; now apply redistribute_take|].
    split; [assumption|].
    split; [rewrite (zsum_set_nth _ _ _ _ _ Hn); lia|].
    split; [rewrite (alloc_sum_set _ _ _ _ Ha); lia|].
    split; [now apply assoc_set_present with a | apply set_nth_length].
  - assert (HL : List.length spare <> 0).
    { intros E. apply length_zero_iff_nil in E. subst spare.
      rewrite nth_error_nil in Hn. discriminate. }
    assert (Hlt : idx mod List.length spare < List.length spare)
      by (apply Nat.mod_upper_bound; assumption).
    destruct (nth_error spare (idx mod List.length spare)) as [[k0 av0]|] eqn:Hn0;
      [|apply nth_error_None in Hn0; lia].
    destruct (Z_lt_dec 0 av0) as [Hp|Hp].
    + destruct (loop_inv_take _ _ _ _ _ Hinv Hn0 Hp) as [a [Ha Hinv']].
      exists 1, (assoc_set k0 (a + 1)%Z allocation),
        (set_nth (idx mod List.length spare) (k0, (av0 - 1)%Z) spare), (S idx).
      split; [lia|]. split; [intros fuel; now apply redistribute_take|].
      split; [assumption|].
      split; [rewrite (zsum_set_nth _ _ _ _ _ Hn0); lia|].
      split; [rewrite (alloc_sum_set _ _ _ _ Ha); lia|].
      split; [now apply assoc_set_present with a | apply set_nth_length].
    + destruct (IH allocation spare remaining (S idx) Hinv Hr) as
          [steps [al1 [sp1 [idx1 [Hs [Hrun Hrest]]]]]].
      { exists k, av. replace (S idx + d) with (idx + S d) by lia. auto. }
      exists (S steps), al1, sp1, idx1. split; [lia|]. split; [|exact Hrest].
      intros fuel. simpl Nat.add.
      rewrite (redistribute_skip _ _ _ _ _ _ _ Hr Hn0) by lia. apply Hrun.
Qed.

Lemma reach_index (L idx i : nat) :
  i < L -> exists d, d < 2 * L /\ (idx + d) mod L = i.
Proof.
  intros Hi. exists (i + (L - idx mod L)).
  assert (HL : L <> 0) by lia.
  pose proof (Nat.mod_upper_bound idx L HL) as Hm.
  split; [lia|].
  replace (idx + (i + (L - idx mod L))) with (i + (S (idx / L)) * L).
  - rewrite Nat.Div0.mod_add. now apply Nat.mod_small.
  - pose proof (Nat.div_mod_eq idx L). nia.
Qed.

(** With enough spare for what remains, the loop hands out all of it. *)
Lemma redistribute_total (m : nat) :
  forall (allocation spare : list (stratum * Z)) (remaining : Z) (idx : nat),
    remaining = Z.of_nat m ->
    loop_inv room allocation spare ->
    (remaining <= zsum (map snd spare))%Z ->
    exists allocation',
      (forall fuel, m * (2 * List.length spare) + 1 <= fuel ->
                    redistribute fuel allocation remaining spare idx
                    = Some (allocation', 0%Z)) /\
      map fst allocation' = map fst allocation /\
      alloc_sum allocation' = (alloc_sum allocation + remaining)%Z /\
      (forall k a, assoc_get k allocation' = Some a -> (1 <= a <= room k)%Z).
Proof.
  induction m as [|m IH]; intros allocation spare remaining idx Hm Hinv Hsum.
  - simpl in Hm. subst remaining. exists allocation.
    split; [|split; [reflexivity | split; [lia | apply Hinv]]].
    intros fuel Hf. destruct fuel; [lia|]. apply redistribute_exit. left. lia.
  - assert (Hr : (0 < remaining)%Z) by lia.
    assert (Hpos : exists x, In x (map snd spare) /\ (0 < x)%Z).
    { apply zsum_nonneg_pos; [|lia]. apply Forall_forall. intros x Hx.
      apply in_map_iff in Hx. destruct Hx as [[k av] [<- Hin]].
      destruct Hinv as [_ [Hsp _]]. apply (Hsp k av Hin). }
    destruct Hpos as [x [Hx Hxp]]. apply in_map_iff in Hx.
    destruct Hx as [[k av] [E Hin]]. simpl in E. subst x.
    apply In_nth_error in Hin. destruct Hin as [i Hi].
    assert (HiL : i < List.length spare) by (apply nth_error_Some; congruence).
    destruct (reach_index (List.length spare) idx i HiL) as [d [Hd Hreach]].
    destruct (redistribute_progress d allocation spare remaining idx Hinv Hr) as
        [steps [al1 [sp1 [idx1 [Hs [Hrun [Hinv1 [Hz [Ha [Hk HL]]]]]]]]]].
    { exists k, av. rewrite Hreach. auto. }
    destruct (IH al1 sp1 (remaining - 1)%Z idx1) as [al' [Hrun' [Hk' [Hs' Hb']]]];
      [lia | assumption | lia |].
    exists al'. split; [|split; [congruence | split; [lia | assumption]]].
    intros fuel Hf.
    replace fuel with (steps + (fuel - steps)) by lia.
    rewrite Hrun. apply Hrun'. rewrite HL. simpl in Hf. lia.
Qed.
End Loop.

(* ================================================================== *)
(** * Sampling: both passes, the draw and the result *)
(* ================================================================== *)

Lemma spare0_length (total n : Z) (strata : list (stratum * list row)) :
  List.length (spare0 total n strata) <= List.length strata.
Proof.
  unfold spare0. induction strata as [|[k items] strata IH]; simpl; [lia|].
  rewrite length_app. destruct (alloc0 total n items <? Zlen items)%Z; simpl; lia.
Qed.

Lemma spare0_full_nil (total n : Z) (strata : list (stratum * list row)) :
  (forall k items, In (k, items) strata -> alloc0 total n items = Zlen items) ->
  spare0 total n strata = [].
Proof.
  unfold spare0. induction strata as [|[k items] strata IH]; intros H; simpl; [reflexivity|].
  rewrite (H k items) by now left. rewrite Z.ltb_irrefl. simpl.
  apply IH. intros. eapply H. right. eauto.
Qed.

Lemma first_alloc_sum_bounds (total n : Z) (strata : list (stratum * list row)) :
  Forall (fun s => snd s <> []) strata ->
  (Zlen strata <= alloc_sum (first_alloc total n strata) <= sizes strata)%Z.
Proof.
  unfold alloc_sum, first_alloc, sizes, zsum, Zlen.
  induction 1 as [|[k items] strata Hne Hall IH]; simpl List.length; simpl; [lia|].
  pose proof (alloc0_bounds total n items Hne). unfold Zlen in *. lia.
Qed.

Lemma sizes_zero_nil (strata : list (stratum * list row)) :
  Forall (fun s => snd s <> []) strata -> (sizes strata <= 0)%Z -> strata = [].
Proof.
  intros Hall Hs. destruct strata as [|s strata]; [reflexivity|]. exfalso.
  pose proof (first_alloc_sum_bounds 1 1 _ Hall) as H. unfold Zlen in H.
  simpl List.length in H. lia.
Qed.

Section Allocate.
Variable strata : list (stratum * list row).
Variables total n : Z.
Hypothesis strata_keys : NoDup (keys_of strata).
Hypothesis strata_nonempty : Forall (fun s => snd s <> []) strata.
Hypothesis total_sizes : total = sizes strata.
Hypothesis n_nonneg : (0 <= n)%Z.

Let first := first_alloc total n strata.

Lemma first_alloc_bounds (k : stratum) (a : Z) :
  assoc_get k first = Some a -> (1 <= a <= cap strata k)%Z.
Proof.
  intros H. apply first_alloc_get_inv in H. destruct H as [items [Hin ->]].
  rewrite (cap_In _ _ _ strata_keys Hin). apply alloc0_bounds.
  rewrite Forall_forall in strata_nonempty. apply (strata_nonempty _ Hin).
Qed.

(** The two passes end, and what they give. *)
Lemma allocate_spec :
  exists allocation,
    (forall fuel, Z.to_nat n * (2 * List.length strata) + 1 <= fuel ->
                  allocate fuel strata total n = Some allocation) /\
    keys_of allocation = keys_of strata /\
    (forall k a, assoc_get k allocation = Some a -> (1 <= a <= cap strata k)%Z) /\
    ((n <= alloc_sum first)%Z -> allocation = first) /\
    ((alloc_sum first < n)%Z -> alloc_sum allocation = Z.min n total) /\
    ((alloc_sum allocation < n)%Z ->
     forall k items, In (k, items) strata -> assoc_get k allocation = Some (Zlen items)).
Proof.
  assert (Hfp : first_pass strata total n [] n = (first, (n - alloc_sum first)%Z))
    by (rewrite first_pass_spec; [reflexivity | exact strata_keys]).
  pose proof (first_alloc_sum_bounds total n strata strata_nonempty) as Hb.
  fold first in Hb.
  destruct (Z_lt_dec 0 (n - alloc_sum first)) as [Hrem|Hrem].
  2:{ exists first. split; [|split; [apply first_alloc_keys|split; [apply first_alloc_bounds|]]].
      - intros fuel _. unfold allocate. rewrite Hfp.
        assert (E : (0 <? n - alloc_sum first)%Z = false) by (apply Z.ltb_ge; lia).
        now rewrite E.
      - split; [reflexivity|]. split; intros; lia. }
  assert (Hspare : spare_of strata first = Some (spare0 total n strata)).
  { apply spare_of_spec. intros k items Hin. now apply first_alloc_get. }
  assert (Hrun : forall fuel,
             allocate fuel strata total n =
             option_map fst
               (redistribute fuel first (n - alloc_sum first)%Z
                  (sort_desc snd (spare0 total n strata)) 0)).
  { intros fuel. unfold allocate. rewrite Hfp.
    assert (E : (0 <? n - alloc_sum first)%Z = true) by (apply Z.ltb_lt; lia).
    now rewrite E, Hspare. }
  destruct (Z_lt_dec total n) as [Hbig|Hsmall].
  - (* more is asked than there is: every stratum is taken whole *)
    assert (Hfull : forall k items, In (k, items) strata ->
                                    alloc0 total n items = Zlen items).
    { intros k items Hin.
      destruct (Z_le_dec total 0) as [Hz|Hz].
      - rewrite (sizes_zero_nil strata strata_nonempty) in Hin by lia. destruct Hin.
      - apply alloc0_full; try lia.
        rewrite Forall_forall in strata_nonempty. apply (strata_nonempty _ Hin). }
    assert (Hsum : alloc_sum first = total).
    { pose proof (spare0_sum total n strata strata_nonempty) as Hs.
      rewrite (spare0_full_nil _ _ _ Hfull) in Hs. fold first in Hs.
      unfold zsum in Hs. simpl in Hs. lia. }
    exists first.
    split; [|split; [apply first_alloc_keys|split; [apply first_alloc_bounds|]]].
    + intros fuel Hf. rewrite Hrun, (spare0_full_nil _ _ _ Hfull).
      destruct fuel; [lia|]. unfold sort_desc, sort_by. simpl fold_right.
      rewrite redistribute_exit by now right. reflexivity.
    + split; [reflexivity|]. split; [lia|].
      intros _ k items Hin. unfold first.
      rewrite (first_alloc_get _ _ _ _ _ strata_keys Hin). f_equal. eauto.
  - (* the quota fits: the loop hands out what remains *)
    set (spare := sort_desc snd (spare0 total n strata)).
    assert (Hperm : Permutation (spare0 total n strata) spare)
      by apply sort_by_perm.
    assert (Hinv : loop_inv (cap strata) first spare).
    { split; [|split].
      - apply (Permutation_NoDup (Permutation_map fst Hperm)).
        now apply spare0_keys.
      - intros k av Hin. apply (Permutation_in _ (Permutation_sym Hperm)) in Hin.
        apply spare0_In in Hin. destruct Hin as [items [Hin [-> Hpos]]].
        split; [lia|]. exists (alloc0 total n items).
        split; [now apply first_alloc_get|].
        rewrite (cap_In _ _ _ strata_keys Hin). lia.
      - apply first_alloc_bounds. }
    assert (Hroom : (n - alloc_sum first <= zsum (map snd spare))%Z).
    { rewrite <- (zsum_perm _ _ (Permutation_map snd Hperm)).
      rewrite (spare0_sum total n strata strata_nonempty). fold first. lia. }
    destruct (redistribute_total (cap strata) (Z.to_nat (n - alloc_sum first))
                first spare (n - alloc_sum first)%Z 0)
      as [allocation [Hfuel [Hk [Hs Hbd]]]]; [lia | assumption | assumption |].
    exists allocation. split; [|split; [|split; [exact Hbd|]]].
    + intros fuel Hf. rewrite Hrun. fold spare. rewrite Hfuel; [reflexivity|].
      assert (List.length spare <= List.length strata).
      { unfold spare, sort_desc. rewrite sort_by_length. apply spare0_length. }
      assert (Z.to_nat (n - alloc_sum first) <= Z.to_nat n) by (unfold Zlen in Hb; lia).
      nia.
    + unfold keys_of. rewrite Hk. apply first_alloc_keys.
    + split; [lia|]. split; lia.
Qed.
End Allocate.

(** ** The draw *)

Lemma removelast_length {A : Type} (l : list A) :
  List.length (removelast l) = List.length l - 1.
Proof.
  induction l as [|x l IH]; simpl; [reflexivity|].
  destruct l; simpl in *; lia.
Qed.

Section DrawFacts.
Variable G : generator.

Lemma sample_loop_length {A : Type} (k : nat) :
  forall (pool : list A) (st : rng_state G),
    k <= List.length pool -> List.length (fst (sample_loop G k pool st)) = k.
Proof.
  induction k as [|k IH]; intros pool st Hk; simpl; [reflexivity|].
  destruct (rng_below G st (List.length pool)) as [j0 st1].
  assert (HL : List.length pool <> 0) by lia.
  pose proof (Nat.mod_upper_bound j0 _ HL) as Hj.
  destruct (nth_error pool (j0 mod List.length pool)) as [x|] eqn:Ex;
    [|apply nth_error_None in Ex; lia].
  destruct (nth_error pool (List.length pool - 1)) as [z|] eqn:Ez;
    [|apply nth_error_None in Ez; lia].
  specialize (IH (removelast (set_nth (j0 mod List.length pool) z pool)) st1).
  destruct (sample_loop G k _ st1) as [rest st2]. simpl in *.
  f_equal. apply IH. rewrite removelast_length, set_nth_length. lia.
Qed.

Lemma random_sample_length {A : Type} (population : list A) (k : nat)
    (st : rng_state G) :
  k <= List.length population ->
  exists chosen st',
    random_sample G population k st = Some (chosen, st') /\ List.length chosen = k.
Proof.
  intros Hk. unfold random_sample.
  assert (E : (k <=? List.length population) = true) by now apply Nat.leb_le.
  rewrite E. pose proof (sample_loop_length k population st Hk) as H.
  destruct (sample_loop G k population st) as [chosen st']. eauto.
Qed.

Lemma swap_length {A : Type} (i j : nat) (x : list A) :
  List.length (swap i j x) = List.length x.
Proof.
  unfold swap. destruct (nth_error x i), (nth_error x j); auto.
  now rewrite !set_nth_length.
Qed.

Lemma shuffle_loop_length {A : Type} (i : nat) :
  forall (x : list A) (st : rng_state G),
    List.length (fst (shuffle_loop G i x st)) = List.length x.
Proof.
  induction i as [|i IH]; intros x st; [reflexivity|].
  cbn [shuffle_loop]. destruct (rng_below G st (S (S i))) as [j0 st1].
  rewrite IH. apply swap_length.
Qed.

Lemma random_shuffle_length {A : Type} (x : list A) (st : rng_state G) :
  List.length (fst (random_shuffle G x st)) = List.length x.
Proof. apply shuffle_loop_length. Qed.

Lemma draw_spec (allocation : list (stratum * Z)) (strata : list (stratum * list row)) :
  forall (sampled : list row) (st : rng_state G),
    (forall k items, In (k, items) strata ->
                     exists a, assoc_get k allocation = Some a /\
                               (1 <= a <= Zlen items)%Z) ->
    exists out st',
      draw G strata allocation sampled st = Some (out, st') /\
      Zlen out = (Zlen sampled + zsum (map (fun s => lookup allocation (fst s)) strata))%Z /\
      ((forall k items, In (k, items) strata ->
                        assoc_get k allocation = Some (Zlen items)) ->
       out = sampled ++ List.concat (map snd strata)).
Proof.
  induction strata as [|[k items] rest IH]; intros sampled st H.
  - exists sampled, st. simpl. split; [reflexivity|]. split.
    + unfold zsum. simpl. lia.
    + intros _. now rewrite app_nil_r.
  - destruct (H k items (or_introl eq_refl)) as [a [Ha Hb]].
    assert (Hrest : forall k' items', In (k', items') rest ->
                      exists a', assoc_get k' allocation = Some a' /\
                                 (1 <= a' <= Zlen items')%Z)
      by (intros; apply H; now right).
    cbn [draw]. rewrite Ha.
    assert (E0 : (a <=? 0)%Z = false) by (apply Z.leb_gt; lia). rewrite E0.
    assert (Hl : lookup allocation k = a) by (unfold lookup; now rewrite Ha).
    destruct (a <? Zlen items)%Z eqn:E1.
    + apply Z.ltb_lt in E1.
      destruct (random_sample_length items (Z.to_nat a) st) as [chosen [st1 [Es Hc]]];
        [unfold Zlen in *; lia|].
      rewrite Es.
      destruct (IH (sampled ++ chosen) st1 Hrest) as [out [st' [Ed [Hlen Hfull]]]].
      exists out, st'. split; [exact Ed|]. split.
      * rewrite Hlen, Zlen_app. unfold zsum. simpl. fold zsum. rewrite Hl.
        unfold Zlen at 2. rewrite Hc. lia.
      * intros Hf. specialize (Hf k items (or_introl eq_refl)).
        rewrite Ha in Hf. injection Hf as Hf. lia.
    + apply Z.ltb_ge in E1.
      destruct (IH (sampled ++ items) st Hrest) as [out [st' [Ed [Hlen Hfull]]]].
      exists out, st'. split; [exact Ed|]. split.
      * rewrite Hlen, Zlen_app. unfold zsum. simpl. fold zsum. rewrite Hl. lia.
      * intros Hf. rewrite Hfull by (intros; apply Hf; now right).
        simpl. now rewrite <- app_assoc.
Qed.
End DrawFacts.

Lemma sum_lookup (strata : list (stratum * list row)) :
  forall allocation,
    keys_of allocation = keys_of strata -> NoDup (keys_of strata) ->
    zsum (map (fun s => lookup allocation (fst s)) strata) = alloc_sum allocation.
Proof.
  unfold keys_of.
  induction strata as [|[k items] strata IH]; intros [|[k' a] allocation] Hk Hnd;
    simpl in Hk; try discriminate; [reflexivity|].
  injection Hk as -> Hk. inversion Hnd as [|? ? Hnin Hnd']; subst.
  assert (E1 : lookup ((k, a) :: allocation) k = a)
    by (unfold lookup; simpl; now rewrite stratum_eqb_refl).
  assert (E2 : map (fun s : stratum * list row => lookup ((k, a) :: allocation) (fst s)) strata
               = map (fun s => lookup allocation (fst s)) strata).
  { apply map_ext_in. intros [k2 it2] Hin. simpl. unfold lookup. simpl.
    assert (E : stratum_eqb k2 k = false).
    { apply stratum_eqb_neq. intros ->. apply Hnin. apply in_map_iff.
      exists (k, it2). auto. }
    now rewrite E. }
  cbn [map fst]. rewrite E1, E2.
  change (zsum (a :: map (fun s => lookup allocation (fst s)) strata))
    with (a + zsum (map (fun s => lookup allocation (fst s)) strata))%Z.
  rewrite (IH allocation Hk Hnd'). reflexivity.
Qed.

Lemma zsum_map_le {A : Type} (f g : A -> Z) (l : list A) :
  (forall x, In x l -> (f x <= g x)%Z) -> (zsum (map f l) <= zsum (map g l))%Z.
Proof.
  unfold zsum. induction l as [|x l IH]; intros H; simpl; [lia|].
  pose proof (H x (or_introl eq_refl)).
  assert (fold_right Z.add 0 (map f l) <= fold_right Z.add 0 (map g l))%Z
    by (apply IH; intros; apply H; now right).
  lia.
Qed.

Lemma filter_none {A : Type} (f : A -> bool) (l : list A) :
  (forall x, In x l -> f x = false) -> filter f l = [].
Proof.
  induction l as [|x l IH]; intros H; simpl; [reflexivity|].
  rewrite (H x (or_introl eq_refl)). apply IH. intros. apply H. now right.
Qed.

Lemma row_in_In (r : row) (l : list row) : In r l -> row_in r l = true.
Proof.
  intros H. unfold row_in. apply existsb_exists. exists r. split; [assumption|].
  unfold row_is. destruct (row_dec r r); [reflexivity | congruence].
Qed.

Lemma slice_to_length {A : Type} (n : Z) (l : list A) :
  (0 <= n)%Z -> Zlen (slice_to n l) = Z.min n (Zlen l).
Proof.
  intros Hn. unfold slice_to, Zlen.
  assert (E : (0 <=? n)%Z = true) by now apply Z.leb_le.
  rewrite E, length_firstn. lia.
Qed.

(** ** The sampler as a whole *)

Section SamplerFacts.
Variable G : generator.
Variables (rows : list row) (n seed : Z).
Variables (code_field : string) (source_field lang_field : option string).
Hypothesis n_nonneg : (0 <= n)%Z.

Let strata := build_strata rows code_field source_field lang_field.
Let total := Zlen rows.

Lemma stratified_sample_spec (fuel : nat) :
  sample_fuel rows n <= fuel ->
  exists allocation sample,
    allocate fuel strata total n = Some allocation /\
    stratified_sample G fuel rows n seed code_field source_field lang_field
      = Some sample /\
    Zlen sample = Z.min n total /\
    Zlen sample = Z.min n (alloc_sum allocation) /\
    ((alloc_sum (first_alloc total n strata) <= n)%Z ->
     alloc_sum allocation = Zlen sample).
Proof.
  intros Hfuel.
  destruct (build_strata_spec code_field source_field lang_field rows)
    as [Hkeys [Hne Hperm]]. fold strata in Hkeys, Hne, Hperm.
  assert (Htotal : total = sizes strata)
    by (unfold total, strata; now rewrite sizes_build).
  destruct (allocate_spec strata total n Hkeys Hne Htotal n_nonneg)
    as [allocation [Hrun [Hk [Hb [Hfirst [Hlow Hfull]]]]]].
  assert (Hlen : List.length strata <= List.length rows).
  { pose proof (first_alloc_sum_bounds total n strata Hne) as H.
    rewrite <- Htotal in H. unfold total, Zlen in H. lia. }
  assert (Ha : allocate fuel strata total n = Some allocation).
  { apply Hrun. unfold sample_fuel in Hfuel. nia. }
  assert (Hdraw : forall k items, In (k, items) strata ->
                    exists a, assoc_get k allocation = Some a /\
                              (1 <= a <= Zlen items)%Z).
  { intros k items Hin.
    destruct (assoc_get k allocation) as [a|] eqn:E.
    - exists a. split; [reflexivity|]. rewrite <- (cap_In _ _ _ Hkeys Hin). now apply Hb.
    - exfalso. apply assoc_get_None in E. apply E. fold (keys_of allocation).
      rewrite Hk. unfold keys_of. apply in_map_iff. exists (k, items). auto. }
  destruct (draw_spec G allocation strata [] (rng_seed G seed) Hdraw)
    as [sampled [st1 [Ed [Hs Hall]]]].
  rewrite (sum_lookup strata allocation Hk Hkeys) in Hs.
  change (Zlen (@nil row)) with 0%Z in Hs. rewrite Z.add_0_l in Hs.
  assert (Hle : (alloc_sum allocation <= total)%Z).
  { rewrite <- (sum_lookup strata allocation Hk Hkeys), Htotal. unfold sizes.
    apply zsum_map_le. intros [k items] Hin. simpl.
    destruct (Hdraw k items Hin) as [a [E Hab]]. unfold lookup. rewrite E. lia. }
  exists allocation.
  unfold stratified_sample. fold strata. fold total. rewrite Ha, Ed.
  destruct (Zlen sampled <? n)%Z eqn:Elt.
  - apply Z.ltb_lt in Elt.
    assert (Hfull' : forall k items, In (k, items) strata ->
                       assoc_get k allocation = Some (Zlen items))
      by (apply Hfull; lia).
    specialize (Hall Hfull'). simpl in Hall.
    assert (Hpool : filter (fun r => negb (row_in r sampled)) rows = []).
    { apply filter_none. intros r Hr. rewrite row_in_In; [reflexivity|].
      rewrite Hall. apply (Permutation_in _ (Permutation_sym Hperm) Hr). }
    rewrite Hpool.
    assert (E0 : Z.to_nat (Z.min (n - Zlen sampled) (Zlen (@nil row))) = 0)
      by (unfold Zlen at 2; simpl; lia).
    rewrite E0. cbn [random_sample List.length Nat.leb sample_loop].
    rewrite app_nil_r.
    eexists. split; [reflexivity|]. split; [reflexivity|].
    rewrite slice_to_length by assumption.
    assert (Hshuf : Zlen (fst (random_shuffle G sampled st1)) = Zlen sampled)
      by (unfold Zlen; now rewrite random_shuffle_length).
    rewrite Hshuf.
    assert (Hst : Zlen sampled = total).
    { rewrite Hall, <- sizes_concat. symmetry. exact Htotal. }
    split; [lia|]. split; lia.
  - apply Z.ltb_ge in Elt.
    eexists. split; [reflexivity|]. split; [reflexivity|].
    rewrite slice_to_length by assumption.
    assert (Hshuf : Zlen (fst (random_shuffle G sampled st1)) = Zlen sampled)
      by (unfold Zlen; now rewrite random_shuffle_length).
    rewrite Hshuf.
    split; [lia|]. split; [lia|].
    intros Hsum.
    destruct (Z_lt_dec (alloc_sum (first_alloc total n strata)) n) as [Hl|Hl].
    + rewrite (Hlow Hl). lia.
    + rewrite (Hfirst ltac:(lia)). lia.
Qed.
End SamplerFacts.






(* ================================================================== *)
(** * The processed ids *)
(* ================================================================== *)

Section ResumeFacts.
Variable json_loads : string -> option json.



End ResumeFacts.




(* ================================================================== *)
(** * The sweep *)
(* ================================================================== *)



Lemma batches_of_concat {A : Type} (size : nat) (fuel : nat) :
  forall l : list A,
    0 < size -> List.length l <= fuel ->
    List.concat (batches_of fuel size l) = l.
Proof.
  induction fuel as [|fuel IH]; intros l Hs Hl.
  - destruct l; [reflexivity | simpl in Hl; lia].
  - destruct l as [|x l]; [reflexivity|].
    cbn [batches_of List.concat]. rewrite IH; [apply firstn_skipn | assumption |].
    rewrite length_skipn. cbn [List.length] in *. lia.
Qed.



Section SweepFacts.
Variable repr_value : json -> string.
Variable float_of_str : string -> option pyfloat.
Variable json_loads : string -> option json.
Variable json_dumps : json -> string.
Variable PROMPT_TEMPLATE : string.
Variable call_chat_completion : string -> string -> pyfloat -> json.
Variable sha1_text : string -> string.
Variable exception_text : string.

Let run_one := run_one_judgement repr_value float_of_str json_loads json_dumps
                 PROMPT_TEMPLATE call_chat_completion.
Let collect_ := collect repr_value float_of_str json_loads json_dumps
                  PROMPT_TEMPLATE call_chat_completion exception_text.
Let id_of := item_id_of sha1_text.
Let sweep_ := process_full_data repr_value float_of_str json_loads json_dumps
                PROMPT_TEMPLATE call_chat_completion sha1_text exception_text.
Let load := load_processed_ids_from_judgements json_loads.

Lemma run_one_judgement_ids (iid code model : string) (t : pyfloat) (rep : Z)
    (r : ItemResult) :
  run_one iid code model t rep = Returns r -> item_id r = iid /\ replica r = rep.
Proof.
  subst run_one. intros H. unfold run_one_judgement in H.
  repeat match type of H with
         | context [match ?x with _ => _ end] => destruct x eqn:?; try discriminate
         end;
    injection H as <-; split; reflexivity.
Qed.

Lemma collect_key (model : string) (j : job) :
  no_raise repr_value float_of_str json_loads json_dumps
    PROMPT_TEMPLATE call_chat_completion ->
  result_key (collect_ model j) = job_key j.
Proof.
  intros Hn. destruct j as [[[iid code] rep] t]. subst collect_. unfold collect.
  fold (run_one iid code model t rep).
  destruct (run_one iid code model t rep) as [r|] eqn:E.
  - apply run_one_judgement_ids in E. destruct E as [<- <-]. reflexivity.
  - exfalso. eapply Hn; eauto.
Qed.

Section Batches.
Variables (model code_field : string) (replicas : nat) (temps : list pyfloat).

Let jobs_of := jobs_of_row sha1_text code_field replicas temps.
Let batches_ := process_batches repr_value float_of_str json_loads json_dumps
                  PROMPT_TEMPLATE call_chat_completion sha1_text exception_text
                  model code_field replicas temps.

Lemma process_batches_spec (batches : list (list row)) :
  forall acc,
    exists (R : list ItemResult) (W : list json),
      dispatched (batches_ batches acc)
        = dispatched acc ++ flat_map jobs_of (List.concat batches) /\
      appended (batches_ batches acc) = appended acc ++ R /\
      written (batches_ batches acc) = written acc ++ W /\
      Permutation R (map (collect_ model) (flat_map jobs_of (List.concat batches))) /\
      Forall2 merged_of W R /\
      file_lines (judgements_file (batches_ batches acc))
        = file_lines (judgements_file acc) ++ map json_dumps W.
Proof.
  induction batches as [|batch rest IH]; intros acc.
  - exists [], []. simpl. rewrite !app_nil_r. repeat split; constructor.
  - subst batches_. cbn [process_batches]. unfold process_batch.
    set (jobs := flat_map (jobs_of_row sha1_text code_field replicas temps) batch).
    set (res := sort_by result_key_lt
                  (map (collect repr_value float_of_str json_loads json_dumps
                          PROMPT_TEMPLATE call_chat_completion exception_text model) jobs)).
    set (rows := map (merged_row (item_map_of sha1_text code_field batch)) res).
    destruct (IH (mkSweep (write_jsonl_append json_dumps (judgements_file acc) rows)
                          (dispatched acc ++ jobs) (appended acc ++ res)
                          (written acc ++ rows)))
      as [R [W [Hd [Ha [Hw [Hp [Hf Hl]]]]]]].
    exists (res ++ R), (rows ++ W).
    cbn [dispatched appended written judgements_file] in *.
    rewrite Hd, Ha, Hw, Hl. cbn [List.concat]. rewrite flat_map_app, map_app.
    rewrite <- !app_assoc. split; [reflexivity|]. split; [reflexivity|].
    split; [reflexivity|]. split; [|split].
    + apply Permutation_app; [|exact Hp]. subst res jobs. symmetry. apply sort_by_perm.
    + apply Forall2_app; [|exact Hf]. subst rows.
      clear. induction res as [|r res IH]; simpl; constructor; auto.
      unfold merged_row, merged_of. eexists. reflexivity.
    + unfold write_jsonl_append. simpl. rewrite map_app, <- app_assoc. reflexivity.
Qed.
End Batches.

(** What a sweep does, from its remaining rows. *)
Lemma process_full_data_spec (rows : list row) (path : option (list string))
    (replicas : nat) (model : string) (temps : list pyfloat)
    (code_field : string) (batch_size : nat) (sw : sweep) :
  sweep_ rows path replicas model temps code_field batch_size = Returns sw ->
  let temps' := match temps with [] => [Fin (1 # 10); Fin (3 # 10)] | _ => temps end in
  let remaining :=
    filter (fun r => negb (id_in (id_of code_field r) (load path))) rows in
  let jobs := flat_map (jobs_of_row sha1_text code_field replicas temps') remaining in
  rows <> [] /\
  dispatched sw = jobs /\
  Permutation (appended sw) (map (collect_ model) jobs) /\
  Forall2 merged_of (written sw) (appended sw) /\
  file_lines (judgements_file sw) = file_lines path ++ map json_dumps (written sw) /\
  (remaining = [] -> sw = mkSweep path [] [] []).
Proof.
  intros H. cbv zeta. unfold sweep_, id_of, load in *. unfold process_full_data in H.
  set (temps' := match temps with [] => [Fin (1 # 10); Fin (3 # 10)] | _ => temps end) in *.
  set (remaining :=
         filter (fun r => negb (id_in (item_id_of sha1_text code_field r)
                                  (load_processed_ids_from_judgements json_loads path)))
                rows) in *.
  destruct rows as [|r0 rows0] eqn:Erows; [discriminate|]. rewrite <- Erows in *.
  split; [subst; discriminate|].
  destruct remaining as [|x rem'] eqn:Erem.
  { injection H as <-. simpl. rewrite app_nil_r.
    repeat split; constructor. }
  rewrite <- Erem in *.
  destruct batch_size as [|bs]; [discriminate|]. injection H as <-.
  destruct (process_batches_spec model code_field replicas temps'
              (batches_of (List.length remaining) (S bs) remaining)
              (mkSweep path [] [] []))
    as [R [W [Hd [Ha [Hw [Hp [Hf Hl]]]]]]].
  rewrite batches_of_concat in Hd, Hp by lia.
  cbn [dispatched appended written judgements_file] in *.
  simpl in Ha, Hw. rewrite Hd, Ha, Hw, Hl.
  split; [reflexivity|]. split; [exact Hp|]. split; [exact Hf|].
  split; [reflexivity|]. intros E. rewrite E in Erem. discriminate.
Qed.
End SweepFacts.

Lemma Forall2_In_r {A B : Type} (R : A -> B -> Prop) (la : list A) (lb : list B) (b : B) :
  Forall2 R la lb -> In b lb -> exists a, In a la /\ R a b.
Proof.
  induction 1 as [|x y la lb Hxy Hrest IH]; simpl; [tauto|].
  intros [<-|H]; [exists x; auto|]. destruct (IH H) as [a [Ha Hr]]. exists a. auto.
Qed.


Lemma filter_length_perm {A : Type} (f : A -> bool) (l l' : list A) :
  Permutation l l' -> List.length (filter f l) = List.length (filter f l').
Proof. intros H. apply Permutation_length. now apply filter_perm. Qed.

Section JobFacts.
Variable sha1_text : string -> string.
Variables (code_field : string) (replicas : nat) (temps : list pyfloat).

Let id_of := item_id_of sha1_text code_field.
Let jobs_of := jobs_of_row sha1_text code_field replicas temps.

Lemma jobs_of_row_keys (r : row) :
  map job_key (jobs_of r) = map (fun rep => (id_of r, Z.of_nat (rep + 1))) (seq 0 replicas).
Proof. unfold jobs_of, jobs_of_row. rewrite map_map. reflexivity. Qed.




End JobFacts.

Lemma filter_map_swap {A B : Type} (g : A -> B) (f : B -> bool) (l : list A) :
  filter f (map g l) = map g (filter (fun x => f (g x)) l).
Proof.
  induction l as [|x l IH]; simpl; [reflexivity|].
  destruct (f (g x)); simpl; now rewrite IH.
Qed.

Section SweepClaims.
Variable repr_value : json -> string.
Variable float_of_str : string -> option pyfloat.
Variable json_loads : string -> option json.
Variable json_dumps : json -> string.
Variable PROMPT_TEMPLATE : string.
Variable call_chat_completion : string -> string -> pyfloat -> json.
Variable sha1_text : string -> string.
Variable exception_text : string.

Let sweep_ := process_full_data repr_value float_of_str json_loads json_dumps
                PROMPT_TEMPLATE call_chat_completion sha1_text exception_text.
Let collect_ := collect repr_value float_of_str json_loads json_dumps
                  PROMPT_TEMPLATE call_chat_completion exception_text.
Let load := load_processed_ids_from_judgements json_loads.

Variables (rows : list row) (path : option (list string)) (replicas : nat).
Variables (model : string) (temps : list pyfloat) (code_field : string).
Variable batch_size : nat.

Let id_of := item_id_of sha1_text code_field.
Let temps' := match temps with [] => [Fin (1 # 10); Fin (3 # 10)] | _ => temps end.
Let remaining := filter (fun r => negb (id_in (id_of r) (load path))) rows.
Let jobs := flat_map (jobs_of_row sha1_text code_field replicas temps') remaining.

Lemma sweep_returns :
  rows <> [] -> remaining = [] \/ 0 < batch_size ->
  exists sw, sweep_ rows path replicas model temps code_field batch_size = Returns sw.
Proof.
  intros Hrows Hok. unfold sweep_, process_full_data.
  unfold remaining, id_of, load in *.
  destruct rows as [|r0 rows0]; [congruence|].
  destruct (filter _ (r0 :: rows0)) as [|x rest]; [eauto|].
  destruct batch_size; [|eauto]. destruct Hok as [K|K]; [discriminate | lia].
Qed.







End SweepClaims.

Lemma judge_keep_quiet :
  no_raise repr_ref float_of_str_ref json_loads_ref json_dumps_ref
    PROMPT_TEMPLATE_ref judge_keep.
Proof.
  intros iid code model t rep. vm_compute. discriminate.
Qed.

Lemma first_sweep_returns :
  sweep_ref judge_keep corpus_two None 2 = Returns first_sweep.
Proof. vm_compute. reflexivity. Qed.





(* ================================================================== *)
(** * Further properties: the vote *)
(* ================================================================== *)

Lemma with_severity_missing (severity : list (string * Z)) (top : list string) :
  with_severity severity top = None ->
  exists d, In d top /\ dict_get d severity = None.
Proof.
  induction top as [|x top IH]; simpl; [discriminate|].
  destruct (dict_get x severity) as [r|] eqn:E.
  - destruct (with_severity severity top) eqn:Ew; [discriminate|].
    intros _. destruct (IH eq_refl) as [d [Hd Hn]]. exists d. auto.
  - intros _. exists x. auto.
Qed.

(** What the tie-break does with two or more tied decisions: it fails
    when one of them has no rank, and otherwise picks one of them. *)
Lemma tie_break_cases (top : list string) :
  NoDup top -> 2 <= List.length top ->
  ((exists d, In d top /\ dict_get d SEVERITY = None) /\
   tie_break SEVERITY top = None) \/
  ((forall d, In d top -> In d DECISIONS) /\
   exists d, tie_break SEVERITY top = Some d /\ In d top).
Proof.
  intros Hnd Hlen.
  destruct (with_severity SEVERITY top) as [keyed|] eqn:Ew.
  - right.
    assert (Hval : forall d, In d top -> In d DECISIONS).
    { intros d Hd. apply SEVERITY_valid. intros Hn.
      rewrite (with_severity_none _ _ _ Hd Hn) in Ew. discriminate. }
    split; [exact Hval|].
    destruct (tie_break_max top Hnd Hlen Hval) as [d [E [Hd _]]]. eauto.
  - left. split; [now apply with_severity_missing|].
    unfold tie_break. now rewrite Ew.
Qed.

Lemma top_of_nonempty (js : list Judgement) :
  js <> [] -> top_decisions (count_votes js) <> [].
Proof.
  intros Hne. rewrite count_votes_votes_from. apply top_decisions_nonempty.
  destruct js; [congruence | discriminate].
Qed.

Lemma consensus_decision (js : list Judgement) (J : Judgement) :
  js <> [] -> consensus js = Some J ->
  final_decision SEVERITY (top_decisions (count_votes js)) = Some (decision J).
Proof.
  intros Hne H. rewrite (consensus_nonempty js Hne) in H.
  destruct (final_decision _ _); [injection H as <-; reflexivity | discriminate].
Qed.

(** X1.  A decision that has strictly more votes than every other one is
    the decision of the consensus, and [consensus] does not raise: the
    table of ranks is not read, so this holds for a decision outside
    KEEP, KEEP_WITH_TAG and REMOVE as well. *)
Theorem consensus_majority_wins (js : list Judgement) (d : string) :
  In d (map decision js) ->
  (forall d', d' <> d ->
              count_occ string_dec (map decision js) d'
              < count_occ string_dec (map decision js) d) ->
  exists J, consensus js = Some J /\ decision J = d.
Proof.
  intros Hin Hmaj.
  assert (Hne : js <> []) by (intros ->; destruct Hin).
  assert (Htop : top_decisions (count_votes js) = [d]).
  { assert (Hd : In d (top_decisions (count_votes js))).
    { apply tied_top. split; [exact Hin|]. intros d'.
      destruct (string_dec d' d) as [->|Hn]; [lia|].
      specialize (Hmaj d' Hn). lia. }
    assert (Hall : forall x, In x (top_decisions (count_votes js)) -> x = d).
    { intros x Hx. apply tied_top in Hx. destruct Hx as [_ Hx].
      destruct (string_dec x d) as [|Hn]; [assumption|].
      specialize (Hmaj x Hn). specialize (Hx d). lia. }
    pose proof (top_NoDup js) as Hnd.
    destruct (top_decisions (count_votes js)) as [|x [|y l]].
    - destruct Hd.
    - f_equal. apply Hall. now left.
    - exfalso. inversion Hnd as [|? ? Hx _]. apply Hx.
      rewrite (Hall x), (Hall y); simpl; auto. }
  rewrite (consensus_nonempty js Hne), Htop. simpl. eauto.
Qed.

Lemma consensus_majority_wins_witness :
  exists J,
    consensus [mkJudgement "MAYBE" [] (Fin 1) (Fin 1) (Fin 1) "a";
               mkJudgement "KEEP" [] (Fin 2) (Fin 2) (Fin 1) "b";
               mkJudgement "MAYBE" [] (Fin 3) (Fin 3) (Fin 1) "c"] = Some J /\
    decision J = "MAYBE".
Proof.
  apply consensus_majority_wins.
  - simpl. auto.
  - intros d' Hn.
    replace (count_occ string_dec
               (map decision
                  [mkJudgement "MAYBE" [] (Fin 1) (Fin 1) (Fin 1) "a";
                   mkJudgement "KEEP" [] (Fin 2) (Fin 2) (Fin 1) "b";
                   mkJudgement "MAYBE" [] (Fin 3) (Fin 3) (Fin 1) "c"]) "MAYBE")
      with 2 by (vm_compute; reflexivity).
    cbn [map decision count_occ].
    destruct (string_dec "MAYBE" d') as [E|_]; [congruence|].
    destruct (string_dec "KEEP" d'); lia.
Defined.

(** X2.  [consensus] raises (the [KeyError] of [SEVERITY[d]]) exactly
    when two or more decisions tie for the most votes and one of the tied
    decisions is not a key of [SEVERITY]; in every other case it returns a
    judgement. *)
Theorem consensus_raises_iff_tie_with_unknown (js : list Judgement) :
  consensus js = None <->
  exists d1 d2 d,
    tied js d1 /\ tied js d2 /\ d1 <> d2 /\
    tied js d /\ dict_get d SEVERITY = None.
Proof.
  split.
  - intros H.
    assert (Hne : js <> []) by (intros ->; discriminate).
    rewrite (consensus_nonempty js Hne) in H.
    pose proof (top_NoDup js) as Hnd.
    pose proof (top_of_nonempty js Hne) as Htop.
    assert (Hin : forall x, In x (top_decisions (count_votes js)) -> tied js x)
      by (intros x; apply tied_top).
    destruct (top_decisions (count_votes js)) as [|x [|y l]] eqn:Et.
    + congruence.
    + discriminate.
    + destruct (tie_break_cases (x :: y :: l) Hnd) as [[[d [Hd Hn]] _]|[_ [d [E _]]]];
        [simpl; lia | | ].
      * exists x, y, d.
        split; [apply Hin; simpl; auto|].
        split; [apply Hin; simpl; auto|].
        split; [intros ->; inversion Hnd as [|? ? Hx _]; apply Hx; now left|].
        split; [apply Hin; exact Hd | exact Hn].
      * unfold final_decision in H. rewrite E in H. discriminate.
  - intros [d1 [d2 [d [H1 [H2 [Hn [Hd Hk]]]]]]].
    assert (Hne : js <> []) by (intros ->; destruct H1 as [[] _]).
    rewrite (consensus_nonempty js Hne).
    apply tied_top in H1, H2, Hd.
    assert (Hf : final_decision SEVERITY (top_decisions (count_votes js)) = None).
    { destruct (top_decisions (count_votes js)) as [|x [|y l]] eqn:Et.
      - destruct H1.
      - destruct H1 as [<-|[]], H2 as [<-|[]]. congruence.
      - unfold final_decision, tie_break.
        now rewrite (with_severity_none _ _ _ Hd Hk). }
    now rewrite Hf.
Qed.

(** X3.  Whenever [consensus] returns on a non-empty list, its decision
    is a decision of some replica, and one that no other decision
    outvotes: the vote never invents a decision. *)
Theorem consensus_decision_is_top_voted (js : list Judgement) (J : Judgement) :
  js <> [] -> consensus js = Some J ->
  In (decision J) (map decision js) /\
  forall d', count_occ string_dec (map decision js) d'
             <= count_occ string_dec (map decision js) (decision J).
Proof.
  intros Hne H. apply (consensus_decision js J Hne) in H.
  change (tied js (decision J)). apply tied_top.
  pose proof (top_NoDup js) as Hnd.
  destruct (top_decisions (count_votes js)) as [|x [|y l]] eqn:Et.
  - discriminate.
  - simpl in H. injection H as <-. now left.
  - destruct (tie_break_cases (x :: y :: l) Hnd) as [[_ E]|[_ [d [E Hd]]]];
      [simpl; lia | | ]; unfold final_decision in H; rewrite E in H.
    + discriminate.
    + injection H as <-. exact Hd.
Qed.

Lemma consensus_decision_is_top_voted_witness :
  exists J,
    consensus [mkJudgement "KEEP" [] (Fin 4) (Fin 4) (Fin 1) "fine";
               mkJudgement "REMOVE" [] (Fin 1) (Fin 1) (Fin 1) "broken"] = Some J /\
    In (decision J) ["KEEP"; "REMOVE"].
Proof.
  eexists. split; [vm_compute; reflexivity|].
  apply (consensus_decision_is_top_voted
           [mkJudgement "KEEP" [] (Fin 4) (Fin 4) (Fin 1) "fine";
            mkJudgement "REMOVE" [] (Fin 1) (Fin 1) (Fin 1) "broken"]).
  - discriminate.
  - vm_compute. reflexivity.
Defined.

(* ================================================================== *)
(** * Further properties: files of JSON lines *)
(* ================================================================== *)

Section ReadFacts.
Variable json_loads : string -> option json.


End ReadFacts.




(* ================================================================== *)
(** * Further properties: the full sweep *)
(* ================================================================== *)

(** [{**a, **b}[k]] is [b[k]] when [b] has the key, [a[k]] otherwise. *)
Lemma dict_merge_get {V : Type} (k : string) (b : list (string * V)) :
  forall a,
    NoDup (map fst b) ->
    dict_get k (dict_merge a b)
    = match dict_get k b with Some v => Some v | None => dict_get k a end.
Proof.
  unfold dict_merge.
  induction b as [|[k1 v1] b IH]; intros a Hnd; simpl; [reflexivity|].
  inversion Hnd as [|? ? Hnin Hnd']; subst.
  rewrite IH by assumption.
  destruct (String.eqb k k1) eqn:E.
  - apply String.eqb_eq in E. subst k1.
    assert (Hn : dict_get k b = None) by now apply dict_get_None.
    rewrite Hn. apply dict_get_set_eq.
  - apply String.eqb_neq in E.
    destruct (dict_get k b); [reflexivity|].
    apply dict_get_set_neq. congruence.
Qed.

Lemma asdict_keys (r : ItemResult) :
  map fst (asdict r)
  = ["item_id"; "replica"; "decision"; "labels"; "arkts_score"; "quality_score";
     "confidence"; "rationale"; "model"; "temperature"; "prompt_tokens";
     "completion_tokens"; "total_tokens"; "raw_response"].
Proof. reflexivity. Qed.

Lemma asdict_NoDup (r : ItemResult) : NoDup (map fst (asdict r)).
Proof.
  rewrite asdict_keys.
  repeat (constructor; [simpl; intuition discriminate|]). constructor.
Qed.

(** X6.  In a row of the judgements file the fields of the result win
    over the fields of the input record: a key of the result ([item_id],
    [replica], [decision], [labels], the scores, [rationale], [model],
    [temperature], the token counts, [raw_response]) holds the result's
    value, whatever the record had under it, and every other key holds the
    record's value. *)
Theorem merged_row_fields (item_map : list (string * row)) (r : ItemResult)
    (k : string) :
  let original :=
    match dict_get (item_id r) item_map with Some o => row_json o | None => [] end in
  exists d,
    merged_row item_map r = JDict d /\
    dict_get k d
    = match dict_get k (asdict r) with
      | Some v => Some v
      | None => dict_get k original
      end.
Proof.
  cbv zeta. unfold merged_row. eexists. split; [reflexivity|].
  apply dict_merge_get, asdict_NoDup.
Qed.

(** ** The order of a batch *)

Lemma ltb_asym (a b : string) : String.ltb a b = true -> String.ltb b a = false.
Proof.
  intros H. destruct (String.ltb b a) eqn:E; [|reflexivity].
  pose proof (ltb_trans _ _ _ H E) as K. rewrite ltb_irrefl in K. discriminate.
Qed.

Lemma ltb_cases (a b : string) :
  (String.ltb a b = true /\ String.ltb b a = false /\ a <> b) \/
  (a = b /\ String.ltb a b = false /\ String.ltb b a = false) \/
  (String.ltb b a = true /\ String.ltb a b = false /\ a <> b).
Proof.
  destruct (string_dec a b) as [->|Hne].
  - right. left. rewrite ltb_irrefl. auto.
  - destruct (ltb_total a b Hne) as [H|H].
    + left. split; [assumption|]. split; [now apply ltb_asym | assumption].
    + right. right. split; [assumption|]. split; [now apply ltb_asym | assumption].
Qed.

Lemma result_key_lt_spec (a b : ItemResult) :
  result_key_lt a b = true <->
  String.ltb (item_id a) (item_id b) = true \/
  (item_id a = item_id b /\ (replica a < replica b)%Z).
Proof.
  unfold result_key_lt. rewrite orb_true_iff, andb_true_iff, String.eqb_eq, Z.ltb_lt.
  reflexivity.
Qed.

Lemma result_key_lt_asym (a b : ItemResult) :
  result_key_lt a b = true -> result_key_lt b a = false.
Proof.
  intros H. apply result_key_lt_spec in H.
  destruct (result_key_lt b a) eqn:E; [|reflexivity].
  apply result_key_lt_spec in E.
  destruct (ltb_cases (item_id a) (item_id b)) as [[H1 [H2 H3]]|[[H1 [H2 H3]]|[H1 [H2 H3]]]];
    destruct H as [H|[H H']], E as [E|[E E']]; try congruence; lia.
Qed.

Lemma result_key_le_trans (a b c : ItemResult) :
  result_key_lt b a = false -> result_key_lt c b = false ->
  result_key_lt c a = false.
Proof.
  intros H1 H2. destruct (result_key_lt c a) eqn:E; [|reflexivity]. exfalso.
  apply result_key_lt_spec in E.
  assert (N1 : ~ (String.ltb (item_id b) (item_id a) = true \/
                  (item_id b = item_id a /\ (replica b < replica a)%Z)))
    by (rewrite <- result_key_lt_spec; congruence).
  assert (N2 : ~ (String.ltb (item_id c) (item_id b) = true \/
                  (item_id c = item_id b /\ (replica c < replica b)%Z)))
    by (rewrite <- result_key_lt_spec; congruence).
  destruct (ltb_cases (item_id a) (item_id b)) as [[A1 [A2 A3]]|[[A1 [A2 A3]]|[A1 [A2 A3]]]];
    destruct (ltb_cases (item_id b) (item_id c)) as [[B1 [B2 B3]]|[[B1 [B2 B3]]|[B1 [B2 B3]]]];
    try (apply N1; now left); try (apply N2; now left).
  - destruct E as [E|[E _]].
    + pose proof (ltb_trans _ _ _ A1 B1) as K. apply ltb_asym in K. congruence.
    + rewrite E in B1. apply ltb_asym in B1. congruence.
  - rewrite <- B1 in E. destruct E as [E|[E _]]; congruence.
  - rewrite A1 in E. destruct E as [E|[E _]]; [congruence|].
    rewrite E in B1. rewrite ltb_irrefl in B1. discriminate.
  - rewrite A1, <- B1 in *. destruct E as [E|[_ E]]; [rewrite ltb_irrefl in E; discriminate|].
    apply N1. right. split; [reflexivity|].
    destruct (Z_lt_dec (replica b) (replica a)); [assumption|].
    exfalso. apply N2. right. split; [reflexivity | lia].
Qed.

Section StableSort.
Context {A : Type}.
Variable lt : A -> A -> bool.
Hypothesis lt_asym : forall a b, lt a b = true -> lt b a = false.
Hypothesis le_trans : forall a b c, lt b a = false -> lt c b = false -> lt c a = false.

Lemma insert_sorted_ordered (x : A) (l : list A) :
  StronglySorted (fun a b => lt b a = false) l ->
  StronglySorted (fun a b => lt b a = false) (insert_sorted lt x l).
Proof.
  intros Hs. induction Hs as [|y r Hs IH Hall]; simpl.
  - constructor; constructor.
  - destruct (lt y x) eqn:E.
    + constructor; [exact IH|].
      rewrite Forall_forall in *. intros z Hz.
      apply (Permutation_in _ (Permutation_sym (insert_sorted_perm lt x r))) in Hz.
      destruct Hz as [<-|Hz]; [now apply lt_asym | now apply Hall].
    + constructor; [constructor; assumption|].
      constructor; [assumption|].
      rewrite Forall_forall in *. intros z Hz.
      apply le_trans with y; [assumption | now apply Hall].
Qed.

(** The sort yields a list in which no element is followed by a smaller
    one. *)
Lemma sort_by_ordered (l : list A) :
  StronglySorted (fun a b => lt b a = false) (sort_by lt l).
Proof.
  induction l as [|x l IH]; simpl; [constructor|].
  now apply insert_sorted_ordered.
Qed.
End StableSort.

(** The number of batches the loop runs: the ceiling of the quotient. *)
Lemma batches_of_shape {A : Type} (size : nat) (fuel : nat) :
  forall l : list A,
    0 < size -> List.length l <= fuel ->
    Forall (fun b => 1 <= List.length b <= size) (batches_of fuel size l) /\
    List.length (batches_of fuel size l) = (List.length l + size - 1) / size /\
    (forall i, S i < List.length (batches_of fuel size l) ->
               List.length (nth i (batches_of fuel size l) []) = size).
Proof.
  induction fuel as [|fuel IH]; intros l Hs Hl.
  - destruct l; [|simpl in Hl; lia]. simpl.
    split; [constructor|]. split; [|intros; lia].
    symmetry. apply Nat.div_small. lia.
  - destruct l as [|x l].
    { simpl. split; [constructor|]. split; [|intros; lia].
      symmetry. apply Nat.div_small. lia. }
    cbn [batches_of].
    assert (Hsk : List.length (skipn size (x :: l)) <= fuel)
      by (rewrite length_skipn; cbn [List.length] in *; lia).
    destruct (IH (skipn size (x :: l)) Hs Hsk) as [Hall [Hlen Hfull]].
    assert (Hfirst : List.length (firstn size (x :: l))
                     = Nat.min size (List.length (x :: l)))
      by apply length_firstn.
    split; [|split].
    + constructor; [|exact Hall]. rewrite Hfirst. cbn [List.length]. lia.
    + cbn [List.length]. rewrite Hlen, length_skipn. cbn [List.length].
      destruct (le_lt_dec (S (List.length l)) size) as [Hle|Hgt].
      * replace (S (List.length l) - size) with 0 by lia.
        replace ((0 + size - 1) / size) with 0 by (symmetry; apply Nat.div_small; lia).
        symmetry.
        replace (S (List.length l) + size - 1) with ((S (List.length l) - 1) + 1 * size) by lia.
        rewrite Nat.div_add by lia. rewrite Nat.div_small by lia. reflexivity.
      * replace (S (List.length l) + size - 1)
          with ((S (List.length l) - size + size - 1) + 1 * size) by lia.
        rewrite Nat.div_add by lia. lia.
    + intros i Hi. cbn [List.length] in Hi. destruct i as [|i].
      * cbn [nth]. rewrite Hfirst.
        destruct (batches_of fuel size (skipn size (x :: l))) as [|b bs] eqn:Eb;
          [simpl in Hi; lia|].
        destruct (le_lt_dec (List.length (x :: l)) size) as [Hle|Hgt]; [|lia].
        exfalso. rewrite skipn_all2 in Eb by assumption.
        destruct fuel; discriminate.
      * cbn [nth]. apply Hfull. lia.
Qed.

(** X7.  The remaining records are cut into consecutive batches that
    lose and repeat nothing: their concatenation is the list itself,
    every batch holds between one and [batch_size] records, every batch
    but the last holds exactly [batch_size], and their number is the
    ceiling of [len / batch_size]. *)
Theorem batches_partition_the_rows {A : Type} (batch_size : nat) (l : list A) :
  0 < batch_size ->
  let batches := batches_of (List.length l) batch_size l in
  List.concat batches = l /\
  Forall (fun b => 1 <= List.length b <= batch_size) batches /\
  List.length batches = (List.length l + batch_size - 1) / batch_size /\
  (forall i, S i < List.length batches ->
             List.length (nth i batches []) = batch_size).
Proof.
  intros Hs. cbv zeta.
  split; [apply batches_of_concat; [assumption | apply Nat.le_refl]|].
  apply batches_of_shape; [assumption | apply Nat.le_refl].
Qed.

Lemma batches_partition_the_rows_witness :
  batches_of 5 2 [1; 2; 3; 4; 5] = [[1; 2]; [3; 4]; [5]] /\
  List.length (batches_of 5 2 [1; 2; 3; 4; 5]) = (5 + 2 - 1) / 2.
Proof.
  split; [reflexivity|].
  apply (batches_partition_the_rows 2 [1; 2; 3; 4; 5]). lia.
Defined.



Section SweepExtras.
Variable repr_value : json -> string.
Variable float_of_str : string -> option pyfloat.
Variable json_loads : string -> option json.
Variable json_dumps : json -> string.
Variable PROMPT_TEMPLATE : string.
Variable call_chat_completion : string -> string -> pyfloat -> json.
Variable sha1_text : string -> string.
Variable exception_text : string.

Let sweep_ := process_full_data repr_value float_of_str json_loads json_dumps
                PROMPT_TEMPLATE call_chat_completion sha1_text exception_text.
Let collect_ := collect repr_value float_of_str json_loads json_dumps
                  PROMPT_TEMPLATE call_chat_completion exception_text.
Let batch_ := process_batch repr_value float_of_str json_loads json_dumps
                PROMPT_TEMPLATE call_chat_completion sha1_text exception_text.
Let load := load_processed_ids_from_judgements json_loads.

Variables (rows : list row) (path : option (list string)) (replicas : nat).
Variables (model : string) (temps : list pyfloat) (code_field : string).
Variable batch_size : nat.

Let id_of := item_id_of sha1_text code_field.
Let temps' := match temps with [] => [Fin (1 # 10); Fin (3 # 10)] | _ => temps end.
Let remaining := filter (fun r => negb (id_in (id_of r) (load path))) rows.

(** X8.  The results of a batch are written in ascending order of the
    pair (item id, replica index): no row of the batch is followed by a
    row with a smaller pair; the rows are the results of the batch's
    requests, each merged with the record of its item. *)
Theorem batch_rows_in_key_order (batch : list row) :
  let '(jobs, results, replica_rows) :=
    batch_ model code_field replicas temps batch in
  StronglySorted (fun a b => result_key_lt b a = false) results /\
  Permutation results (map (collect_ model) jobs) /\
  replica_rows = map (merged_row (item_map_of sha1_text code_field batch)) results.
Proof.
  unfold batch_, process_batch. split; [|split].
  - apply sort_by_ordered.
    + apply result_key_lt_asym.
    + apply result_key_le_trans.
  - symmetry. apply sort_by_perm.
  - reflexivity.
Qed.


(** X10.  The request for replica [i] (counted from 1) is made at the
    temperature [temps[min(i - 1, len(temps) - 1)]]: the temperatures
    are used in order and the last one serves every further replica; with
    an empty list the temperatures are 0.1 and 0.3.  Every request carries
    a replica index from 1 to [replicas] and a temperature of the list. *)
Theorem dispatched_temperatures (sw : sweep) :
  sweep_ rows path replicas model temps code_field batch_size = Returns sw ->
  forall iid code rep t,
    In (iid, code, rep, t) (dispatched sw) ->
    (1 <= rep <= Z.of_nat replicas)%Z /\
    In t temps' /\
    t = nth (Nat.min (Z.to_nat (rep - 1)) (List.length temps' - 1)) temps' (Fin 0).
Proof.
  intros H iid code rep t Hin.
  destruct (process_full_data_spec _ _ _ _ _ _ _ _ _ _ _ _ _ _ _ _ H)
    as [_ [Hd _]].
  rewrite Hd in Hin. apply in_flat_map in Hin. destruct Hin as [r [_ Hin]].
  unfold jobs_of_row in Hin. apply in_map_iff in Hin.
  destruct Hin as [i [E Hi]]. apply in_seq in Hi.
  injection E as _ _ <- <-.
  assert (Hne : List.length temps' <> 0).
  { unfold temps'. destruct temps; simpl; discriminate. }
  split; [lia|]. unfold temp_for. fold temps'.
  replace (Z.to_nat (Z.of_nat (i + 1) - 1)) with i by lia.
  split; [|reflexivity]. apply nth_In. lia.
Qed.
End SweepExtras.


Lemma dispatched_temperatures_witness :
  In ("b", "let y = 2", 2%Z, Fin (3 # 10)) (dispatched first_sweep) /\
  In (Fin (3 # 10)) [Fin (1 # 10); Fin (3 # 10)].
Proof.
  assert (Hin : In ("b", "let y = 2", 2%Z, Fin (3 # 10)) (dispatched first_sweep))
    by (vm_compute; tauto).
  split; [exact Hin|].
  apply (dispatched_temperatures repr_ref float_of_str_ref
           json_loads_ref json_dumps_ref PROMPT_TEMPLATE_ref judge_keep
           sha1_text_ref "worker failed" corpus_two None 2 "judge-model"
           [] "text" 1 first_sweep first_sweep_returns _ _ _ _ Hin).
Defined.

(* ================================================================== *)
(** * Further properties: extraction, validation and the request *)
(* ================================================================== *)

(** ** Code fences *)

Lemma split_fence_tick_free (s : string) :
  tick_free s = true -> split_fence s = [s].
Proof.
  induction s as [|c r IH]; [reflexivity|].
  cbn [tick_free]. intros H. apply andb_true_iff in H. destruct H as [Hc Hr].
  apply negb_true_iff in Hc. cbn [split_fence]. rewrite (IH Hr), Hc. cbn [andb].
  destruct r as [|c2 [|c3 r3]]; reflexivity.
Qed.

Lemma split_fence_closing (s : string) :
  tick_free s = true -> split_fence (s ++ fence) = [s; EmptyString].
Proof.
  induction s as [|c r IH]; [reflexivity|].
  cbn [tick_free]. intros H. apply andb_true_iff in H. destruct H as [Hc Hr].
  apply negb_true_iff in Hc.
  change (String c r ++ fence)%string with (String c (r ++ fence)%string).
  cbn [split_fence]. rewrite (IH Hr), Hc. cbn [andb].
  destruct (r ++ fence)%string as [|c2 [|c3 r3]]; reflexivity.
Qed.

Lemma tick_free_lstrip (s : string) : tick_free s = true -> tick_free (lstrip s) = true.
Proof.
  induction s as [|c r IH]; [reflexivity|]. intros H. cbn [lstrip].
  destruct (is_space c); [|exact H].
  apply IH. cbn [tick_free] in H. apply andb_true_iff in H. tauto.
Qed.

Lemma tick_free_rstrip (s : string) : tick_free s = true -> tick_free (rstrip s) = true.
Proof.
  induction s as [|c r IH]; [reflexivity|]. intros H.
  cbn [tick_free] in H. apply andb_true_iff in H. destruct H as [Hc Hr].
  cbn [rstrip]. specialize (IH Hr).
  destruct (rstrip r) as [|c' r'].
  - destruct (is_space c); [reflexivity|]. cbn [tick_free]. now rewrite Hc.
  - cbn [tick_free] in *. now rewrite Hc, IH.
Qed.

Lemma tick_free_strip (s : string) : tick_free s = true -> tick_free (strip s) = true.
Proof. intros H. unfold strip. now apply tick_free_rstrip, tick_free_lstrip. Qed.

Lemma tick_free_no_fence (s : string) :
  tick_free s = true -> startswith fence s = false.
Proof.
  destruct s as [|c r]; [reflexivity|].
  cbn [tick_free]. intros H. apply andb_true_iff in H. destruct H as [Hc _].
  apply negb_true_iff in Hc. unfold is_tick in Hc. apply Ascii.eqb_neq in Hc.
  unfold startswith, fence. cbn [String.prefix].
  destruct (ascii_dec "`"%char c) as [E|_]; [congruence | reflexivity].
Qed.

Lemma rstrip_keeps_last (s : string) (c : ascii) :
  is_space c = false ->
  rstrip (s ++ String c EmptyString) = (s ++ String c EmptyString)%string.
Proof.
  intros Hc. induction s as [|a s IH]; cbn [append rstrip].
  - now rewrite Hc.
  - rewrite IH. destruct s; reflexivity.
Qed.

Lemma append_assoc (a b c : string) : ((a ++ b) ++ c = a ++ (b ++ c))%string.
Proof. induction a as [|x a IH]; simpl; [reflexivity | now rewrite IH]. Qed.

Lemma prefix_append (p s : string) : String.prefix p (p ++ s) = true.
Proof.
  induction p as [|c p IH]; [destruct s; reflexivity|].
  cbn [append String.prefix]. destruct (ascii_dec c c); [exact IH | congruence].
Qed.

Lemma strip_fenced (inner : string) :
  strip (fence ++ inner ++ fence) = (fence ++ inner ++ fence)%string.
Proof.
  unfold strip.
  assert (El : lstrip (fence ++ inner ++ fence) = (fence ++ inner ++ fence)%string)
    by reflexivity.
  rewrite El.
  assert (E : (fence ++ inner ++ fence
               = ((fence ++ inner) ++ "``") ++ String "`"%char EmptyString)%string)
    by (rewrite !append_assoc; reflexivity).
  rewrite E. apply rstrip_keeps_last. reflexivity.
Qed.

(** X11.  A reply wrapped in a pair of code fences is read as the text
    between the fences: for a text without backticks, extraction from the
    fenced text gives what extraction from the text itself gives (a
    language tag after the opening fence is part of that text). *)
Theorem fenced_reply_is_unwrapped (json_loads : string -> option json)
    (inner : string) :
  tick_free inner = true ->
  extract_json_object json_loads (fence ++ inner ++ fence)
  = extract_json_object json_loads inner.
Proof.
  intros Hin. unfold extract_json_object.
  rewrite strip_fenced.
  assert (Es : startswith fence (fence ++ inner ++ fence) = true)
    by apply prefix_append.
  rewrite Es.
  assert (Ep : split_fence (fence ++ inner ++ fence) = [EmptyString; inner; EmptyString]).
  { change (split_fence (fence ++ inner ++ fence))
      with (EmptyString :: split_fence (inner ++ fence)).
    now rewrite split_fence_closing. }
  rewrite Ep. cbn [List.length Nat.leb inner_parts tl removelast join].
  rewrite (tick_free_no_fence (strip inner)) by now apply tick_free_strip.
  reflexivity.
Qed.

Lemma fenced_reply_is_unwrapped_witness :
  extract_json_object json_loads_ref (fence ++ fenced_reply ++ fence)
  = extract_json_object json_loads_ref fenced_reply /\
  extract_json_object json_loads_ref fenced_reply
  = Some (JDict [("decision", JStr "remove"); ("labels", JList [JStr "SYNTAX_ERROR"]);
                 ("arkts_score", JInt 1)]).
Proof.
  split; [|vm_compute; reflexivity].
  apply fenced_reply_is_unwrapped. reflexivity.
Defined.

(** ** Validation of the rows written *)

Lemma str_take_nil (k : nat) : str_take k EmptyString = EmptyString.
Proof. destruct k; reflexivity. Qed.

Lemma str_take_cons (k : nat) (c : ascii) (r : string) :
  str_take (S k) (String c r) = String c (str_take k r).
Proof. reflexivity. Qed.

Lemma str_take_min (k : nat) :
  forall (m : nat) (s : string),
    k <= m -> str_take m (str_take k s) = str_take k s.
Proof.
  induction k as [|k IH]; intros m s Hle.
  - assert (E : str_take 0 s = EmptyString) by (destruct s; reflexivity).
    rewrite E. apply str_take_nil.
  - destruct s as [|c r]; [rewrite !str_take_nil; reflexivity|].
    destruct m as [|m]; [lia|].
    rewrite !str_take_cons. f_equal. apply IH. lia.
Qed.

Lemma clamp_fixed (hi : Q) (x : pyfloat) :
  (0 < hi)%Q -> clamp hi (clamp hi x) = clamp hi x.
Proof.
  intros Hhi.
  assert (H0 : flt_lt (Fin 0) (Fin hi) = true) by now apply flt_lt_Fin.
  assert (Hh : flt_lt (Fin hi) (Fin hi) = false)
    by (apply flt_lt_Fin_false; apply Qle_refl).
  assert (Hz : flt_lt (Fin 0) (Fin 0) = false)
    by (apply flt_lt_Fin_false; apply Qle_refl).
  unfold clamp, py_max, py_min.
  destruct (flt_lt x (Fin hi)) eqn:E1.
  - destruct (flt_lt (Fin 0) x) eqn:E2.
    + now rewrite E1, E2.
    + now rewrite H0, Hz.
  - rewrite H0. now rewrite Hh, H0.
Qed.

Lemma decision_canonical (d : string) :
  In d DECISIONS -> upper (strip d) = d.
Proof.
  intros [<-|[<-|[<-|[]]]]; vm_compute; reflexivity.
Qed.

Lemma labels_back (repr_value : json -> string) (ls : list string) :
  map (py_str repr_value) (map JStr ls) = ls.
Proof. rewrite map_map. simpl. apply map_id. Qed.

Section RowFacts.
Variable repr_value : json -> string.
Variable float_of_str : string -> option pyfloat.
Variable json_loads : string -> option json.
Variable json_dumps : json -> string.
Variable PROMPT_TEMPLATE : string.
Variable call_chat_completion : string -> string -> pyfloat -> json.
Variable exception_text : string.

Let run_one := run_one_judgement repr_value float_of_str json_loads json_dumps
                 PROMPT_TEMPLATE call_chat_completion.
Let collect_ := collect repr_value float_of_str json_loads json_dumps
                  PROMPT_TEMPLATE call_chat_completion exception_text.

Lemma validated_canonical (obj : json) (j : Judgement) :
  validate_judgement repr_value float_of_str obj = Some j -> canonical j.
Proof.
  intros H. pose proof (validate_judgement_bounds _ _ _ _ H) as [Hd _].
  apply validate_judgement_inv in H.
  destruct H as [_ [d [dv [_ [_ [_ [[a [_ Ea]] [[q [_ Eq']] [[c [_ Ec]] Er]]]]]]]]].
  unfold canonical. rewrite Ea, Eq', Ec, Er.
  split; [exact Hd|].
  split; [apply clamp_fixed; reflexivity|].
  split; [apply clamp_fixed; reflexivity|].
  split; [apply clamp_fixed; reflexivity|].
  apply str_take_min. apply Nat.le_refl.
Qed.

Lemma PARSE_ERROR_canonical : canonical PARSE_ERROR_judgement.
Proof.
  unfold canonical, PARSE_ERROR_judgement. cbn [decision arkts_score quality_score
    confidence rationale].
  split; [simpl; auto|]. repeat split; vm_compute; reflexivity.
Qed.

Lemma API_ERROR_canonical (err : json) : canonical (API_ERROR_judgement repr_value err).
Proof.
  unfold canonical, API_ERROR_judgement. cbn [decision arkts_score quality_score
    confidence rationale].
  split; [simpl; auto|].
  split; [vm_compute; reflexivity|].
  split; [vm_compute; reflexivity|].
  split; [vm_compute; reflexivity|].
  apply str_take_min. lia.
Qed.

Lemma judge_text_canonical (text : string) :
  canonical (judge_text repr_value float_of_str json_loads text).
Proof.
  unfold judge_text.
  destruct (extract_json_object json_loads text) as [obj|];
    [|apply PARSE_ERROR_canonical].
  destruct (truthy obj); [|apply PARSE_ERROR_canonical].
  destruct (validate_judgement repr_value float_of_str obj) as [j|] eqn:E;
    [eapply validated_canonical; eauto | apply PARSE_ERROR_canonical].
Qed.

Lemma run_one_judgement_canonical (iid code model : string) (t : pyfloat) (rep : Z)
    (r : ItemResult) :
  run_one iid code model t rep = Returns r -> canonical (judgement r).
Proof.
  subst run_one. intros H. unfold run_one_judgement in H.
  repeat match type of H with
         | context [match ?x with _ => _ end] => destruct x eqn:?; try discriminate
         end;
    injection H as <-; cbn [judgement];
    first [apply API_ERROR_canonical | apply judge_text_canonical].
Qed.

Lemma collect_canonical (model : string) (j : job) :
  canonical (judgement (collect_ model j)).
Proof.
  subst collect_. unfold collect. destruct j as [[[iid code] rep] t].
  destruct (run_one_judgement repr_value float_of_str json_loads json_dumps
              PROMPT_TEMPLATE call_chat_completion iid code model t rep) as [r|] eqn:E.
  - eapply run_one_judgement_canonical; eauto.
  - unfold canonical. cbn [judgement decision arkts_score quality_score
      confidence rationale].
    split; [simpl; auto|].
    split; [vm_compute; reflexivity|].
    split; [vm_compute; reflexivity|].
    split; [vm_compute; reflexivity|].
    apply str_take_min. lia.
Qed.

Lemma canonical_row_validates (orig : list (string * json)) (r : ItemResult) :
  canonical (judgement r) ->
  validate_judgement repr_value float_of_str (JDict (dict_merge orig (asdict r)))
  = Some (judgement r).
Proof.
  intros [Hd [Ha [Hq [Hc Hr]]]].
  assert (G : forall k v, dict_get k (asdict r) = Some v ->
                          dict_get k (dict_merge orig (asdict r)) = Some v).
  { intros k v E. rewrite dict_merge_get by apply asdict_NoDup. now rewrite E. }
  unfold validate_judgement.
  rewrite (G "decision" (JStr (decision (judgement r))) eq_refl).
  rewrite (G "labels" (JList (map JStr (labels (judgement r)))) eq_refl).
  rewrite (G "arkts_score" (JFloat (arkts_score (judgement r))) eq_refl).
  rewrite (G "quality_score" (JFloat (quality_score (judgement r))) eq_refl).
  rewrite (G "confidence" (JFloat (confidence (judgement r))) eq_refl).
  rewrite (G "rationale" (JStr (rationale (judgement r))) eq_refl).
  cbn [py_str py_float].
  rewrite (decision_canonical _ Hd).
  rewrite (proj2 (str_in_In _ _) Hd).
  rewrite labels_back, Ha, Hq, Hc, Hr.
  destruct (judgement r); reflexivity.
Qed.

(** X12.  Every row a batch writes validates back to the judgement it
    records: [validate_judgement] applied to the row (the input record
    merged with the result of a request, returned or raised) gives
    exactly the decision, labels, scores, confidence and rationale of
    that result. *)
Theorem written_rows_validate (model : string) (item_map : list (string * row))
    (j : job) :
  validate_judgement repr_value float_of_str (merged_row item_map (collect_ model j))
  = Some (judgement (collect_ model j)).
Proof.
  unfold merged_row. apply canonical_row_validates, collect_canonical.
Qed.

End RowFacts.

Section RequestFacts.
Variable repr_value : json -> string.
Variable float_of_str : string -> option pyfloat.
Variable json_loads : string -> option json.
Variable json_dumps : json -> string.
Variable PROMPT_TEMPLATE : string.
Variable call_chat_completion : string -> string -> pyfloat -> json.

Let run_one := run_one_judgement repr_value float_of_str json_loads json_dumps
                 PROMPT_TEMPLATE call_chat_completion.

(** X13.  A judge request raises exactly in these cases: the reply is a
    number, a boolean or null; it is a list or a string that contains
    ["error"]; or it is an object without an ["error"] key whose message
    content is a truthy value other than a string, or whose ["usage"] is
    there and is not an object.  Every other reply yields a result. *)
Theorem run_one_judgement_raises_iff (iid code model : string) (t : pyfloat)
    (rep : Z) :
  let resp := call_chat_completion (build_prompt PROMPT_TEMPLATE code) model t in
  run_one iid code model t rep = Raises <->
  match resp with
  | JDict d =>
      dict_has "error" d = false /\
      ((exists c, response_content resp = Some c /\ truthy c = true /\
                  forall s, c <> JStr s) \/
       (exists u, dict_get "usage" d = Some u /\ forall x, u <> JDict x))
  | JList _ | JStr _ => has_error resp = Some true
  | _ => True
  end.
Proof.
  cbv zeta. subst run_one. unfold run_one_judgement.
  set (resp := call_chat_completion (build_prompt PROMPT_TEMPLATE code) model t).
  assert (Ht : forall s, exists s',
               (if truthy (JStr s) then JStr s else JStr "") = JStr s').
  { intros s. destruct (truthy (JStr s)); eauto. }
  destruct resp as [| b | z | f | s | l | d].
  - simpl. tauto.
  - simpl. tauto.
  - simpl. tauto.
  - simpl. tauto.
  - cbn [has_error]. destruct (contains "error" s).
    + tauto.
    + cbn [response_content].
      destruct (Ht (str_take 2000 (json_dumps (JStr s)))) as [s' ->].
      split; discriminate.
  - cbn [has_error].
    destruct (existsb _ l).
    + tauto.
    + cbn [response_content].
      destruct (Ht (str_take 2000 (json_dumps (JList l)))) as [s' ->].
      split; discriminate.
  - cbn [has_error]. unfold dict_has.
    destruct (dict_get "error" d) as [err|] eqn:Ee.
    { split; [discriminate | intros [K _]; discriminate]. }
    assert (Hu : forall r0 : pyfloat -> json -> json -> json -> json -> ItemResult,
               forall raw,
               (match (match dict_get "usage" d with Some u => u | None => JDict [] end) with
                | JDict u =>
                    Returns (r0 t (get_or_null "prompt_tokens" u)
                               (get_or_null "completion_tokens" u)
                               (get_or_null "total_tokens" u) raw)
                | _ => Raises
                end = Raises) <->
               exists u, dict_get "usage" d = Some u /\ forall x, u <> JDict x).
    { intros r0 raw. destruct (dict_get "usage" d) as [u|].
      - destruct u as [| b | z | f | s | l | du].
        1-6: (split; [intros _; eexists; split; [reflexivity | intros x; discriminate]
                     | reflexivity]).
        split; [discriminate|]. intros [u [E K]]. injection E as <-.
        exfalso. now apply (K du).
      - split; [discriminate | intros [u [E _]]; discriminate]. }
    destruct (response_content (JDict d)) as [c|] eqn:Ec.
    + destruct (truthy c) eqn:Etc.
      * destruct c as [| b | z | f | s | l | dd];
          try (split; [intros _; split; [reflexivity|]; left; eexists;
                       split; [reflexivity|]; split; [assumption | intros s0; discriminate]
                      | reflexivity]).
        rewrite (Hu (fun t0 a b c0 raw => mkItemResult iid rep
                       (judge_text repr_value float_of_str json_loads s) model t0 a b c0 raw)
                   (JStr s)).
        split.
        -- intros H. split; [reflexivity|]. now right.
        -- intros [_ [[c [E [_ K]]]|H]]; [|exact H].
           injection E as <-. exfalso. now apply (K s).
      * rewrite (Hu (fun t0 a b c0 raw => mkItemResult iid rep
                       (judge_text repr_value float_of_str json_loads "") model t0 a b c0 raw)
                   c).
        split.
        -- intros H. split; [reflexivity|]. now right.
        -- intros [_ [[c' [E [K _]]]|H]]; [|exact H].
           injection E as <-. congruence.
    + destruct (Ht (str_take 2000 (json_dumps (JDict d)))) as [s' Es'].
      rewrite Es'.
      assert (Eraw : (if truthy (JStr (str_take 2000 (json_dumps (JDict d))))
                      then JStr (str_take 2000 (json_dumps (JDict d))) else JStr "")
                     = JStr s') by exact Es'.
      rewrite (Hu (fun t0 a b c0 raw => mkItemResult iid rep
                     (judge_text repr_value float_of_str json_loads s') model t0 a b c0 raw)
                 (JStr (str_take 2000 (json_dumps (JDict d))))).
      split.
      * intros H. split; [reflexivity|]. now right.
      * intros [_ [[c' [E _]]|H]]; [discriminate | exact H].
Qed.
End RequestFacts.

(** X14.  A request that fails on the wire is recorded, not raised: when
    the HTTP status is not 200, or the body is not JSON, the request
    returns a result for its item and replica with the decision
    KEEP_WITH_TAG, the label API_ERROR, scores 3.0, confidence 0.2, no
    token counts, no raw response, and the reason (["HTTP <status>"] or
    ["Invalid JSON from API"]) as rationale. *)
Theorem failed_exchange_is_recorded
    (repr_value : json -> string) (float_of_str : string -> option pyfloat)
    (json_loads : string -> option json) (json_dumps : json -> string)
    (PROMPT_TEMPLATE : string)
    (http_post : string -> string -> pyfloat -> Z * string)
    (iid code model : string) (t : pyfloat) (rep : Z) (status : Z) (text : string) :
  http_post (build_prompt PROMPT_TEMPLATE code) model t = (status, text) ->
  status <> 200%Z \/ json_loads text = None ->
  let reason :=
    if (status =? 200)%Z then "Invalid JSON from API"
    else ("HTTP " ++ string_of_Z status)%string in
  run_one_judgement repr_value float_of_str json_loads json_dumps PROMPT_TEMPLATE
    (call_chat_completion json_loads http_post) iid code model t rep
  = Returns (mkItemResult iid rep
               (mkJudgement "KEEP_WITH_TAG" ["API_ERROR"] (Fin 3) (Fin 3) (Fin (1 # 5))
                  (str_take 200 reason))
               model t JNull JNull JNull JNull).
Proof.
  intros Hp Hf. cbv zeta. unfold run_one_judgement, call_chat_completion.
  rewrite Hp.
  destruct (status =? 200)%Z eqn:E.
  - apply Z.eqb_eq in E. destruct Hf as [Hf|Hf]; [contradiction|].
    rewrite Hf. reflexivity.
  - reflexivity.
Qed.

Lemma failed_exchange_is_recorded_witness :
  run_one_judgement repr_ref float_of_str_ref json_loads_ref json_dumps_ref
    PROMPT_TEMPLATE_ref (call_chat_completion json_loads_ref http_unavailable)
    "a" "let a = 1" "judge-model" (Fin (1 # 10)) 1
  = Returns (mkItemResult "a" 1
               (mkJudgement "KEEP_WITH_TAG" ["API_ERROR"] (Fin 3) (Fin 3) (Fin (1 # 5))
                  "HTTP 503")
               "judge-model" (Fin (1 # 10)) JNull JNull JNull JNull).
Proof.
  apply (failed_exchange_is_recorded repr_ref float_of_str_ref json_loads_ref
           json_dumps_ref PROMPT_TEMPLATE_ref http_unavailable
           "a" "let a = 1" "judge-model" (Fin (1 # 10)) 1 503 "Service Unavailable").
  - reflexivity.
  - left. discriminate.
Defined.

(* ================================================================== *)
(** * Further properties: the sampler *)
(* ================================================================== *)

(** ** The strata *)

Section StrataFacts.
Variables (code_field : string) (source_field lang_field : option string).

Let key (r : row) : stratum := default_strata r code_field source_field lang_field.
Let build (rows : list row) (acc : list (stratum * list row)) :=
  fold_left (fun strata r => strata_add (key r) r strata) rows acc.



End StrataFacts.



(** ** What the generator does to a list *)

Lemma set_nth_perm {A : Type} (i : nat) (x y : A) (l : list A) :
  nth_error l i = Some x -> Permutation (x :: set_nth i y l) (y :: l).
Proof.
  revert i. induction l as [|h t IH]; intros [|i] H; simpl in *; try discriminate.
  - injection H as ->. apply perm_swap.
  - specialize (IH i H).
    transitivity (h :: x :: set_nth i y t); [apply perm_swap|].
    transitivity (h :: y :: t); [now constructor | apply perm_swap].
Qed.

Lemma last_split {A : Type} (l : list A) (z : A) :
  nth_error l (List.length l - 1) = Some z -> l = removelast l ++ [z].
Proof.
  induction l as [|a l IH]; [discriminate|].
  destruct l as [|b t].
  - simpl. intros [= ->]. reflexivity.
  - intros H. change (removelast (a :: b :: t)) with (a :: removelast (b :: t)).
    simpl app. f_equal. apply IH.
    cbn [List.length] in *. replace (S (S (List.length t)) - 1) with (S (List.length t)) in H by lia.
    replace (S (List.length t) - 1) with (List.length t) by lia. exact H.
Qed.

(** One step of [random.sample]: the pool is the record taken together
    with the pool that is left. *)
Lemma pool_step {A : Type} (pool : list A) (j : nat) (x z : A) :
  nth_error pool j = Some x ->
  nth_error pool (List.length pool - 1) = Some z ->
  Permutation pool (x :: removelast (set_nth j z pool)).
Proof.
  intros Hx Hz.
  assert (Hlast : nth_error (set_nth j z pool) (List.length (set_nth j z pool) - 1)
                  = Some z).
  { rewrite set_nth_length.
    destruct (Nat.eq_dec j (List.length pool - 1)) as [->|Hne].
    - apply set_nth_same. apply nth_error_Some. congruence.
    - rewrite set_nth_other by assumption. exact Hz. }
  apply last_split in Hlast.
  pose proof (set_nth_perm j x z pool Hx) as Hp.
  rewrite Hlast in Hp.
  apply Permutation_cons_inv with z.
  symmetry. transitivity (x :: removelast (set_nth j z pool) ++ [z]); [|exact Hp].
  change (x :: removelast (set_nth j z pool) ++ [z])
    with ((x :: removelast (set_nth j z pool)) ++ [z]).
  apply Permutation_cons_append.
Qed.

Lemma perm_app_4 {A : Type} (a b c d : list A) :
  Permutation ((a ++ b) ++ (c ++ d)) ((a ++ c) ++ (b ++ d)).
Proof.
  rewrite <- !app_assoc. apply Permutation_app_head.
  rewrite !app_assoc. apply Permutation_app_tail. apply Permutation_app_comm.
Qed.

Section GeneratorFacts.
Variable G : generator.

Lemma sample_loop_sub {A : Type} (k : nat) :
  forall (pool : list A) (st : rng_state G),
    k <= List.length pool ->
    exists rest, Permutation pool (fst (sample_loop G k pool st) ++ rest).
Proof.
  induction k as [|k IH]; intros pool st Hk; simpl.
  - exists pool. reflexivity.
  - destruct (rng_below G st (List.length pool)) as [j0 st1].
    assert (HL : List.length pool <> 0) by lia.
    pose proof (Nat.mod_upper_bound j0 _ HL) as Hj.
    destruct (nth_error pool (j0 mod List.length pool)) as [x|] eqn:Ex;
      [|apply nth_error_None in Ex; lia].
    destruct (nth_error pool (List.length pool - 1)) as [z|] eqn:Ez;
      [|apply nth_error_None in Ez; lia].
    specialize (IH (removelast (set_nth (j0 mod List.length pool) z pool)) st1).
    destruct (sample_loop G k _ st1) as [chosen st2]. simpl in *.
    destruct IH as [rest Hrest];
      [rewrite removelast_length, set_nth_length; lia|].
    exists rest.
    transitivity (x :: removelast (set_nth (j0 mod List.length pool) z pool));
      [now apply pool_step | now constructor].
Qed.

Lemma swap_perm {A : Type} (i j : nat) (x : list A) : Permutation (swap i j x) x.
Proof.
  unfold swap. destruct (nth_error x i) as [a|] eqn:Ei; [|reflexivity].
  destruct (nth_error x j) as [b|] eqn:Ej; [|reflexivity].
  assert (H1 : Permutation (b :: set_nth j a x) (a :: x))
    by (apply set_nth_perm; exact Ej).
  assert (Hi : nth_error (set_nth j a x) i = Some a).
  { destruct (Nat.eq_dec j i) as [->|Hne].
    - apply set_nth_same. apply nth_error_Some. congruence.
    - rewrite set_nth_other by assumption. exact Ei. }
  assert (H2 : Permutation (a :: set_nth i b (set_nth j a x)) (b :: set_nth j a x))
    by (apply set_nth_perm; exact Hi).
  apply Permutation_cons_inv with a. now transitivity (b :: set_nth j a x).
Qed.

Lemma shuffle_loop_perm {A : Type} (i : nat) :
  forall (x : list A) (st : rng_state G),
    Permutation (fst (shuffle_loop G i x st)) x.
Proof.
  induction i as [|i IH]; intros x st; [reflexivity|].
  cbn [shuffle_loop]. destruct (rng_below G st (S (S i))) as [j0 st1].
  rewrite IH. apply swap_perm.
Qed.

Lemma random_shuffle_perm {A : Type} (x : list A) (st : rng_state G) :
  Permutation (fst (random_shuffle G x st)) x.
Proof. apply shuffle_loop_perm. Qed.

(** What the draw adds to [sampled]: records of the strata, none more
    often than the strata hold it, and at least one of every stratum. *)
Lemma draw_shape (allocation : list (stratum * Z)) (strata : list (stratum * list row)) :
  forall (sampled out : list row) (st st' : rng_state G),
    (forall k items, In (k, items) strata ->
                     exists a, assoc_get k allocation = Some a /\
                               (1 <= a <= Zlen items)%Z) ->
    draw G strata allocation sampled st = Some (out, st') ->
    exists picks rest,
      out = sampled ++ picks /\
      Permutation (List.concat (map snd strata)) (picks ++ rest) /\
      forall k items, In (k, items) strata -> exists r, In r items /\ In r picks.
Proof.
  induction strata as [|[k items] more IH]; intros sampled out st st' H Hd.
  - simpl in Hd. injection Hd as <- _. exists [], [].
    rewrite app_nil_r. split; [reflexivity|]. split; [constructor|]. intros ? ? [].
  - destruct (H k items (or_introl eq_refl)) as [a [Ha Hb]].
    assert (Hmore : forall k' items', In (k', items') more ->
                      exists a', assoc_get k' allocation = Some a' /\
                                 (1 <= a' <= Zlen items')%Z)
      by (intros; apply H; now right).
    cbn [draw] in Hd. rewrite Ha in Hd.
    assert (E0 : (a <=? 0)%Z = false) by (apply Z.leb_gt; lia). rewrite E0 in Hd.
    destruct (a <? Zlen items)%Z eqn:E1.
    + apply Z.ltb_lt in E1. unfold random_sample in Hd.
      assert (Hk : Z.to_nat a <= List.length items) by (unfold Zlen in *; lia).
      assert (El : (Z.to_nat a <=? List.length items) = true) by now apply Nat.leb_le.
      rewrite El in Hd.
      pose proof (sample_loop_sub (Z.to_nat a) items st Hk) as [rest1 Hsub].
      pose proof (sample_loop_length G (Z.to_nat a) items st Hk) as Hlen.
      destruct (sample_loop G (Z.to_nat a) items st) as [chosen st1].
      simpl in Hsub, Hlen.
      destruct (IH _ _ _ _ Hmore Hd) as [picks [rest [Eo [Hp Hc]]]].
      exists (chosen ++ picks), (rest1 ++ rest).
      split; [now rewrite Eo, app_assoc|]. split.
      * cbn [map snd List.concat].
        transitivity ((chosen ++ rest1) ++ (picks ++ rest));
          [now apply Permutation_app | apply perm_app_4].
      * intros k' items' [E|Hin].
        -- injection E as <- <-.
           destruct chosen as [|r chosen']; [simpl in Hlen; lia|].
           exists r. split; [|now left].
           apply (Permutation_in _ (Permutation_sym Hsub)). now left.
        -- destruct (Hc k' items' Hin) as [r [Hr1 Hr2]].
           exists r. split; [assumption | apply in_or_app; now right].
    + apply Z.ltb_ge in E1.
      destruct (IH _ _ _ _ Hmore Hd) as [picks [rest [Eo [Hp Hc]]]].
      exists (items ++ picks), rest.
      split; [now rewrite Eo, app_assoc|]. split.
      * cbn [map snd List.concat]. rewrite <- app_assoc. now apply Permutation_app_head.
      * intros k' items' [E|Hin].
        -- injection E as <- <-.
           destruct items as [|r items']; [unfold Zlen in Hb; simpl in Hb; lia|].
           exists r. split; [now left | now left].
        -- destruct (Hc k' items' Hin) as [r [Hr1 Hr2]].
           exists r. split; [assumption | apply in_or_app; now right].
Qed.
End GeneratorFacts.

Section SampleShape.
Variable G : generator.
Variables (rows : list row) (n seed : Z).
Variables (code_field : string) (source_field lang_field : option string).
Hypothesis n_nonneg : (0 <= n)%Z.

Let strata := build_strata rows code_field source_field lang_field.
Let total := Zlen rows.

(** The sampler in three steps: the allocation, the draw and the
    shuffle; the fill between the draw and the shuffle adds nothing. *)
Lemma stratified_sample_shape (fuel : nat) :
  sample_fuel rows n <= fuel ->
  exists allocation drawn st1,
    allocate fuel strata total n = Some allocation /\
    keys_of allocation = keys_of strata /\
    (forall k items, In (k, items) strata ->
                     exists a, assoc_get k allocation = Some a /\
                               (1 <= a <= Zlen items)%Z) /\
    draw G strata allocation [] (rng_seed G seed) = Some (drawn, st1) /\
    Zlen drawn = alloc_sum allocation /\
    ((alloc_sum (first_alloc total n strata) <= n)%Z -> (Zlen drawn <= n)%Z) /\
    stratified_sample G fuel rows n seed code_field source_field lang_field
    = Some (slice_to n (fst (random_shuffle G drawn st1))).
Proof.
  intros Hfuel.
  destruct (build_strata_spec code_field source_field lang_field rows)
    as [Hkeys [Hne Hperm]]. fold strata in Hkeys, Hne, Hperm.
  assert (Htotal : total = sizes strata)
    by (unfold total, strata; now rewrite sizes_build).
  destruct (allocate_spec strata total n Hkeys Hne Htotal n_nonneg)
    as [allocation [Hrun [Hk [Hb [Hfirst [Hlow Hfull]]]]]].
  assert (Hlen : List.length strata <= List.length rows).
  { pose proof (first_alloc_sum_bounds total n strata Hne) as H.
    rewrite <- Htotal in H. unfold total, Zlen in H. lia. }
  assert (Ha : allocate fuel strata total n = Some allocation).
  { apply Hrun. unfold sample_fuel in Hfuel. nia. }
  assert (Hdraw : forall k items, In (k, items) strata ->
                    exists a, assoc_get k allocation = Some a /\
                              (1 <= a <= Zlen items)%Z).
  { intros k items Hin.
    destruct (assoc_get k allocation) as [a|] eqn:E.
    - exists a. split; [reflexivity|]. rewrite <- (cap_In _ _ _ Hkeys Hin). now apply Hb.
    - exfalso. apply assoc_get_None in E. apply E. fold (keys_of allocation).
      rewrite Hk. unfold keys_of. apply in_map_iff. exists (k, items). auto. }
  destruct (draw_spec G allocation strata [] (rng_seed G seed) Hdraw)
    as [sampled [st1 [Ed [Hs Hall]]]].
  rewrite (sum_lookup strata allocation Hk Hkeys) in Hs.
  change (Zlen (@nil row)) with 0%Z in Hs. rewrite Z.add_0_l in Hs.
  exists allocation, sampled, st1.
  split; [exact Ha|]. split; [exact Hk|]. split; [exact Hdraw|].
  split; [exact Ed|]. split; [exact Hs|]. split.
  { intros Hsum. rewrite Hs.
    destruct (Z_lt_dec (alloc_sum (first_alloc total n strata)) n) as [Hl|Hl].
    - rewrite (Hlow Hl). lia.
    - rewrite (Hfirst ltac:(lia)). lia. }
  unfold stratified_sample. fold strata. fold total. rewrite Ha, Ed.
  destruct (Zlen sampled <? n)%Z eqn:Elt; [|reflexivity].
  apply Z.ltb_lt in Elt.
  assert (Hfull' : forall k items, In (k, items) strata ->
                     assoc_get k allocation = Some (Zlen items))
    by (apply Hfull; lia).
  specialize (Hall Hfull'). simpl in Hall.
  assert (Hpool : filter (fun r => negb (row_in r sampled)) rows = []).
  { apply filter_none. intros r Hr. rewrite row_in_In; [reflexivity|].
    rewrite Hall. apply (Permutation_in _ (Permutation_sym Hperm) Hr). }
  rewrite Hpool.
  assert (E0 : Z.to_nat (Z.min (n - Zlen sampled) (Zlen (@nil row))) = 0)
    by (unfold Zlen at 2; simpl; lia).
  rewrite E0. cbn [random_sample List.length Nat.leb sample_loop].
  now rewrite app_nil_r.
Qed.

(** The sample with what the corpus holds besides. *)
Lemma stratified_sample_sub (fuel : nat) :
  sample_fuel rows n <= fuel ->
  exists sample rest,
    stratified_sample G fuel rows n seed code_field source_field lang_field
    = Some sample /\
    Permutation rows (sample ++ rest) /\
    Zlen sample = Z.min n total.
Proof.
  intros Hfuel.
  destruct (stratified_sample_shape fuel Hfuel)
    as [allocation [drawn [st1 [Ha [Hk [Hb [Hd [Hs [_ Hsample]]]]]]]]].
  destruct (build_strata_spec code_field source_field lang_field rows)
    as [_ [_ Hperm]]. fold strata in Hperm.
  destruct (draw_shape G allocation strata [] drawn _ _ Hb Hd)
    as [picks [rest [Eo [Hp _]]]]. simpl in Eo. subst picks.
  destruct (stratified_sample_spec G rows n seed code_field source_field lang_field
              n_nonneg fuel Hfuel) as [alloc' [sample' [_ [Hs' [Hlen _]]]]].
  rewrite Hsample in Hs'. injection Hs' as <-.
  exists (slice_to n (fst (random_shuffle G drawn st1))),
         (skipn (Z.to_nat n) (fst (random_shuffle G drawn st1)) ++ rest).
  split; [exact Hsample|]. split; [|exact Hlen].
  unfold slice_to. assert (E : (0 <=? n)%Z = true) by now apply Z.leb_le.
  rewrite E, app_assoc, firstn_skipn.
  transitivity (List.concat (map snd strata)); [now symmetry|].
  transitivity (drawn ++ rest); [exact Hp|].
  apply Permutation_app_tail. symmetry. apply random_shuffle_perm.
Qed.
End SampleShape.



(** X17.  The fill step of the sampler never adds a record: after the
    draw from the strata the sample already has [min(n, len(rows))]
    records or more, so the sample is the first [n] records of the
    shuffled draw. *)
Theorem fill_step_adds_nothing (G : generator) (rows : list row) (n seed : Z)
    (code_field : string) (source_field lang_field : option string) (fuel : nat) :
  (0 <= n)%Z -> sample_fuel rows n <= fuel ->
  let strata := build_strata rows code_field source_field lang_field in
  exists allocation drawn st1,
    allocate fuel strata (Zlen rows) n = Some allocation /\
    draw G strata allocation [] (rng_seed G seed) = Some (drawn, st1) /\
    (Z.min n (Zlen rows) <= Zlen drawn)%Z /\
    stratified_sample G fuel rows n seed code_field source_field lang_field
    = Some (slice_to n (fst (random_shuffle G drawn st1))).
Proof.
  intros Hn Hfuel. cbv zeta.
  destruct (stratified_sample_shape G rows n seed code_field source_field lang_field
              Hn fuel Hfuel)
    as [allocation [drawn [st1 [Ha [_ [_ [Hd [Hs [_ Hsample]]]]]]]]].
  exists allocation, drawn, st1.
  split; [exact Ha|]. split; [exact Hd|]. split; [|exact Hsample].
  destruct (stratified_sample_spec G rows n seed code_field source_field lang_field
              Hn fuel Hfuel) as [alloc' [sample' [_ [Hs' [Hlen _]]]]].
  rewrite Hsample in Hs'. injection Hs' as <-.
  rewrite <- Hlen, slice_to_length by assumption.
  unfold Zlen. rewrite random_shuffle_length. lia.
Qed.

Lemma fill_step_adds_nothing_witness :
  exists allocation drawn st1,
    allocate 13 (build_strata corpus_three_sources "text" (Some "repo") None) 3 2
    = Some allocation /\
    draw lcg (build_strata corpus_three_sources "text" (Some "repo") None)
      allocation [] (rng_seed lcg 42) = Some (drawn, st1) /\
    (2 <= Zlen drawn)%Z /\
    stratified_sample lcg 13 corpus_three_sources 2 42 "text" (Some "repo") None
    = Some (slice_to 2 (fst (random_shuffle lcg drawn st1))).
Proof.
  apply (fill_step_adds_nothing lcg corpus_three_sources 2 42 "text" (Some "repo") None 13).
  - lia.
  - vm_compute. lia.
Defined.

(** X18.  The sample is drawn without replacement: it holds no record
    more often than the corpus does, that is, the corpus is the sample
    together with the records left out. *)
Theorem sample_is_part_of_the_corpus (G : generator) (rows : list row) (n seed : Z)
    (code_field : string) (source_field lang_field : option string) (fuel : nat) :
  (0 <= n)%Z -> sample_fuel rows n <= fuel ->
  exists sample rest,
    stratified_sample G fuel rows n seed code_field source_field lang_field
    = Some sample /\
    Permutation rows (sample ++ rest).
Proof.
  intros Hn Hfuel.
  destruct (stratified_sample_sub G rows n seed code_field source_field lang_field
              Hn fuel Hfuel) as [sample [rest [Hs [Hp _]]]].
  eauto.
Qed.

Lemma sample_is_part_of_the_corpus_witness :
  exists sample rest,
    stratified_sample lcg 13 corpus_three_sources 2 42 "text" (Some "repo") None
    = Some sample /\
    Permutation corpus_three_sources (sample ++ rest).
Proof.
  apply (sample_is_part_of_the_corpus lcg corpus_three_sources 2 42 "text"
           (Some "repo") None 13).
  - lia.
  - vm_compute. lia.
Defined.





(* ================================================================== *)
(** * Further properties: the sampled round *)
(* ================================================================== *)

(** ** Grouping the results by item *)

Lemma group_members (results : list ItemResult) :
  forall (acc : list (string * list ItemResult)) (seen : list ItemResult),
    NoDup (map fst acc) ->
    (forall id, dict_get id acc
                = match results_of id seen with [] => None | l => Some l end) ->
    let out :=
      fold_left
        (fun by_item r =>
           dict_set (item_id r)
             (match dict_get (item_id r) by_item with Some lst => lst | None => [] end
              ++ [r])
             by_item)
        results acc in
    NoDup (map fst out) /\
    forall id, dict_get id out
               = match results_of id (seen ++ results) with [] => None | l => Some l end.
Proof.
  induction results as [|r results IH]; intros acc seen Hnd Hget; cbv zeta.
  - rewrite app_nil_r. auto.
  - replace (seen ++ r :: results) with ((seen ++ [r]) ++ results)
      by (rewrite <- app_assoc; reflexivity).
    cbn [fold_left]. apply IH; [now apply dict_set_NoDup|].
    intros id. unfold results_of. rewrite filter_app. cbn [filter].
    fold (results_of id seen).
    destruct (String.eqb (item_id r) id) eqn:E.
    + apply String.eqb_eq in E. subst id. rewrite dict_get_set_eq, Hget.
      destruct (results_of (item_id r) seen); reflexivity.
    + apply String.eqb_neq in E. rewrite dict_get_set_neq by congruence.
      now rewrite Hget, app_nil_r.
Qed.

Lemma group_by_item_get (results : list ItemResult) :
  NoDup (map fst (group_by_item results)) /\
  forall id, dict_get id (group_by_item results)
             = match results_of id results with [] => None | l => Some l end.
Proof.
  apply (group_members results [] []); [constructor | reflexivity].
Qed.

Lemma group_by_item_In (results : list ItemResult) (id : string)
    (lst : list ItemResult) :
  In (id, lst) (group_by_item results) <->
  lst <> [] /\ lst = results_of id results.
Proof.
  destruct (group_by_item_get results) as [Hnd Hget]. split.
  - intros Hin. apply (In_dict_get _ _ _ Hnd) in Hin. rewrite Hget in Hin.
    destruct (results_of id results); [discriminate|].
    injection Hin as <-. split; [discriminate | reflexivity].
  - intros [Hne ->]. apply dict_get_In. rewrite Hget.
    destruct (results_of id results); [congruence | reflexivity].
Qed.

(** X21.  The results are grouped by item id without loss: the groups
    have pairwise distinct ids, each group holds exactly the results with
    its id, in the order in which they were collected, no group is empty,
    and every result is in the group of its id. *)
Theorem results_grouped_by_item (results : list ItemResult) :
  let by_item := group_by_item results in
  NoDup (map fst by_item) /\
  (forall id lst, In (id, lst) by_item ->
                  lst <> [] /\
                  lst = filter (fun r => String.eqb (item_id r) id) results) /\
  (forall r, In r results ->
             exists lst, In (item_id r, lst) by_item /\ In r lst) /\
  List.length (List.concat (map snd by_item)) = List.length results.
Proof.
  cbv zeta. destruct (group_by_item_get results) as [Hnd Hget].
  split; [exact Hnd|]. split; [intros id lst; apply group_by_item_In|]. split.
  - intros r Hr. exists (results_of (item_id r) results).
    assert (Hin : In r (results_of (item_id r) results))
      by (apply filter_In; split; [exact Hr | apply String.eqb_refl]).
    split; [|exact Hin]. apply group_by_item_In.
    split; [|reflexivity]. intros E. rewrite E in Hin. destruct Hin.
  - assert (Hgen : forall (keys : list string) (l : list ItemResult),
               NoDup keys ->
               (forall r, In r l -> In (item_id r) keys) ->
               List.length (List.concat (map (fun id => results_of id l) keys))
               = List.length l).
    { intros keys l Hk. revert l. induction Hk as [|k keys Hnin Hk IH]; intros l Hl.
      - destruct l as [|r l]; [reflexivity|]. destruct (Hl r (or_introl eq_refl)).
      - cbn [map List.concat]. rewrite length_app.
        rewrite (map_ext_in (fun id => results_of id l)
                   (fun id => results_of id
                                (filter (fun r => negb (String.eqb (item_id r) k)) l))).
        + rewrite IH.
          * unfold results_of. clear. induction l as [|r l IHl]; simpl; [reflexivity|].
            destruct (String.eqb (item_id r) k); simpl; lia.
          * intros r Hr. apply filter_In in Hr. destruct Hr as [Hr Hne].
            destruct (Hl r Hr) as [E|Hin]; [|exact Hin].
            subst k. rewrite String.eqb_refl in Hne. discriminate.
        + intros id Hid. unfold results_of. clear - Hid Hnin.
          induction l as [|r l IHl]; simpl; [reflexivity|].
          destruct (String.eqb (item_id r) id) eqn:E1;
            destruct (String.eqb (item_id r) k) eqn:E2; simpl; rewrite ?E1;
            try (now rewrite IHl).
          apply String.eqb_eq in E1, E2. subst. contradiction. }
    assert (Hsnd : map snd (group_by_item results)
                   = map (fun id => results_of id results)
                         (map fst (group_by_item results))).
    { rewrite map_map. apply map_ext_in. intros [id lst] Hin.
      apply group_by_item_In in Hin. simpl. tauto. }
    rewrite Hsnd. apply Hgen; [exact Hnd|].
    intros r Hr.
    assert (Hin : In r (results_of (item_id r) results))
      by (apply filter_In; split; [exact Hr | apply String.eqb_refl]).
    specialize (Hget (item_id r)).
    destruct (results_of (item_id r) results) as [|x l] eqn:E; [destruct Hin|].
    apply dict_get_In in Hget. apply (in_map fst) in Hget. exact Hget.
Qed.

(** ** The summary of a round *)

Lemma consensus_of_valid (js : list Judgement) :
  js <> [] -> Forall (fun j => In (decision j) DECISIONS) js ->
  exists J, consensus js = Some J /\ In (decision J) DECISIONS.
Proof.
  intros Hne Hall.
  assert (Hval : forall d, In d (top_decisions (count_votes js)) -> In d DECISIONS).
  { intros d Hd. apply tied_top in Hd. destruct Hd as [Hd _].
    apply in_map_iff in Hd. destruct Hd as [j [<- Hj]].
    rewrite Forall_forall in Hall. apply (Hall j Hj). }
  pose proof (top_NoDup js) as Hnd.
  pose proof (top_of_nonempty js Hne) as Htop.
  rewrite (consensus_nonempty js Hne).
  destruct (top_decisions (count_votes js)) as [|x [|y l]] eqn:Et; [congruence| |].
  - eexists. split; [reflexivity|]. apply Hval. now left.
  - destruct (tie_break_max (x :: y :: l) Hnd) as [d [Ed [Hin _]]];
      [simpl; lia | exact Hval |].
    unfold final_decision. rewrite Ed. eexists. split; [reflexivity|]. now apply Hval.
Qed.

Lemma Forall2_In_l {A B : Type} (R : A -> B -> Prop) (la : list A) (lb : list B) (a : A) :
  Forall2 R la lb -> In a la -> exists b, In b lb /\ R a b.
Proof.
  induction 1 as [|x y la lb Hxy Hrest IH]; simpl; [tauto|].
  intros [<-|H]; [exists y; auto|]. destruct (IH H) as [b [Hb Hr]]. exists b. auto.
Qed.

Section SummaryFacts.
Variable round_ndigits : pyfloat -> pyfloat.
Variables (code_field : string) (source_field lang_field : option string).
Variable item_map : list (string * row).

Let row_of := final_row round_ndigits code_field source_field lang_field item_map.
Let rows_of := final_rows_of round_ndigits code_field source_field lang_field item_map.

Lemma final_rows_of_Forall2 (by_item : list (string * list ItemResult)) :
  forall rows,
    rows_of by_item = Some rows ->
    Forall2 (fun e row => row_of e = Some row) by_item rows.
Proof.
  induction by_item as [|e rest IH]; intros rows H; simpl in H.
  - injection H as <-. constructor.
  - fold row_of in H. destruct (row_of e) as [r|] eqn:Er; [|discriminate].
    fold rows_of in H. destruct (rows_of rest) as [rs|] eqn:Ers; [|discriminate].
    injection H as <-. constructor; [exact Er | now apply IH].
Qed.

Lemma final_rows_of_total (by_item : list (string * list ItemResult)) :
  (forall e, In e by_item -> exists row, row_of e = Some row) ->
  exists rows, rows_of by_item = Some rows.
Proof.
  induction by_item as [|e rest IH]; intros H; simpl.
  - eauto.
  - fold row_of. destruct (H e (or_introl eq_refl)) as [r Er]. rewrite Er.
    fold rows_of. destruct IH as [rs Ers]; [intros; apply H; now right|].
    rewrite Ers. eauto.
Qed.

Lemma final_row_fields (id : string) (lst : list ItemResult)
    (row : list (string * json)) :
  row_of (id, lst) = Some row ->
  exists J,
    consensus (map judgement lst) = Some J /\
    dict_get "item_id" row = Some (JStr id) /\
    dict_get "final_decision" row = Some (JStr (decision J)) /\
    dict_get "final_labels" row = Some (JList (map JStr (labels J))) /\
    dict_get "replicas" row = Some (JInt (Zlen lst)).
Proof.
  subst row_of. unfold final_row.
  destruct (consensus (map judgement lst)) as [J|]; [|discriminate].
  intros [= <-]. exists J. repeat split; reflexivity.
Qed.
End SummaryFacts.

Lemma zsum_dict_set (d : string) (c : Z) (counts : list (string * Z)) :
  dict_get d counts = Some c ->
  map fst (dict_set d (c + 1)%Z counts) = map fst counts /\
  zsum (map snd (dict_set d (c + 1)%Z counts)) = (zsum (map snd counts) + 1)%Z.
Proof.
  induction counts as [|[k v] counts IH]; simpl; [discriminate|].
  destruct (String.eqb d k) eqn:E.
  - intros [= ->]. simpl. split; [reflexivity | lia].
  - intros H. destruct (IH H) as [H1 H2]. simpl. rewrite H1, H2. split; [reflexivity | lia].
Qed.

Lemma count_decisions_total (final_rows : list (list (string * json))) :
  forall counts,
    map fst counts = DECISIONS ->
    Forall (fun r => exists d, dict_get "final_decision" r = Some (JStr d) /\
                               In d DECISIONS) final_rows ->
    exists counts',
      count_decisions final_rows counts = Some counts' /\
      map fst counts' = DECISIONS /\
      zsum (map snd counts') = (zsum (map snd counts) + Zlen final_rows)%Z.
Proof.
  induction final_rows as [|r rest IH]; intros counts Hk Hall; simpl.
  - exists counts. split; [reflexivity|]. split; [exact Hk|]. unfold Zlen. simpl. lia.
  - inversion Hall as [|? ? [d [Hd Hin]] Hrest]; subst. rewrite Hd.
    destruct (dict_get d counts) as [c|] eqn:Ec.
    2:{ exfalso. apply dict_get_None in Ec. apply Ec. now rewrite Hk. }
    destruct (zsum_dict_set d c counts Ec) as [H1 H2].
    destruct (IH (dict_set d (c + 1)%Z counts)) as [counts' [E1 [E2 E3]]];
      [now rewrite H1 | exact Hrest |].
    exists counts'. split; [exact E1|]. split; [exact E2|].
    rewrite E3, H2. unfold Zlen. cbn [List.length]. lia.
Qed.

Section RoundFacts.
Variable repr_value : json -> string.
Variable float_of_str : string -> option pyfloat.
Variable json_loads : string -> option json.
Variable json_dumps : json -> string.
Variable PROMPT_TEMPLATE : string.
Variable judge : string -> string -> pyfloat -> json.
Variable sha1_text : string -> string.
Variable exception_text : string.
Variable round_ndigits : pyfloat -> pyfloat.
Variable G : generator.

Let collect_ := collect repr_value float_of_str json_loads json_dumps
                  PROMPT_TEMPLATE judge exception_text.
Let round_ (as_completed : list job -> list job) :=
  run_round repr_value float_of_str json_loads json_dumps PROMPT_TEMPLATE judge
    sha1_text exception_text round_ndigits G as_completed.

(** What a round computes, step by step. *)
Lemma run_round_inv (as_completed : list job -> list job) (fuel : nat)
    (rows : list row) (n : Z) (replicas : nat) (model : string)
    (temps : list pyfloat) (code_field : string)
    (source_field lang_field : option string) (seed : Z) (rd : round) :
  round_ as_completed fuel rows n replicas model temps code_field source_field
    lang_field seed = Some rd ->
  let temps' := match temps with [] => [Fin (1 # 10); Fin (3 # 10)] | _ => temps end in
  let jobs := flat_map (jobs_of_row sha1_text code_field replicas temps')
                       (round_sampled rd) in
  let item_map := item_map_of sha1_text code_field (round_sampled rd) in
  rows <> [] /\
  stratified_sample G fuel rows n seed code_field source_field lang_field
  = Some (round_sampled rd) /\
  round_sampled_file rd
  = Some (map json_dumps (map (fun r => JDict (row_json r)) (round_sampled rd))) /\
  round_dispatched rd = jobs /\
  round_results rd = map (collect_ model) (as_completed jobs) /\
  final_rows_of round_ndigits code_field source_field lang_field item_map
    (group_by_item (round_results rd)) = Some (round_final_rows rd) /\
  round_judgements_file rd
  = Some (map json_dumps (map (merged_row item_map) (round_results rd))) /\
  round_summary rd = write_csv None (round_final_rows rd) /\
  count_decisions (round_final_rows rd)
    [("KEEP", 0%Z); ("KEEP_WITH_TAG", 0%Z); ("REMOVE", 0%Z)]
  = Some (round_counts rd).
Proof.
  subst round_. cbv beta. unfold run_round. intros H.
  destruct rows as [|r0 rows0] eqn:Er; [discriminate|]. rewrite <- Er in *.
  destruct (stratified_sample G fuel rows n seed code_field source_field lang_field)
    as [sampled|]; [|discriminate].
  destruct (final_rows_of _ _ _ _ _ _) as [frows|] eqn:Ef; [|discriminate].
  destruct (count_decisions frows _) as [counts|] eqn:Ec; [|discriminate].
  injection H as <-. cbn [round_sampled round_sampled_file round_dispatched
    round_results round_judgements_file round_final_rows round_summary round_counts].
  split; [subst; discriminate|].
  repeat split; try reflexivity; assumption.
Qed.

Lemma results_valid (model : string) (jobs : list job) :
  Forall (fun r => In (decision (judgement r)) DECISIONS) (map (collect_ model) jobs).
Proof.
  apply Forall_forall. intros r Hr. apply in_map_iff in Hr.
  destruct Hr as [j [<- _]].
  exact (proj1 (collect_canonical repr_value float_of_str json_loads json_dumps
                  PROMPT_TEMPLATE judge exception_text model j)).
Qed.

(** A round whose sampler returns runs to its end. *)
Lemma run_round_total (as_completed : list job -> list job) (fuel : nat)
    (rows : list row) (n : Z) (replicas : nat) (model : string)
    (temps : list pyfloat) (code_field : string)
    (source_field lang_field : option string) (seed : Z) (sample : list row) :
  rows <> [] ->
  stratified_sample G fuel rows n seed code_field source_field lang_field
  = Some sample ->
  exists rd,
    round_ as_completed fuel rows n replicas model temps code_field source_field
      lang_field seed = Some rd /\
    round_sampled rd = sample /\
    List.length (round_final_rows rd)
    = List.length (group_by_item (round_results rd)) /\
    Forall (fun r => exists d, dict_get "final_decision" r = Some (JStr d) /\
                               In d DECISIONS) (round_final_rows rd) /\
    map fst (round_counts rd) = DECISIONS /\
    zsum (map snd (round_counts rd)) = Zlen (round_final_rows rd).
Proof.
  intros Hne Hs.
  subst round_. cbv beta. unfold run_round.
  destruct rows as [|r0 rows0] eqn:Er; [congruence|]. rewrite <- Er in *.
  rewrite Hs.
  set (temps' := match temps with [] => [Fin (1 # 10); Fin (3 # 10)] | _ => temps end).
  set (jobs := flat_map (jobs_of_row sha1_text code_field replicas temps') sample).
  set (item_map := item_map_of sha1_text code_field sample).
  fold (collect_ model).
  set (results := map (collect_ model) (as_completed jobs)).
  assert (Hvalid : Forall (fun r => In (decision (judgement r)) DECISIONS) results)
    by apply results_valid.
  assert (Hrows : forall e row,
             In e (group_by_item results) ->
             final_row round_ndigits code_field source_field lang_field item_map e
             = Some row ->
             exists d, dict_get "final_decision" row = Some (JStr d) /\ In d DECISIONS).
  { intros [id lst] row Hin Hrow.
    apply group_by_item_In in Hin. destruct Hin as [Hl ->].
    destruct (consensus_of_valid (map judgement (results_of id results)))
      as [J [EJ HJ]].
    - intros E. apply map_eq_nil in E. contradiction.
    - apply Forall_map_prop. rewrite Forall_forall in *. intros r Hr.
      apply Hvalid. apply filter_In in Hr. tauto.
    - destruct (final_row_fields _ _ _ _ _ _ _ _ Hrow) as [J' [EJ' [_ [Hd _]]]].
      rewrite EJ in EJ'. injection EJ' as <-. eauto. }
  destruct (final_rows_of_total round_ndigits code_field source_field lang_field
              item_map (group_by_item results)) as [frows Hf].
  { intros [id lst] Hin. pose proof Hin as Hin'.
    apply group_by_item_In in Hin. destruct Hin as [Hl ->].
    destruct (consensus_of_valid (map judgement (results_of id results)))
      as [J [EJ HJ]].
    - intros E. apply map_eq_nil in E. contradiction.
    - apply Forall_map_prop. rewrite Forall_forall in *. intros r Hr.
      apply Hvalid. apply filter_In in Hr. tauto.
    - unfold final_row. rewrite EJ. eauto. }
  rewrite Hf.
  pose proof (final_rows_of_Forall2 _ _ _ _ _ _ _ Hf) as HF2.
  assert (Hall : Forall (fun r => exists d, dict_get "final_decision" r = Some (JStr d) /\
                                            In d DECISIONS) frows).
  { apply Forall_forall. intros row Hrow.
    destruct (Forall2_In_r _ _ _ _ HF2 Hrow) as [e [He Hre]]. eapply Hrows; eauto. }
  destruct (count_decisions_total frows
              [("KEEP", 0%Z); ("KEEP_WITH_TAG", 0%Z); ("REMOVE", 0%Z)] eq_refl Hall)
    as [counts [Hc [Hk Hsum]]].
  rewrite Hc. eexists. split; [reflexivity|].
  cbn [round_sampled round_final_rows round_results round_counts].
  split; [reflexivity|]. split; [symmetry; eapply Forall2_length; eauto|].
  split; [exact Hall|]. split; [exact Hk|]. rewrite Hsum. unfold zsum. simpl. lia.
Qed.


(** ** Replicas, completion order and files *)

Lemma results_keys (model : string) (jobs : list job) :
  no_raise repr_value float_of_str json_loads json_dumps PROMPT_TEMPLATE judge ->
  map result_key (map (collect_ model) jobs) = map job_key jobs.
Proof.
  intros Hq. rewrite map_map. apply map_ext. intros j.
  apply (collect_key repr_value float_of_str json_loads json_dumps PROMPT_TEMPLATE
           judge exception_text model j Hq).
Qed.

Lemma results_of_length (id : string) (results : list ItemResult) :
  List.length (results_of id results)
  = List.length (filter (fun k : string * Z => String.eqb (fst k) id)
                   (map result_key results)).
Proof.
  unfold results_of. rewrite filter_map_swap, length_map. reflexivity.
Qed.

Lemma jobs_keys_count_pooled (code_field : string) (replicas : nat)
    (temps : list pyfloat) (rows : list row) (id : string) :
  List.length (filter (fun k : string * Z => String.eqb (fst k) id)
                 (map job_key
                    (flat_map (jobs_of_row sha1_text code_field replicas temps) rows)))
  = replicas * count_occ string_dec (map (item_id_of sha1_text code_field) rows) id.
Proof.
  induction rows as [|r rows IH]; simpl; [lia|].
  rewrite map_app, filter_app, length_app, IH, jobs_of_row_keys.
  destruct (string_dec (item_id_of sha1_text code_field r) id) as [E|E].
  - rewrite forallb_filter_id.
    + rewrite length_map, length_seq. lia.
    + apply forallb_forall. intros k Hk. apply in_map_iff in Hk.
      destruct Hk as [rep [<- _]]. simpl. now apply String.eqb_eq.
  - rewrite filter_none; [simpl; lia|].
    intros k Hk. apply in_map_iff in Hk. destruct Hk as [rep [<- _]]. simpl.
    now apply String.eqb_neq.
Qed.

(** X23.  When no request raises, the summary of a round has a row for
    every sampled record, under the record's item id, and its [replicas]
    cell counts [replicas] results for each sampled record with that id:
    exactly [replicas] when the ids of the sample are pairwise distinct,
    and records that share an id are pooled into one row. *)
Theorem summary_row_per_sampled_item (as_completed : list job -> list job)
    (fuel : nat) (rows : list row) (n : Z) (replicas : nat) (model : string)
    (temps : list pyfloat) (code_field : string)
    (source_field lang_field : option string) (seed : Z) (rd : round) :
  no_raise repr_value float_of_str json_loads json_dumps PROMPT_TEMPLATE judge ->
  (forall l, Permutation l (as_completed l)) ->
  0 < replicas ->
  round_ as_completed fuel rows n replicas model temps code_field source_field
    lang_field seed = Some rd ->
  forall r,
    In r (round_sampled rd) ->
    exists row,
      In row (round_final_rows rd) /\
      dict_get "item_id" row = Some (JStr (item_id_of sha1_text code_field r)) /\
      dict_get "replicas" row
      = Some (JInt (Z.of_nat
                      (replicas *
                       count_occ string_dec
                         (map (item_id_of sha1_text code_field) (round_sampled rd))
                         (item_id_of sha1_text code_field r)))).
Proof.
  intros Hq Hperm Hrep Hrd r Hr.
  destruct (run_round_inv _ _ _ _ _ _ _ _ _ _ _ _ Hrd)
    as [_ [_ [_ [_ [Hres [Hf _]]]]]].
  set (id := item_id_of sha1_text code_field r).
  set (temps' := match temps with [] => [Fin (1 # 10); Fin (3 # 10)] | _ => temps end) in *.
  set (jobs := flat_map (jobs_of_row sha1_text code_field replicas temps')
                        (round_sampled rd)) in *.
  assert (Hlen : List.length (results_of id (round_results rd))
                 = replicas * count_occ string_dec
                                (map (item_id_of sha1_text code_field) (round_sampled rd)) id).
  { rewrite results_of_length, Hres, results_keys by assumption.
    rewrite <- (filter_length_perm _ _ _ (Permutation_map job_key (Hperm jobs))).
    apply jobs_keys_count_pooled. }
  assert (Hpos : 0 < count_occ string_dec
                       (map (item_id_of sha1_text code_field) (round_sampled rd)) id).
  { apply count_occ_In. apply in_map_iff. exists r. auto. }
  assert (Hin : In (id, results_of id (round_results rd))
                   (group_by_item (round_results rd))).
  { apply group_by_item_In. split; [|reflexivity].
    intros E. rewrite E in Hlen. simpl in Hlen. nia. }
  pose proof (final_rows_of_Forall2 _ _ _ _ _ _ _ Hf) as HF2.
  destruct (Forall2_In_l _ _ _ _ HF2 Hin) as [row [Hrow Hfr]].
  destruct (final_row_fields _ _ _ _ _ _ _ _ Hfr) as [J [_ [Hid [_ [_ Hn]]]]].
  exists row. split; [exact Hrow|]. split; [exact Hid|].
  rewrite Hn. unfold Zlen. now rewrite Hlen.
Qed.

(** X24.  The verdicts of a round do not depend on the order in which
    the requests complete: two completion orders give the same sample,
    the same results up to their order, and for every item the same final
    decision, the same final labels and the same number of replicas. *)
Theorem verdicts_independent_of_completion_order
    (order1 order2 : list job -> list job)
    (fuel : nat) (rows : list row) (n : Z) (replicas : nat) (model : string)
    (temps : list pyfloat) (code_field : string)
    (source_field lang_field : option string) (seed : Z) (rd1 : round) :
  (forall l, Permutation l (order1 l)) ->
  (forall l, Permutation l (order2 l)) ->
  round_ order1 fuel rows n replicas model temps code_field source_field
    lang_field seed = Some rd1 ->
  exists rd2,
    round_ order2 fuel rows n replicas model temps code_field source_field
      lang_field seed = Some rd2 /\
    round_sampled rd2 = round_sampled rd1 /\
    Permutation (round_results rd1) (round_results rd2) /\
    forall row1,
      In row1 (round_final_rows rd1) ->
      exists row2,
        In row2 (round_final_rows rd2) /\
        dict_get "item_id" row2 = dict_get "item_id" row1 /\
        dict_get "final_decision" row2 = dict_get "final_decision" row1 /\
        dict_get "final_labels" row2 = dict_get "final_labels" row1 /\
        dict_get "replicas" row2 = dict_get "replicas" row1.
Proof.
  intros Hp1 Hp2 Hrd1.
  destruct (run_round_inv _ _ _ _ _ _ _ _ _ _ _ _ Hrd1)
    as [Hne [Hs [_ [_ [Hres1 [Hf1 _]]]]]].
  destruct (run_round_total order2 fuel rows n replicas model temps code_field
              source_field lang_field seed (round_sampled rd1) Hne Hs)
    as [rd2 [Hrd2 [Hsam _]]].
  exists rd2. split; [exact Hrd2|]. split; [exact Hsam|].
  destruct (run_round_inv _ _ _ _ _ _ _ _ _ _ _ _ Hrd2)
    as [_ [_ [_ [_ [Hres2 [Hf2 _]]]]]].
  rewrite Hsam in Hres2, Hf2.
  set (temps' := match temps with [] => [Fin (1 # 10); Fin (3 # 10)] | _ => temps end) in *.
  set (jobs := flat_map (jobs_of_row sha1_text code_field replicas temps')
                        (round_sampled rd1)) in *.
  assert (Hperm : Permutation (round_results rd1) (round_results rd2)).
  { rewrite Hres1, Hres2. apply Permutation_map.
    transitivity jobs; [symmetry; apply Hp1 | apply Hp2]. }
  split; [exact Hperm|].
  intros row1 Hrow1.
  pose proof (final_rows_of_Forall2 _ _ _ _ _ _ _ Hf1) as HF1.
  pose proof (final_rows_of_Forall2 _ _ _ _ _ _ _ Hf2) as HF2.
  destruct (Forall2_In_r _ _ _ _ HF1 Hrow1) as [[id lst1] [He1 Hfr1]].
  apply group_by_item_In in He1. destruct He1 as [Hl1 ->].
  assert (Hg : Permutation (results_of id (round_results rd1))
                           (results_of id (round_results rd2)))
    by (apply filter_perm; exact Hperm).
  assert (He2 : In (id, results_of id (round_results rd2))
                   (group_by_item (round_results rd2))).
  { apply group_by_item_In. split; [|reflexivity].
    intros E. rewrite E in Hg. apply Permutation_sym, Permutation_nil in Hg.
    contradiction. }
  destruct (Forall2_In_l _ _ _ _ HF2 He2) as [row2 [Hrow2 Hfr2]].
  destruct (final_row_fields _ _ _ _ _ _ _ _ Hfr1) as [J1 [EJ1 [A1 [B1 [C1 D1]]]]].
  destruct (final_row_fields _ _ _ _ _ _ _ _ Hfr2) as [J2 [EJ2 [A2 [B2 [C2 D2]]]]].
  pose proof (consensus_perm _ _ (Permutation_map judgement Hg)) as Hc.
  rewrite EJ1, EJ2 in Hc. destruct Hc as [Hd [Hlab _]].
  exists row2. split; [exact Hrow2|].
  rewrite A1, A2, B1, B2, C1, C2, D1, D2, Hd, Hlab.
  unfold Zlen. rewrite (Permutation_length Hg). auto.
Qed.

End RoundFacts.


Lemma keep_round_returns :
  round_ref judge_keep (fun l => l) corpus_two_buckets 3 2 = Some keep_round.
Proof. vm_compute. reflexivity. Qed.

Lemma summary_row_per_sampled_item_witness :
  exists row,
    In row (round_final_rows keep_round) /\
    dict_get "item_id" row = Some (JStr "d") /\
    dict_get "replicas" row = Some (JInt 2).
Proof.
  destruct (summary_row_per_sampled_item repr_ref float_of_str_ref json_loads_ref
              json_dumps_ref PROMPT_TEMPLATE_ref judge_keep sha1_text_ref
              "worker failed" (fun x => x) lcg (fun l => l) 25 corpus_two_buckets 3 2
              "judge-model" [] "text" (Some "repo") None 42 keep_round
              judge_keep_quiet (fun l => Permutation_refl l) (Nat.lt_0_succ 1)
              keep_round_returns
              [("id", "d"); ("text", "let d = 4"); ("repo", "beta")])
    as [row [H1 [H2 H3]]].
  - vm_compute. tauto.
  - exists row. split; [exact H1|]. split; [exact H2|]. rewrite H3. reflexivity.
Defined.

Lemma verdicts_independent_of_completion_order_witness :
  exists rd2,
    round_ref judge_keep (@rev job) corpus_two_buckets 3 2 = Some rd2 /\
    round_sampled rd2 = round_sampled keep_round /\
    Permutation (round_results keep_round) (round_results rd2).
Proof.
  destruct (verdicts_independent_of_completion_order repr_ref float_of_str_ref
              json_loads_ref json_dumps_ref PROMPT_TEMPLATE_ref judge_keep sha1_text_ref
              "worker failed" (fun x => x) lcg (fun l => l) (@rev job) 25
              corpus_two_buckets 3 2 "judge-model" [] "text" (Some "repo") None 42
              keep_round (fun l => Permutation_refl l) (@Permutation_rev job)
              keep_round_returns)
    as [rd2 [H1 [H2 [H3 _]]]].
  exists rd2. split; [exact H1|]. split; [exact H2 | exact H3].
Defined.


(* ================================================================== *)
(** * Further properties: validation, tables and the two readers *)
(* ================================================================== *)

Section ValidationExtras.
Variable repr_value : json -> string.
Variable float_of_str : string -> option pyfloat.


(** X27.  The labels of a validated judgement are the entries of the
    object's [labels] list, each converted with [str], in order and with
    repetitions kept; an absent or null [labels] gives the empty list.
    No entry is rejected for its type. *)
Theorem validated_labels_are_stringified (d : list (string * json)) (j : Judgement) :
  validate_judgement repr_value float_of_str (JDict d) = Some j ->
  labels j
  = match dict_get "labels" d with
    | Some (JList ls) => map (py_str repr_value) ls
    | _ => []
    end.
Proof.
  unfold validate_judgement.
  destruct (dict_get "decision" d) as [dv|]; [|discriminate].
  destruct (str_in _ DECISIONS); [|discriminate].
  destruct (dict_get "labels" d) as [[| | | | |ls|dd]|]; try discriminate;
    (destruct (py_float float_of_str
                 (match dict_get "arkts_score" d with Some v => v | None => JInt 0 end));
     [|discriminate]);
    (destruct (py_float float_of_str
                 (match dict_get "quality_score" d with Some v => v | None => JInt 0 end));
     [|discriminate]);
    (destruct (py_float float_of_str
                 (match dict_get "confidence" d with Some v => v | None => JInt 0 end));
     [|discriminate]);
    intros [= <-]; reflexivity.
Qed.
End ValidationExtras.

Lemma validated_labels_are_stringified_witness :
  exists j,
    validate_judgement repr_ref float_of_str_ref
      (JDict [("decision", JStr "keep"); ("labels", JList [JStr "A"; JInt 7; JNull; JStr "A"])])
    = Some j /\
    labels j = ["A"; "7"; "None"; "A"].
Proof.
  eexists. split; [vm_compute; reflexivity|].
  apply (validated_labels_are_stringified repr_ref float_of_str_ref
           [("decision", JStr "keep"); ("labels", JList [JStr "A"; JInt 7; JNull; JStr "A"])]).
  vm_compute. reflexivity.
Defined.

(** ** The summary table *)

Lemma sorted_set_NoDup (l : list string) : NoDup (sorted_set l).
Proof.
  unfold sorted_set, sorted_str.
  apply (Permutation_NoDup (sort_by_perm String.ltb (nodup string_dec l))).
  apply NoDup_nodup.
Qed.

(** X28.  [write_csv] leaves the file as it is when there is no row.
    Otherwise the header is the strictly sorted list of the keys that
    some row has, each once, and there is one record per row, in order,
    with one cell per column: the row's value under the column's key,
    and null where the row has no such key. *)
Theorem write_csv_table (path : option csv_table) (rows : list (list (string * json))) :
  match rows with
  | [] => write_csv path rows = path
  | _ =>
      exists header,
        write_csv path rows
        = Some (header, map (fun r => map (fun k => get_or_null k r) header) rows) /\
        StronglySorted (fun a b => String.ltb a b = true) header /\
        NoDup header /\
        forall k, In k header <-> exists r, In r rows /\ In k (map fst r)
  end.
Proof.
  destruct rows as [|r rows]; [reflexivity|].
  exists (sorted_set (flat_map (map fst) (r :: rows))).
  split; [reflexivity|]. split; [apply sorted_set_sorted|].
  split; [apply sorted_set_NoDup|].
  intros k. rewrite sorted_set_In, in_flat_map. reflexivity.
Qed.

(** ** The resume loader and [read_jsonl] on one file *)



(** ** The prompt *)

Lemma replace_from_skip (old new : string) (s : string) :
  forall k, replace_from k old new s = replace_from 0 old new (str_drop k s).
Proof.
  induction s as [|c r IH]; intros [|k]; try reflexivity.
  cbn [replace_from str_drop]. apply IH.
Qed.

Lemma replace_from_none (old new : string) (s : string) :
  str_find old s = None -> replace_from 0 old new s = s.
Proof.
  induction s as [|c r IH]; [reflexivity|].
  cbn [str_find replace_from].
  destruct (String.prefix old (String c r)); [discriminate|].
  destruct (str_find old r); [discriminate|]. intros _. simpl. now rewrite IH.
Qed.

Lemma replace_from_first (old new : string) (s : string) :
  old <> EmptyString ->
  forall i,
    str_find old s = Some i ->
    replace_from 0 old new s
    = (str_take i s ++ new
       ++ replace_from 0 old new (str_drop (i + String.length old) s))%string.
Proof.
  intros Hne. induction s as [|c r IH]; intros i H.
  - simpl in H. destruct old; [congruence | discriminate].
  - cbn [str_find] in H. cbn [replace_from].
    destruct (String.prefix old (String c r)) eqn:Ep.
    + injection H as <-.
      assert (En : negb (String.eqb old "") = true).
      { apply negb_true_iff. now apply String.eqb_neq. }
      rewrite En. cbn [andb].
      assert (E0 : str_take 0 (String c r) = EmptyString) by reflexivity.
      rewrite E0. cbn [append]. f_equal.
      rewrite replace_from_skip. f_equal.
      destruct old as [|x o]; [congruence|].
      cbn [String.length].
      replace (S (String.length o) - 1) with (String.length o) by lia.
      reflexivity.
    + cbn [andb]. destruct (str_find old r) as [i'|] eqn:Ef; [|discriminate].
      injection H as <-. rewrite (IH i' eq_refl).
      rewrite str_take_cons. reflexivity.
Qed.

(** X30.  [build_prompt] puts the code into the template verbatim: when
    the placeholder occurs in the template once, at index [i], the prompt
    is the template up to [i], the code, and the template after the
    placeholder.  The code is not scanned, so a code text that itself
    contains the placeholder or braces comes out unchanged. *)
Theorem build_prompt_splices_code (PROMPT_TEMPLATE code : string) (i : nat) :
  str_find "{code}" PROMPT_TEMPLATE = Some i ->
  str_find "{code}" (str_drop (i + 6) PROMPT_TEMPLATE) = None ->
  build_prompt PROMPT_TEMPLATE code
  = (str_take i PROMPT_TEMPLATE ++ code ++ str_drop (i + 6) PROMPT_TEMPLATE)%string.
Proof.
  intros H1 H2. unfold build_prompt, replace.
  rewrite (replace_from_first "{code}" code PROMPT_TEMPLATE ltac:(discriminate) i H1).
  change (String.length "{code}") with 6.
  now rewrite (replace_from_none _ _ _ H2).
Qed.

Lemma build_prompt_splices_code_witness :
  build_prompt PROMPT_TEMPLATE_ref "x = '{code}' // {"
  = "Judge the code. ---CODE-BEGIN--- x = '{code}' // { ---CODE-END---".
Proof.
  apply (build_prompt_splices_code PROMPT_TEMPLATE_ref "x = '{code}' // {" 33).
  - vm_compute. reflexivity.
  - vm_compute. reflexivity.
Defined.
